(** * TGUI: containers, box layout and child windows

    A shallow embedding of
    - [HorizontalLayout::updateWidgetPositions] (src/TGUI/HorizontalLayout.cpp),
    - [Group::add], [Group::get], [Group::copy]  (include/TGUI/Group.hpp),
    - [ChildWindow::handleEvent] and the small setters around it
      (src/TGUI/ChildWindow.cpp).

    The C++ code computes with [float].  The definitions that compute are
    written once, over an abstract scalar interface, and the interface is
    instantiated twice: with the rationals [Qc] (exact arithmetic) and with
    IEEE-754 binary32 ([SpecFloat] at precision 24, round to nearest even),
    where division by zero yields an infinity or a NaN.  Pointers are
    addresses into a finite map of live objects; [None] as the result of an
    operation stands for undefined behaviour of the C++ code. *)

From Stdlib Require Import ZArith NArith QArith Qcanon Lia Bool.
From Stdlib Require Import Floats.SpecFloat.
From stdpp Require Import base option list gmap strings.

Set Default Proof Using "Type".

(** ** Scalars *)

Class Scalar (F : Type) := {
  fzero : F;
  fadd : F -> F -> F;
  fsub : F -> F -> F;
  fmul : F -> F -> F;
  fdiv : F -> F -> F;
  feqb : F -> F -> bool;          (* operator== *)
  fltb : F -> F -> bool;          (* operator<  *)
  fleb : F -> F -> bool;          (* operator<= *)
  of_uint : N -> F                (* static_cast<float>(unsigned int) *)
}.

(** Conversion of a [float] to [bool], as in [if (x)]: true unless [x == 0]. *)
Definition truthy {F} `{Scalar F} (x : F) : bool := negb (feqb x fzero).

(** Exact arithmetic.  [Qc] divides by zero to zero, which [float] does not:
    what the code does when it divides by zero is settled on the binary32
    instance below. *)
#[export] Instance Qc_scalar : Scalar Qc := {|
  fzero := 0%Qc;
  fadd := Qcplus;
  fsub := Qcminus;
  fmul := Qcmult;
  fdiv := Qcdiv;
  feqb := fun a b => bool_decide (a = b);
  fltb := fun a b => bool_decide (a < b)%Qc;
  fleb := fun a b => bool_decide (a <= b)%Qc;
  of_uint := fun n => Q2Qc (inject_Z (Z.of_N n))
|}.

(** IEEE-754 single precision. *)
Module Binary32.
Definition prec : Z := 24.
Definition emax : Z := 128.
Definition float : Type := spec_float.
Definition of_Z (z : Z) : float := binary_normalize prec emax z 0 false.
Definition is_nan (x : float) : bool :=
  match x with S754_nan => true | _ => false end.
Definition is_infinite (x : float) : bool :=
  match x with S754_infinity _ => true | _ => false end.
Definition is_zero (x : float) : bool :=
  match x with S754_zero _ => true | _ => false end.
Definition is_finite (x : float) : bool :=
  match x with S754_zero _ | S754_finite _ _ _ => true | _ => false end.
End Binary32.

#[export] Instance binary32_scalar : Scalar Binary32.float := {|
  fzero := S754_zero false;
  fadd := SFadd Binary32.prec Binary32.emax;
  fsub := SFsub Binary32.prec Binary32.emax;
  fmul := SFmul Binary32.prec Binary32.emax;
  fdiv := SFdiv Binary32.prec Binary32.emax;
  feqb := SFeqb;
  fltb := SFltb;
  fleb := SFleb;
  of_uint := fun n => Binary32.of_Z (Z.of_N n)
|}.

Record Vector2 (F : Type) := mkVector2 { vx : F; vy : F }.
Arguments mkVector2 {F} _ _.
Arguments vx {F} _.
Arguments vy {F} _.

(** ** HorizontalLayout *)

Module Layout.
Section WithScalar.
Context {F : Type} `{Scalar F}.

(** What the layout touches of a widget: [setPosition] and [setSize]. *)
Record Widget := mkWidget { position : Vector2 F; size : Vector2 F }.

Definition setPosition (x y : F) (w : Widget) : Widget :=
  {| position := mkVector2 x y; size := size w |}.
Definition setSize (x y : F) (w : Widget) : Widget :=
  {| position := position w; size := mkVector2 x y |}.

(** The three parallel vectors of the box layout and its own size. *)
Record HorizontalLayout := mkLayout {
  m_size : Vector2 F;
  m_layoutWidgets : list Widget;
  m_widgetsRatio : list F;
  m_widgetsFixedSizes : list F
}.

(** First loop (lines 29-34).  [None] is an out-of-range [operator[]]. *)
Definition sumRatio_step (hl : HorizontalLayout) (acc : option F) (i : nat)
  : option F :=
  sumRatio ← acc;
  fx ← m_widgetsFixedSizes hl !! i;
  if feqb fx fzero
  then r ← m_widgetsRatio hl !! i; Some (fadd sumRatio r)
  else Some sumRatio.

Definition sumRatio (hl : HorizontalLayout) : option F :=
  foldl (sumRatio_step hl) (Some fzero) (seq 0 (length (m_widgetsRatio hl))).

(** [std::accumulate(begin, end, 0.f)] (line 38). *)
Definition sumFixedSize (hl : HorizontalLayout) : F :=
  foldl fadd fzero (m_widgetsFixedSizes hl).

(** State of the second loop: the widgets, [currentRatio], [currentOffset]. *)
Record walk_state := mkWalk {
  widgets : list Widget;
  currentRatio : F;
  currentOffset : F
}.

(** Body of the second loop (lines 41-51). *)
Definition place_step (hl : HorizontalLayout) (sR sF : F)
    (acc : option walk_state) (i : nat) : option walk_state :=
  st ← acc;
  w ← widgets st !! i;
  let w1 := setPosition
              (fadd (fmul (fsub (vx (m_size hl)) sF) (currentRatio st))
                    (currentOffset st))
              fzero w in
  fx ← m_widgetsFixedSizes hl !! i;
  if truthy fx
  then Some {| widgets := <[i := setSize fx (vy (m_size hl)) w1]> (widgets st);
               currentRatio := currentRatio st;
               currentOffset := fadd (currentOffset st) fx |}
  else r ← m_widgetsRatio hl !! i;
       Some {| widgets :=
                 <[i := setSize (fdiv (fmul (fsub (vx (m_size hl)) sF) r) sR)
                                (vy (m_size hl)) w1]> (widgets st);
               currentRatio := fadd (currentRatio st) (fdiv r sR);
               currentOffset := currentOffset st |}.

Definition updateWidgetPositions (hl : HorizontalLayout)
  : option HorizontalLayout :=
  sR ← sumRatio hl;
  let sF := sumFixedSize hl in
  st ← foldl (place_step hl sR sF)
             (Some {| widgets := m_layoutWidgets hl;
                      currentRatio := fzero;
                      currentOffset := fzero |})
             (seq 0 (length (m_layoutWidgets hl)));
  Some {| m_size := m_size hl;
          m_layoutWidgets := widgets st;
          m_widgetsRatio := m_widgetsRatio hl;
          m_widgetsFixedSizes := m_widgetsFixedSizes hl |}.

(** The box layout keeps one ratio and one fixed size per widget. *)
Definition well_formed (hl : HorizontalLayout) : Prop :=
  length (m_widgetsRatio hl) = length (m_layoutWidgets hl) /\
  length (m_widgetsFixedSizes hl) = length (m_layoutWidgets hl).

(** The two loops read structurally, over the three vectors zipped.  These
    are what the index loops compute when the vectors have equal lengths
    ([sumRatio_zipped], [updateWidgetPositions_zipped] below). *)
Definition ratio_sum (rs fs : list F) : F :=
  foldl (fun acc rf => if feqb rf.2 fzero then fadd acc rf.1 else acc)
        fzero (zip rs fs).

Fixpoint place (E Ey sF sR cR cO : F) (ws : list Widget) (rs fs : list F)
  : list Widget :=
  match ws, rs, fs with
  | w :: ws', r :: rs', f :: fs' =>
      let w1 := setPosition (fadd (fmul (fsub E sF) cR) cO) fzero w in
      if truthy f
      then setSize f Ey w1 :: place E Ey sF sR cR (fadd cO f) ws' rs' fs'
      else setSize (fdiv (fmul (fsub E sF) r) sR) Ey w1
             :: place E Ey sF sR (fadd cR (fdiv r sR)) cO ws' rs' fs'
  | _, _, _ => []
  end.

End WithScalar.
Arguments Widget F : clear implicits.
Arguments HorizontalLayout F : clear implicits.
End Layout.

(** The sizing algorithm in the words of the specification (section 4.2):
    partition the children, sum the fixed sizes and the ratios of the others,
    then walk the children with an accumulated offset.  It is written over
    the scalar interface, so that it can be read in exact arithmetic and in
    single precision. *)
Module LayoutSpec.
Section WithScalar.
Context {F : Type} `{Scalar F}.

(** A child is fixed-size when it carries a fixed size (stored nonzero). *)
Definition is_fixed (f : F) : bool := negb (feqb f fzero).

Definition total (l : list F) : F := foldr fadd fzero l.

Definition sumFixed (fs : list F) : F :=
  total (filter (fun f => is_fixed f = true) fs).

Fixpoint sumRatio (rs fs : list F) : F :=
  match rs, fs with
  | r :: rs', f :: fs' =>
      if is_fixed f then sumRatio rs' fs' else fadd r (sumRatio rs' fs')
  | _, _ => fzero
  end.

(** Offset and size along the axis, size across it. *)
Record geometry := mkGeometry { offset : F; extent : F; cross : F }.

Fixpoint walk (remainingSpace sumRatio crossExtent : F) (off : F)
    (rs fs : list F) : list geometry :=
  match rs, fs with
  | r :: rs', f :: fs' =>
      let sz := if is_fixed f then f
                else fmul remainingSpace (fdiv r sumRatio) in
      mkGeometry off sz crossExtent
        :: walk remainingSpace sumRatio crossExtent (fadd off sz) rs' fs'
  | _, _ => []
  end.

Definition layout (E crossExtent : F) (rs fs : list F) : list geometry :=
  walk (fsub E (sumFixed fs)) (sumRatio rs fs) crossExtent fzero rs fs.

Definition geometry_of (w : Layout.Widget F) : geometry :=
  mkGeometry (vx (Layout.position w)) (vx (Layout.size w))
             (vy (Layout.size w)).

(** Sum of the sizes along the axis of the ratio-sized children. *)
Fixpoint ratio_children_extent (ws : list (Layout.Widget F)) (fs : list F)
  : F :=
  match ws, fs with
  | w :: ws', f :: fs' =>
      fadd (if is_fixed f then fzero else vx (Layout.size w))
           (ratio_children_extent ws' fs')
  | _, _ => fzero
  end.

(** The walk with the two running sums the code keeps instead of one
    offset: the sum of [ratio / sumRatio] over the ratio-sized children met
    so far and the sum of the fixed sizes met so far.  A child starts at
    [remainingSpace * ratioSoFar + fixedSoFar]; a fixed-size child gets its
    fixed size and a ratio-sized child [remainingSpace * ratio / sumRatio],
    multiplied first and divided after. *)
Fixpoint two_sum_walk (remainingSpace sumRatio crossExtent : F)
    (ratioSoFar fixedSoFar : F) (rs fs : list F) : list geometry :=
  match rs, fs with
  | r :: rs', f :: fs' =>
      let off := fadd (fmul remainingSpace ratioSoFar) fixedSoFar in
      if is_fixed f
      then mkGeometry off f crossExtent
             :: two_sum_walk remainingSpace sumRatio crossExtent
                  ratioSoFar (fadd fixedSoFar f) rs' fs'
      else mkGeometry off (fdiv (fmul remainingSpace r) sumRatio) crossExtent
             :: two_sum_walk remainingSpace sumRatio crossExtent
                  (fadd ratioSoFar (fdiv r sumRatio)) fixedSoFar rs' fs'
  | _, _ => []
  end.
End WithScalar.
Arguments geometry F : clear implicits.
End LayoutSpec.

(** ** Group *)

Module Group.

(** Addresses of heap objects.  A [T*] that may be [NULL] is an
    [option ptr]. *)
Abbreviation ptr := positive.

(** The two parallel vectors of a group: [m_ObjName] and
    [m_EventManager.m_Objects]. *)
Record Group := mkGroup {
  m_ObjName : list string;
  m_Objects : list ptr
}.

(** Every name has its object. *)
Definition well_formed (g : Group) : Prop :=
  length (m_Objects g) = length (m_ObjName g).

(** [get] (lines 102-112): scan the names from index [i] on; the result is
    the object stored at the index of the first equal name, [NULL] when the
    scan ends.  The outer [None] is an out-of-range read of [m_Objects]. *)
Fixpoint get_loop (objs : list ptr) (objectName : string) (i : nat)
    (names : list string) : option (option ptr) :=
  match names with
  | [] => Some None
  | n :: names' =>
      if String.eqb n objectName
      then p ← objs !! i; Some (Some p)
      else get_loop objs objectName (S i) names'
  end.

Definition get (objectName : string) (g : Group) : option (option ptr) :=
  get_loop (m_Objects g) objectName 0 (m_ObjName g).

Definition push_back (p : ptr) (name : string) (g : Group) : Group :=
  {| m_ObjName := m_ObjName g ++ [name]; m_Objects := m_Objects g ++ [p] |}.

Section WithWidget.
(** The state of a widget besides its back-reference to the owner. *)
Context {St : Type}.

Record OBJECT := mkOBJECT { m_Parent : option ptr; state : St }.

Definition set_Parent (g : option ptr) (o : OBJECT) : OBJECT :=
  {| m_Parent := g; state := state o |}.

(** [operator new]: picks the address of the new object. *)
Variable alloc : gmap ptr OBJECT -> ptr.
(** [T()], the default-constructed widget. *)
Variable T_new : OBJECT.
(** [T::initialize()], the virtual hook run by [add]. *)
Variable T_initialize : OBJECT -> OBJECT.

(** [add] (lines 72-83), called on the group at address [this]. *)
Definition add (this : ptr) (objectName : string) (g : Group)
    (h : gmap ptr OBJECT) : ptr * Group * gmap ptr OBJECT :=
  let newObject := alloc h in
  let h1 := <[newObject := T_new]> h in
  let h2 := alter (set_Parent (Some this)) newObject h1 in
  let g' := push_back newObject objectName g in
  let h3 := alter T_initialize newObject h2 in
  (newObject, g', h3).

(** [T(const T&)], the copy constructor of the widget class: what it
    leaves in the new object, given the source.  Every widget class has
    its own (that of [ChildWindow] is at ChildWindow.cpp, lines 51-71). *)
Variable T_copy : OBJECT -> OBJECT.

(** [copy(T* oldObject, newObjectName)] (lines 124-133).  [None] is the
    dereference of a pointer to no live object. *)
Definition copy (oldObject : ptr) (newObjectName : string) (g : Group)
    (h : gmap ptr OBJECT) : option (ptr * Group * gmap ptr OBJECT) :=
  old ← h !! oldObject;
  let newObject := alloc h in
  let h1 := <[newObject := T_copy old]> h in
  Some (newObject, push_back newObject newObjectName g, h1).

(** [copy(oldObjectName, newObjectName)] (lines 147-164): the result is
    [NULL] when no name matches. *)
Fixpoint copy_loop (oldObjectName newObjectName : string) (g : Group)
    (h : gmap ptr OBJECT) (i : nat) (names : list string)
  : option (option ptr * Group * gmap ptr OBJECT) :=
  match names with
  | [] => Some (None, g, h)
  | n :: names' =>
      if String.eqb n oldObjectName
      then p ← m_Objects g !! i;
           '(newObject, g', h') ← copy p newObjectName g h;
           Some (Some newObject, g', h')
      else copy_loop oldObjectName newObjectName g h (S i) names'
  end.

Definition copy_by_name (oldObjectName newObjectName : string) (g : Group)
    (h : gmap ptr OBJECT)
  : option (option ptr * Group * gmap ptr OBJECT) :=
  copy_loop oldObjectName newObjectName g h 0 (m_ObjName g).

(** A run of [add] calls on the same group, one per name; the handles
    returned, in call order. *)
Fixpoint add_all (this : ptr) (names : list string) (g : Group)
    (h : gmap ptr OBJECT) : list ptr * Group * gmap ptr OBJECT :=
  match names with
  | [] => ([], g, h)
  | n :: names' =>
      let '(p, g1, h1) := add this n g h in
      let '(ps, g2, h2) := add_all this names' g1 h1 in
      (p :: ps, g2, h2)
  end.
End WithWidget.
Arguments OBJECT St : clear implicits.

(** Modelled from the spec: [Group::remove] by handle is declared in
    Group.hpp and defined outside src/.  It "removes ... the exact widget
    (by handle)" together with its name; "removing an unknown target is a
    no-op". *)
Fixpoint remove_loop (object : ptr) (names : list string) (objs : list ptr)
  : list string * list ptr :=
  match names, objs with
  | n :: names', o :: objs' =>
      if Pos.eqb o object then (names', objs')
      else let '(ns, os) := remove_loop object names' objs' in
           (n :: ns, o :: os)
  | _, _ => (names, objs)
  end.

Definition remove (object : ptr) (g : Group) : Group :=
  let '(ns, os) := remove_loop object (m_ObjName g) (m_Objects g) in
  {| m_ObjName := ns; m_Objects := os |}.

(** Modelled from the spec: [Group::removeAllObjects()], defined outside
    src/, "destroys all children". *)
Definition removeAllObjects (g : Group) : Group :=
  {| m_ObjName := []; m_Objects := [] |}.

End Group.

(** ** ChildWindow *)

Module ChildWindow.

(** [ChildWindow::Layout]: the side of the title bar the close button is on. *)
Inductive Layout := LayoutLeft | LayoutRight.

(** [sf::Event::type], as far as [handleEvent] looks at it. *)
Inductive EventType :=
  MouseMoved | MouseButtonPressed | MouseButtonReleased | OtherEvent.

Inductive Trigger := closed | objectFocused | objectUnfocused.
Record Callback := mkCallback { trigger : Trigger }.

(** Calls that leave the window, in the order they are made. *)
Inductive Call :=
| CallAddCallback (parent : positive) (c : Callback)
| CallRemoveAllObjects (this : positive)
| CallRemove (parent : positive) (object : positive)
| CallPanelHandleEvent (this : positive) (e : EventType).

(** The group a window's [m_Parent] points to, with the callbacks queued
    there. *)
Record ParentGroup := mkParentGroup {
  pg_group : Group.Group;
  pg_callbacks : list Callback
}.

Section WithScalar.
Context {F : Type} `{Scalar F}.
(** The state of [m_EventManager] besides the list of children. *)
Context {EM : Type}.

(** [sf::FloatRect(left, top, width, height).contains(x, y)]. *)
Definition FloatRect_contains (left top width height x y : F) : bool :=
  fleb left x && fltb x (fadd left width) &&
  fleb top y && fltb y (fadd top height).

(** Modelled from the spec: the Button class is not in src/.  A widget has
    "geometry (position, size, scale - all float vectors)" and a "mouse-down"
    flag; its hit test is "containsPoint(x, y) -> bool" over its scaled
    rectangle; a press on it raises the mouse-down flag. *)
Record Button := mkButton {
  b_position : Vector2 F;
  b_size : Vector2 F;
  b_scale : Vector2 F;
  b_MouseDown : bool;
  b_MouseHover : bool;
  b_alpha : N
}.

Definition Button_getScaledSize (b : Button) : Vector2 F :=
  mkVector2 (fmul (vx (b_size b)) (vx (b_scale b)))
            (fmul (vy (b_size b)) (vy (b_scale b))).
Definition Button_setPosition (x y : F) (b : Button) : Button :=
  mkButton (mkVector2 x y) (b_size b) (b_scale b)
           (b_MouseDown b) (b_MouseHover b) (b_alpha b).
Definition Button_setScale (x y : F) (b : Button) : Button :=
  mkButton (b_position b) (b_size b) (mkVector2 x y)
           (b_MouseDown b) (b_MouseHover b) (b_alpha b).
Definition Button_setAlpha (a : N) (b : Button) : Button :=
  mkButton (b_position b) (b_size b) (b_scale b)
           (b_MouseDown b) (b_MouseHover b) a.
Definition Button_mouseOnObject (x y : F) (b : Button) : bool :=
  FloatRect_contains (vx (b_position b)) (vy (b_position b))
                     (vx (Button_getScaledSize b))
                     (vy (Button_getScaledSize b)) x y.
Definition Button_leftMousePressed (b : Button) : Button :=
  mkButton (b_position b) (b_size b) (b_scale b)
           true (b_MouseHover b) (b_alpha b).
Definition Button_mouseMoved (b : Button) : Button :=
  mkButton (b_position b) (b_size b) (b_scale b)
           (b_MouseDown b) true (b_alpha b).

(** The Panel a child window is: its children and its event manager. *)
Record Panel := mkPanel { children : Group.Group; em : EM }.

Record ChildWindow := mkChildWindow {
  m_Loaded : bool;
  m_MouseDown : bool;
  callbackID : N;                         (* unsigned int *)
  m_Parent : option positive;             (* Group*; None is NULL *)
  position : Vector2 F;                   (* sf::Transformable *)
  m_Size : N * N;                         (* width, height *)
  layout : Layout;
  distanceToSide : N;                     (* unsigned int *)
  m_TitleBarHeight : N;                   (* unsigned int *)
  m_DraggingPosition : Vector2 F;
  m_Opacity : N;                          (* unsigned char *)
  m_SpriteTitleBar_alpha : N;             (* alpha of the title bar sprites *)
  m_TextureTitleBar_M : option (N * N);   (* size of the texture; None is NULL *)
  m_Borders : N * N * N * N;              (* left, top, right, bottom *)
  m_CloseButton : Button;
  panel : Panel
}.

Definition set_MouseDown (v : bool) (w : ChildWindow) : ChildWindow :=
  mkChildWindow (m_Loaded w) v (callbackID w) (m_Parent w) (position w)
    (m_Size w) (layout w) (distanceToSide w) (m_TitleBarHeight w)
    (m_DraggingPosition w) (m_Opacity w) (m_SpriteTitleBar_alpha w)
    (m_TextureTitleBar_M w) (m_Borders w) (m_CloseButton w) (panel w).
Definition setPosition (x y : F) (w : ChildWindow) : ChildWindow :=
  mkChildWindow (m_Loaded w) (m_MouseDown w) (callbackID w) (m_Parent w)
    (mkVector2 x y)
    (m_Size w) (layout w) (distanceToSide w) (m_TitleBarHeight w)
    (m_DraggingPosition w) (m_Opacity w) (m_SpriteTitleBar_alpha w)
    (m_TextureTitleBar_M w) (m_Borders w) (m_CloseButton w) (panel w).
Definition set_TitleBarHeight (v : N) (w : ChildWindow) : ChildWindow :=
  mkChildWindow (m_Loaded w) (m_MouseDown w) (callbackID w) (m_Parent w)
    (position w) (m_Size w) (layout w) (distanceToSide w) v
    (m_DraggingPosition w) (m_Opacity w) (m_SpriteTitleBar_alpha w)
    (m_TextureTitleBar_M w) (m_Borders w) (m_CloseButton w) (panel w).
Definition set_DraggingPosition (x y : F) (w : ChildWindow) : ChildWindow :=
  mkChildWindow (m_Loaded w) (m_MouseDown w) (callbackID w) (m_Parent w)
    (position w) (m_Size w) (layout w) (distanceToSide w) (m_TitleBarHeight w)
    (mkVector2 x y) (m_Opacity w) (m_SpriteTitleBar_alpha w)
    (m_TextureTitleBar_M w) (m_Borders w) (m_CloseButton w) (panel w).
Definition set_Opacity (v : N) (w : ChildWindow) : ChildWindow :=
  mkChildWindow (m_Loaded w) (m_MouseDown w) (callbackID w) (m_Parent w)
    (position w) (m_Size w) (layout w) (distanceToSide w) (m_TitleBarHeight w)
    (m_DraggingPosition w) v (m_SpriteTitleBar_alpha w)
    (m_TextureTitleBar_M w) (m_Borders w) (m_CloseButton w) (panel w).
Definition set_SpriteTitleBar_alpha (v : N) (w : ChildWindow) : ChildWindow :=
  mkChildWindow (m_Loaded w) (m_MouseDown w) (callbackID w) (m_Parent w)
    (position w) (m_Size w) (layout w) (distanceToSide w) (m_TitleBarHeight w)
    (m_DraggingPosition w) (m_Opacity w) v
    (m_TextureTitleBar_M w) (m_Borders w) (m_CloseButton w) (panel w).
Definition set_Borders (v : N * N * N * N) (w : ChildWindow) : ChildWindow :=
  mkChildWindow (m_Loaded w) (m_MouseDown w) (callbackID w) (m_Parent w)
    (position w) (m_Size w) (layout w) (distanceToSide w) (m_TitleBarHeight w)
    (m_DraggingPosition w) (m_Opacity w) (m_SpriteTitleBar_alpha w)
    (m_TextureTitleBar_M w) v (m_CloseButton w) (panel w).
Definition set_CloseButton (b : Button) (w : ChildWindow) : ChildWindow :=
  mkChildWindow (m_Loaded w) (m_MouseDown w) (callbackID w) (m_Parent w)
    (position w) (m_Size w) (layout w) (distanceToSide w) (m_TitleBarHeight w)
    (m_DraggingPosition w) (m_Opacity w) (m_SpriteTitleBar_alpha w)
    (m_TextureTitleBar_M w) (m_Borders w) b (panel w).
Definition set_panel (p : Panel) (w : ChildWindow) : ChildWindow :=
  mkChildWindow (m_Loaded w) (m_MouseDown w) (callbackID w) (m_Parent w)
    (position w) (m_Size w) (layout w) (distanceToSide w) (m_TitleBarHeight w)
    (m_DraggingPosition w) (m_Opacity w) (m_SpriteTitleBar_alpha w)
    (m_TextureTitleBar_M w) (m_Borders w) (m_CloseButton w) p.

(** [Panel::handleEvent], [Panel::mouseOnObject] and
    [EventManager::mouseNotOnObject] are defined outside src/: they read the
    window and act on its panel. *)
Variable Panel_handleEvent : EventType -> F -> F -> ChildWindow -> Panel.
Variable Panel_mouseOnObject : F -> F -> ChildWindow -> bool * Panel.
Variable EventManager_mouseNotOnObject : EM -> EM.

(** The window, the groups its back-reference can reach, and the calls made
    so far.  [window] is [None] once the object has been destroyed. *)
Record World := mkWorld {
  window : option ChildWindow;
  groups : gmap positive ParentGroup;
  calls : list Call
}.

Definition two : F := of_uint 2.

(** The title bar test of lines 362, 385, 422 and 476:
    [getTransform().transformRect(FloatRect(0, 0, getSize().x,
    m_TitleBarHeight)).contains(x, y)], for a window whose transform is the
    translation to its position. *)
Definition onTitleBar (w : ChildWindow) (x y : F) : bool :=
  FloatRect_contains (vx (position w)) (vy (position w))
                     (of_uint (m_Size w).1) (of_uint (m_TitleBarHeight w))
                     x y.

(** "Temporary set the close button to the correct position"
    (lines 365-368, 391-394, 425-428). *)
Definition placeCloseButton (w : ChildWindow) : ChildWindow :=
  let sx := vx (Button_getScaledSize (m_CloseButton w)) in
  let y := fsub (fadd (vy (position w))
                      (fdiv (of_uint (m_TitleBarHeight w)) two))
                (fdiv sx two) in
  match layout w with
  | LayoutRight =>
      set_CloseButton
        (Button_setPosition
           (fsub (fsub (fadd (vx (position w)) (of_uint (m_Size w).1))
                       (of_uint (distanceToSide w)))
                 sx)
           y (m_CloseButton w)) w
  | LayoutLeft =>
      set_CloseButton
        (Button_setPosition
           (fadd (vx (position w)) (of_uint (distanceToSide w)))
           y (m_CloseButton w)) w
  end.

(** "Reset the position of the button" (lines 375, 410, 456). *)
Definition resetCloseButton (w : ChildWindow) : ChildWindow :=
  set_CloseButton (Button_setPosition fzero fzero (m_CloseButton w)) w.

(** Modelled from the spec: [addCallback] is pure virtual in Group.hpp; a
    widget "posts a typed callback object to its parent container, which
    owns a queue".  [None] is a call through a pointer to no group. *)
Definition addCallback (parent : option positive) (c : Callback)
    (wld : World) : option World :=
  a ← parent;
  pg ← groups wld !! a;
  Some {| window := window wld;
          groups := <[a := mkParentGroup (pg_group pg) (pg_callbacks pg ++ [c])]>
                      (groups wld);
          calls := calls wld ++ [CallAddCallback a c] |}.

(** [removeAllObjects()] on the window itself (line 445). *)
Definition removeAllObjects (this : positive) (wld : World) : option World :=
  w ← window wld;
  Some {| window :=
            Some (set_panel (mkPanel (Group.removeAllObjects (children (panel w)))
                                     (em (panel w))) w);
          groups := groups wld;
          calls := calls wld ++ [CallRemoveAllObjects this] |}.

(** [m_Parent->remove(this)] (line 448): the parent drops the window from
    its children and destroys it, when it finds it there. *)
Definition parent_remove (parent : option positive) (this : positive)
    (wld : World) : option World :=
  a ← parent;
  pg ← groups wld !! a;
  Some {| window := if bool_decide (this ∈ Group.m_Objects (pg_group pg))
                    then None else window wld;
          groups := <[a := mkParentGroup (Group.remove this (pg_group pg))
                                         (pg_callbacks pg)]> (groups wld);
          calls := calls wld ++ [CallRemove a this] |}.

(** Line 464: "Let the child window handle the rest". *)
Definition fall_through (this : positive) (e : EventType) (mouseX mouseY : F)
    (w : ChildWindow) (wld : World) : option World :=
  Some {| window :=
            Some (set_panel
                    (Panel_handleEvent e mouseX
                       (fsub mouseY (of_uint (m_TitleBarHeight w))) w) w);
          groups := groups wld;
          calls := calls wld ++ [CallPanelHandleEvent this e] |}.

(** An early [return] that leaves the window in state [w]. *)
Definition finish (w : ChildWindow) (wld : World) : option World :=
  Some {| window := Some w; groups := groups wld; calls := calls wld |}.

(** [handleEvent] (lines 343-465), called on the window at address [this].
    [None] is undefined behaviour: a call on a destroyed window, or through
    a parent pointer that leads to no group. *)
Definition handleEvent (this : positive) (e : EventType) (mouseX mouseY : F)
    (wld : World) : option World :=
  w ← window wld;
  if negb (m_Loaded w) then Some wld
  else
    match e with
    | MouseMoved =>
        if m_MouseDown w
        then
          let position := position w in
          fall_through this e mouseX mouseY
            (setPosition
               (fadd (vx position)
                     (fsub (fsub mouseX (vx position)) (vx (m_DraggingPosition w))))
               (fadd (vy position)
                     (fsub (fsub mouseY (vy position)) (vy (m_DraggingPosition w))))
               w)
            wld
        else if onTitleBar w mouseX mouseY
        then
          let w1 := placeCloseButton w in
          let w2 := if Button_mouseOnObject mouseX mouseY (m_CloseButton w1)
                    then set_CloseButton (Button_mouseMoved (m_CloseButton w1)) w1
                    else w1 in
          finish (resetCloseButton w2) wld
        else fall_through this e mouseX mouseY w wld
    | MouseButtonPressed =>
        if onTitleBar w mouseX mouseY
        then
          let position := position w in
          let w1 := placeCloseButton w in
          let w2 := if Button_mouseOnObject mouseX mouseY (m_CloseButton w1)
                    then set_CloseButton
                           (Button_leftMousePressed (m_CloseButton w1)) w1
                    else set_DraggingPosition
                           (fsub mouseX (vx position))
                           (fsub mouseY (vy position))
                           (set_MouseDown true w1) in
          finish (resetCloseButton w2) wld
        else fall_through this e mouseX mouseY w wld
    | MouseButtonReleased =>
        let w0 := set_MouseDown false w in
        if onTitleBar w0 mouseX mouseY
        then
          let w1 := placeCloseButton w0 in
          if Button_mouseOnObject mouseX mouseY (m_CloseButton w1)
             && b_MouseDown (m_CloseButton w1)
          then
            wld0 ← finish w1 wld;
            wld1 ← (if (0 <? callbackID w1)%N
                    then addCallback (m_Parent w1) (mkCallback closed) wld0
                    else Some wld0);
            wld2 ← removeAllObjects this wld1;
            parent_remove (m_Parent w1) this wld2
          else finish (resetCloseButton w1) wld
        else fall_through this e mouseX mouseY w0 wld
    | OtherEvent => fall_through this e mouseX mouseY w wld
    end.

(** [setTitlebarHeight] (lines 290-301).  [None] is the dereference of a
    null texture. *)
Definition setTitlebarHeight (height : N) (w : ChildWindow)
  : option ChildWindow :=
  if negb (m_Loaded w) then Some w
  else
    tex ← m_TextureTitleBar_M w;
    let s := fdiv (of_uint height) (of_uint tex.2) in
    Some (set_CloseButton (Button_setScale s s (m_CloseButton w))
                          (set_TitleBarHeight height w)).

(** [setTransparency] (lines 312-332). *)
Definition setTransparency (transparency : N) (w : ChildWindow) : ChildWindow :=
  let w1 := set_Opacity transparency w in
  let w2 := set_SpriteTitleBar_alpha (m_Opacity w1) w1 in
  set_CloseButton (Button_setAlpha (m_Opacity w2) (m_CloseButton w2)) w2.

(** [setBorders] (lines 490-497). *)
Definition setBorders (leftBorder topBorder rightBorder bottomBorder : N)
    (w : ChildWindow) : ChildWindow :=
  set_Borders (leftBorder, topBorder, rightBorder, bottomBorder) w.

(** [mouseOnObject] (lines 469-486). *)
Definition mouseOnObject (x y : F) (w : ChildWindow) : bool * ChildWindow :=
  if negb (m_Loaded w) then (false, w)
  else if onTitleBar w x y
  then (true,
        set_panel (mkPanel (children (panel w))
                           (EventManager_mouseNotOnObject (em (panel w)))) w)
  else let '(b, p) := Panel_mouseOnObject x
                        (fsub y (of_uint (m_TitleBarHeight w))) w in
       (b, set_panel p w).

(** The part of the title bar the close button covers: where a press or a
    release is handed to the close button. *)
Definition onCloseButton (w : ChildWindow) (x y : F) : bool :=
  onTitleBar w x y &&
  Button_mouseOnObject x y (m_CloseButton (placeCloseButton w)).

(** A run of mouse-move events delivered to the window, in order. *)
Fixpoint handleMoves (this : positive) (moves : list (F * F)) (wld : World)
  : option World :=
  match moves with
  | [] => Some wld
  | (x, y) :: moves' =>
      wld' ← handleEvent this MouseMoved x y wld;
      handleMoves this moves' wld'
  end.

(** The hit regions of the title bar and of the close button depend on the
    geometry of the window only, not on the mouse-down flags nor on where
    the close button was left. *)
Definition same_geometry (w w' : ChildWindow) : Prop :=
  position w' = position w /\ m_Size w' = m_Size w /\
  layout w' = layout w /\ distanceToSide w' = distanceToSide w /\
  m_TitleBarHeight w' = m_TitleBarHeight w /\
  b_size (m_CloseButton w') = b_size (m_CloseButton w) /\
  b_scale (m_CloseButton w') = b_scale (m_CloseButton w).

End WithScalar.
Arguments Button F : clear implicits.
Arguments Panel EM : clear implicits.
Arguments ChildWindow F EM : clear implicits.
Arguments World F EM : clear implicits.
End ChildWindow.

(** ** What a group and the heap of its widgets keep true *)

Module GroupInvariant.
Import Group.

(** The two vectors are equally long, no widget is listed twice, and every
    listed widget is a live object. *)
Definition group_ok {St : Type} (g : Group) (h : gmap positive (OBJECT St))
  : Prop :=
  well_formed g /\
  NoDup (m_Objects g) /\
  forall p, p ∈ m_Objects g -> is_Some (h !! p).

(** What [get] answers once [(p, name)] has been pushed at the back of a
    group in which it answered [before]. *)
Definition get_after_push_back (before : option (option positive))
    (p : positive) (name objectName : string) : option (option positive) :=
  match before with
  | Some None => if String.eqb name objectName then Some (Some p) else Some None
  | found_or_undefined => found_or_undefined
  end.

(** The by-name [copy] expressed with [get] and the by-handle [copy]. *)
Definition copy_found {St : Type} (alloc : gmap positive (OBJECT St) -> positive)
    (T_copy : OBJECT St -> OBJECT St)
    (found : option (option positive)) (newObjectName : string) (g : Group)
    (h : gmap positive (OBJECT St))
  : option (option positive * Group * gmap positive (OBJECT St)) :=
  match found with
  | None => None
  | Some None => Some (None, g, h)
  | Some (Some p) =>
      '(newObject, g', h') ← copy alloc T_copy p newObjectName g h;
      Some (Some newObject, g', h')
  end.
End GroupInvariant.

(** ** Variations of a layout *)

Module LayoutVariations.
Import Layout.

(** The layout with every ratio multiplied by [k]. *)
Definition scale_ratios (k : Qc) (hl : HorizontalLayout Qc)
  : HorizontalLayout Qc :=
  {| m_size := m_size hl;
     m_layoutWidgets := m_layoutWidgets hl;
     m_widgetsRatio := map (Qcmult k) (m_widgetsRatio hl);
     m_widgetsFixedSizes := m_widgetsFixedSizes hl |}.

(** Two layouts that differ at most in where their widgets currently are. *)
Definition same_policy {F : Type} (hl1 hl2 : HorizontalLayout F) : Prop :=
  m_size hl1 = m_size hl2 /\
  length (m_layoutWidgets hl1) = length (m_layoutWidgets hl2) /\
  m_widgetsRatio hl1 = m_widgetsRatio hl2 /\
  m_widgetsFixedSizes hl1 = m_widgetsFixedSizes hl2.
End LayoutVariations.

(** ** What an event can and cannot change in a child window *)

Module ChildWindowFrame.
Import ChildWindow.
Section WithScalar.
Context {F : Type} `{Scalar F} {EM : Type}.

(** The fields no event handler writes. *)
Definition same_configuration (w w' : ChildWindow F EM) : Prop :=
  m_Loaded w' = m_Loaded w /\
  callbackID w' = callbackID w /\
  m_Parent w' = m_Parent w /\
  m_Size w' = m_Size w /\
  layout w' = layout w /\
  distanceToSide w' = distanceToSide w /\
  m_TitleBarHeight w' = m_TitleBarHeight w /\
  m_Opacity w' = m_Opacity w /\
  m_SpriteTitleBar_alpha w' = m_SpriteTitleBar_alpha w /\
  m_TextureTitleBar_M w' = m_TextureTitleBar_M w /\
  m_Borders w' = m_Borders w /\
  b_size (m_CloseButton w') = b_size (m_CloseButton w) /\
  b_scale (m_CloseButton w') = b_scale (m_CloseButton w) /\
  b_alpha (m_CloseButton w') = b_alpha (m_CloseButton w).

(** The one event that takes the closing path of [handleEvent]
    (lines 431-452): a release over the close button while the button's
    [m_MouseDown] is set. *)
Definition closes (w : ChildWindow F EM) (e : EventType) (x y : F) : bool :=
  match e with
  | MouseButtonReleased =>
      onCloseButton w x y && b_MouseDown (m_CloseButton w)
  | _ => false
  end.

(** A move while the title bar is held: the dragging branch
    (lines 353-358). *)
Definition drags (w : ChildWindow F EM) (e : EventType) : bool :=
  match e with
  | MouseMoved => m_MouseDown w
  | _ => false
  end.

(** Events the title bar keeps for itself (lines 362-379, 385-414,
    422-460): a move that is not a drag, a press or a release, over the
    title bar. *)
Definition kept_by_title_bar (w : ChildWindow F EM) (e : EventType)
    (x y : F) : bool :=
  match e with
  | MouseMoved => negb (m_MouseDown w) && onTitleBar w x y
  | MouseButtonPressed | MouseButtonReleased => onTitleBar w x y
  | OtherEvent => false
  end.

(** Everything the hit regions depend on, the position apart. *)
Definition same_geometry_but_position (w w' : ChildWindow F EM) : Prop :=
  m_Size w' = m_Size w /\
  layout w' = layout w /\
  distanceToSide w' = distanceToSide w /\
  m_TitleBarHeight w' = m_TitleBarHeight w.

(** The window after an event that [handleEvent] hands on to the panel
    (line 464), when it found the window in state [w0]. *)
Definition forwarded
    (Panel_handleEvent : EventType -> F -> F -> ChildWindow F EM -> Panel EM)
    (e : EventType) (x y : F) (w0 : ChildWindow F EM) : ChildWindow F EM :=
  set_panel (Panel_handleEvent e x (fsub y (of_uint (m_TitleBarHeight w0))) w0)
            w0.

(** A run of events delivered to the window, in order. *)
Fixpoint handleEvents
    (Panel_handleEvent : EventType -> F -> F -> ChildWindow F EM -> Panel EM)
    (this : positive) (events : list (EventType * F * F)) (wld : World F EM)
  : option (World F EM) :=
  match events with
  | [] => Some wld
  | (e, x, y) :: events' =>
      wld' ← handleEvent Panel_handleEvent this e x y wld;
      handleEvents Panel_handleEvent this events' wld'
  end.
End WithScalar.
End ChildWindowFrame.

(** ** ChildWindow::load *)

Module ChildWindowLoad.
Import Stdlib.Strings.Ascii.
Import ChildWindow.

Section WithScalar.
Context {F : Type} `{Scalar F} {EM : Type}.
(** [sf::Color]. *)
Context {Color : Type}.

(** The members [load] writes besides those of the window record: the path
    names, the split flag, the background colour, texture and sprite scale,
    and the two outer title bar textures.  A texture pointer is the size of
    its texture, [None] when it is [NULL]. *)
Record Skin := mkSkin {
  m_LoadedPathname : string;
  m_LoadedBackgroundImageFilename : string;
  m_SplitImage : bool;
  backgroundColor : Color;
  m_Texture : option (N * N);
  m_Sprite_scale : Vector2 F;
  m_TextureTitleBar_L : option (N * N);
  m_TextureTitleBar_R : option (N * N)
}.

Definition set_LoadedPathname (v : string) (s : Skin) : Skin :=
  mkSkin v (m_LoadedBackgroundImageFilename s) (m_SplitImage s)
         (backgroundColor s) (m_Texture s) (m_Sprite_scale s)
         (m_TextureTitleBar_L s) (m_TextureTitleBar_R s).
Definition set_LoadedBackgroundImageFilename (v : string) (s : Skin) : Skin :=
  mkSkin (m_LoadedPathname s) v (m_SplitImage s)
         (backgroundColor s) (m_Texture s) (m_Sprite_scale s)
         (m_TextureTitleBar_L s) (m_TextureTitleBar_R s).
Definition set_SplitImage (v : bool) (s : Skin) : Skin :=
  mkSkin (m_LoadedPathname s) (m_LoadedBackgroundImageFilename s) v
         (backgroundColor s) (m_Texture s) (m_Sprite_scale s)
         (m_TextureTitleBar_L s) (m_TextureTitleBar_R s).
Definition set_backgroundColor (v : Color) (s : Skin) : Skin :=
  mkSkin (m_LoadedPathname s) (m_LoadedBackgroundImageFilename s)
         (m_SplitImage s) v (m_Texture s) (m_Sprite_scale s)
         (m_TextureTitleBar_L s) (m_TextureTitleBar_R s).
Definition set_Texture (v : option (N * N)) (s : Skin) : Skin :=
  mkSkin (m_LoadedPathname s) (m_LoadedBackgroundImageFilename s)
         (m_SplitImage s) (backgroundColor s) v (m_Sprite_scale s)
         (m_TextureTitleBar_L s) (m_TextureTitleBar_R s).
Definition set_Sprite_scale (v : Vector2 F) (s : Skin) : Skin :=
  mkSkin (m_LoadedPathname s) (m_LoadedBackgroundImageFilename s)
         (m_SplitImage s) (backgroundColor s) (m_Texture s) v
         (m_TextureTitleBar_L s) (m_TextureTitleBar_R s).
Definition set_TextureTitleBar_L (v : option (N * N)) (s : Skin) : Skin :=
  mkSkin (m_LoadedPathname s) (m_LoadedBackgroundImageFilename s)
         (m_SplitImage s) (backgroundColor s) (m_Texture s) (m_Sprite_scale s)
         v (m_TextureTitleBar_R s).
Definition set_TextureTitleBar_R (v : option (N * N)) (s : Skin) : Skin :=
  mkSkin (m_LoadedPathname s) (m_LoadedBackgroundImageFilename s)
         (m_SplitImage s) (backgroundColor s) (m_Texture s) (m_Sprite_scale s)
         (m_TextureTitleBar_L s) v.

(** Setters of window fields that only [load] writes. *)
Definition set_Loaded (v : bool) (w : ChildWindow F EM) : ChildWindow F EM :=
  mkChildWindow v (m_MouseDown w) (callbackID w) (m_Parent w) (position w)
    (m_Size w) (layout w) (distanceToSide w) (m_TitleBarHeight w)
    (m_DraggingPosition w) (m_Opacity w) (m_SpriteTitleBar_alpha w)
    (m_TextureTitleBar_M w) (m_Borders w) (m_CloseButton w) (panel w).
Definition set_Size (v : N * N) (w : ChildWindow F EM) : ChildWindow F EM :=
  mkChildWindow (m_Loaded w) (m_MouseDown w) (callbackID w) (m_Parent w)
    (position w) v (layout w) (distanceToSide w) (m_TitleBarHeight w)
    (m_DraggingPosition w) (m_Opacity w) (m_SpriteTitleBar_alpha w)
    (m_TextureTitleBar_M w) (m_Borders w) (m_CloseButton w) (panel w).
Definition set_layout (v : Layout) (w : ChildWindow F EM) : ChildWindow F EM :=
  mkChildWindow (m_Loaded w) (m_MouseDown w) (callbackID w) (m_Parent w)
    (position w) (m_Size w) v (distanceToSide w) (m_TitleBarHeight w)
    (m_DraggingPosition w) (m_Opacity w) (m_SpriteTitleBar_alpha w)
    (m_TextureTitleBar_M w) (m_Borders w) (m_CloseButton w) (panel w).
Definition set_distanceToSide (v : N) (w : ChildWindow F EM)
  : ChildWindow F EM :=
  mkChildWindow (m_Loaded w) (m_MouseDown w) (callbackID w) (m_Parent w)
    (position w) (m_Size w) (layout w) v (m_TitleBarHeight w)
    (m_DraggingPosition w) (m_Opacity w) (m_SpriteTitleBar_alpha w)
    (m_TextureTitleBar_M w) (m_Borders w) (m_CloseButton w) (panel w).
Definition set_TextureTitleBar_M (v : option (N * N)) (w : ChildWindow F EM)
  : ChildWindow F EM :=
  mkChildWindow (m_Loaded w) (m_MouseDown w) (callbackID w) (m_Parent w)
    (position w) (m_Size w) (layout w) (distanceToSide w) (m_TitleBarHeight w)
    (m_DraggingPosition w) (m_Opacity w) (m_SpriteTitleBar_alpha w)
    v (m_Borders w) (m_CloseButton w) (panel w).

(** The collaborators of [load], all defined outside src/:
    - [InfoFileParser]: [openFile] gives the (property, value) pairs that
      [readProperty] will yield, in order, or fails;
    - [TGUI_TextureManager.getTexture(filename, texture)] answers whether
      it succeeded and what it left in the pointer it was given;
      [removeTexture(texture)] likewise leaves something in the pointer;
    - [extractVector4u], [atoi], and [Button::load]. *)
Variable openFile : string -> option (list (string * string)).
Variable getTexture : string -> option (N * N) -> bool * option (N * N).
Variable removeTexture : option (N * N) -> option (N * N).
Variable extractVector4u : string -> option (N * N * N * N).
Variable atoi : string -> Z.
Variable Button_load : string -> Button F -> bool * Button F.

(** The state of [load] while it runs: the window, the other members, and
    the local [imageExtension]. *)
Record Loading := mkLoading {
  lwindow : ChildWindow F EM;
  lskin : Skin;
  imageExtension : string
}.

(** How the property loop is left. *)
Inductive LoopExit :=
| EndOfFile (st : Loading)        (* readProperty returned false *)
| ReturnedFalse (st : Loading).   (* line 226: the texture was not loaded *)

Definition quote : Ascii.ascii := "034"%char.

(** [if (texture != NULL) removeTexture(texture)] (lines 248-250). *)
Definition removeIfLoaded (t : option (N * N)) : option (N * N) :=
  match t with
  | Some _ => removeTexture t
  | None => t
  end.

(** The conversion of the [int] that [atoi] returns to [unsigned int]. *)
Definition to_unsigned (z : Z) : N := Z.to_N (z mod 2 ^ 32).

(** The "backgroundimage" branch (lines 197-230).  The outer [None] is the
    dereference of a null texture after [getTexture] said it succeeded. *)
Definition backgroundimage (width height : N) (value : string) (st : Loading)
  : option LoopExit :=
  if (1 <? String.length value)%nat
  then
    if bool_decide (String.get 0 value = Some quote)
       && bool_decide (String.get (String.length value - 1) value = Some quote)
    then
      let value := String.substring 1 (String.length value - 2) value in
      let sk := set_LoadedBackgroundImageFilename value (lskin st) in
      if negb (String.eqb value "")
      then
        let '(ok, t) := getTexture (String.append (m_LoadedPathname sk) value)
                                   (m_Texture sk) in
        let sk := set_Texture t sk in
        if ok
        then
          size ← t;
          Some (EndOfFile
                  (mkLoading (lwindow st)
                     (set_Sprite_scale
                        (mkVector2 (fdiv (of_uint width) (of_uint size.1))
                                   (fdiv (of_uint height) (of_uint size.2)))
                        sk)
                     (imageExtension st)))
        else Some (ReturnedFalse (mkLoading (lwindow st) sk (imageExtension st)))
      else Some (EndOfFile (mkLoading (lwindow st) sk (imageExtension st)))
    else Some (EndOfFile st)
  else Some (EndOfFile st).

(** One turn of the loop (lines 172-241).  [extractPhases] writes members
    that are not part of this model. *)
Definition readProperty (width height : N) (property value : string)
    (st : Loading) : option LoopExit :=
  if String.eqb property "splitimage" then
    if String.eqb value "true"
    then Some (EndOfFile (mkLoading (lwindow st) (set_SplitImage true (lskin st))
                                   (imageExtension st)))
    else if String.eqb value "false"
    then Some (EndOfFile (mkLoading (lwindow st) (set_SplitImage false (lskin st))
                                   (imageExtension st)))
    else Some (EndOfFile st)
  else if String.eqb property "phases" then Some (EndOfFile st)
  else if String.eqb property "extension"
  then Some (EndOfFile (mkLoading (lwindow st) (lskin st) value))
  else if String.eqb property "borders" then
    match extractVector4u value with
    | Some (x1, x2, x3, x4) =>
        Some (EndOfFile (mkLoading (setBorders x1 x2 x3 x4 (lwindow st))
                                   (lskin st) (imageExtension st)))
    | None => Some (EndOfFile st)
    end
  else if String.eqb property "backgroundimage"
  then backgroundimage width height value st
  else if String.eqb property "layout" then
    if String.eqb value "left"
    then Some (EndOfFile (mkLoading (set_layout LayoutLeft (lwindow st))
                                   (lskin st) (imageExtension st)))
    else if String.eqb value "right"
    then Some (EndOfFile (mkLoading (set_layout LayoutRight (lwindow st))
                                   (lskin st) (imageExtension st)))
    else Some (EndOfFile st)
  else if String.eqb property "distancetoside"
  then Some (EndOfFile
               (mkLoading (set_distanceToSide (to_unsigned (atoi value))
                                              (lwindow st))
                          (lskin st) (imageExtension st)))
  else Some (EndOfFile st).

(** The loop over the info file (lines 170-242). *)
Fixpoint readProperties (width height : N) (properties : list (string * string))
    (st : Loading) : option LoopExit :=
  match properties with
  | [] => Some (EndOfFile st)
  | (property, value) :: properties' =>
      r ← readProperty width height property value st;
      match r with
      | EndOfFile st' => readProperties width height properties' st'
      | ReturnedFalse st' => Some (ReturnedFalse st')
      end
  end.

(** [load] (lines 128-279): the value returned with the window and the
    other members as they are left.  [None] is undefined behaviour. *)
Definition load (width height : N) (bkgColor : Color) (pathname : string)
    (w : ChildWindow F EM) (sk : Skin)
  : option (bool * ChildWindow F EM * Skin) :=
  let w := set_Loaded false w in
  if String.eqb pathname "" then Some (false, w, sk)
  else
    let sk := set_backgroundColor bkgColor sk in
    let sk := set_LoadedPathname pathname sk in
    let sk := set_LoadedBackgroundImageFilename "" sk in
    let w := set_Size (width, height) w in
    let sk :=
      if bool_decide
           (String.get (String.length (m_LoadedPathname sk) - 1)
                       (m_LoadedPathname sk) <> Some "/"%char)
      then set_LoadedPathname (String.append (m_LoadedPathname sk) "/") sk
      else sk in
    match openFile (String.append (m_LoadedPathname sk) "info.txt") with
    | None => Some (false, w, sk)
    | Some properties =>
        let sk := set_SplitImage false sk in
        let w := set_distanceToSide 5 (set_layout LayoutRight w) in
        r ← readProperties width height properties (mkLoading w sk "png");
        match r with
        | ReturnedFalse st => Some (false, lwindow st, lskin st)
        | EndOfFile st =>
            let w := lwindow st in
            let sk := lskin st in
            let sk := set_TextureTitleBar_L
                        (removeIfLoaded (m_TextureTitleBar_L sk)) sk in
            let w := set_TextureTitleBar_M
                       (removeIfLoaded (m_TextureTitleBar_M w)) w in
            let sk := set_TextureTitleBar_R
                        (removeIfLoaded (m_TextureTitleBar_R sk)) sk in
            if m_SplitImage sk then Some (false, w, sk)
            else
              let '(ok, t) :=
                getTexture
                  (String.append
                     (String.append (m_LoadedPathname sk) "TitleBar.")
                     (imageExtension st))
                  (m_TextureTitleBar_M w) in
              let w := set_TextureTitleBar_M t w in
              if ok
              then
                size ← t;
                let w := set_TitleBarHeight size.2 w in
                let '(ok, b) :=
                  Button_load (String.append (m_LoadedPathname sk) "/Close")
                              (m_CloseButton w) in
                let w := set_CloseButton b w in
                if ok then Some (true, set_Loaded true w, sk)
                else Some (false, w, sk)
              else Some (false, w, sk)
        end
    end.

(** The state a loop exit carries. *)
Definition exit_state (r : LoopExit) : Loading :=
  match r with EndOfFile st | ReturnedFalse st => st end.

(** The path name with the slash [load] appends when it is missing
    (lines 149-150). *)
Definition directory (pathname : string) : string :=
  if bool_decide (String.get (String.length pathname - 1) pathname
                  <> Some "/"%char)
  then String.append pathname "/"
  else pathname.

(** The members of the window that the property loop does not write. *)
Definition outside_the_loop (w : ChildWindow F EM) :=
  (m_Loaded w, m_MouseDown w, callbackID w, m_Parent w, position w,
   m_Size w, m_TitleBarHeight w, m_DraggingPosition w, m_Opacity w,
   m_SpriteTitleBar_alpha w, m_TextureTitleBar_M w, m_CloseButton w,
   panel w).

(** The members of the window that [load] does not write at all. *)
Definition outside_load (w : ChildWindow F EM) :=
  (m_MouseDown w, callbackID w, m_Parent w, position w,
   m_DraggingPosition w, m_Opacity w, panel w).
End WithScalar.
Arguments Skin F Color : clear implicits.
End ChildWindowLoad.

(** ** Copying, assigning and destroying child windows *)

Module ChildWindowOwnership.
Section WithScalar.
Context {F : Type}.
(** The [Panel] and [OBJECT_BORDERS] subobjects of a window, [sf::Color],
    [sf::Sprite], what a [sf::Texture*] points to, and the state of
    [TGUI_TextureManager]. *)
Context {Bases Color Sprite Texture Manager : Type}.

(** The members that ChildWindow.cpp initialises, copies and swaps.  The
    close button is held by address: the object it points to lives in the
    store of buttons below.  A texture pointer is [None] when it is
    [NULL]. *)
Record Members := mkMembers {
  layout : ChildWindow.Layout;
  distanceToSide : N;
  borderColor : Color;
  title : string;
  m_TitleBarHeight : N;
  m_LoadedPathname : string;
  m_SplitImage : bool;
  m_DraggingPosition : Vector2 F;
  m_Opacity : N;
  m_TextureTitleBar_L : option Texture;
  m_TextureTitleBar_M : option Texture;
  m_TextureTitleBar_R : option Texture;
  m_SpriteTitleBar_L : Sprite;
  m_SpriteTitleBar_M : Sprite;
  m_SpriteTitleBar_R : Sprite;
  m_CloseButton : positive
}.

Record Object := mkObject { bases : Bases; members : Members }.

(** The window objects, the buttons allocated with [new], and the texture
    manager. *)
Record Store := mkStore {
  objects : gmap positive Object;
  buttons : gmap positive (ChildWindow.Button F);
  manager : Manager
}.

(** Code outside src/:
    - the copy constructors and the assignment operators of [Panel] and
      [OBJECT_BORDERS];
    - a default-constructed [sf::Sprite] and [sf::Sprite::setTexture];
    - [TGUI_TextureManager.copyTexture(from, to)], which answers whether it
      succeeded and what it left in the pointer [to], and
      [removeTexture(texture)];
    - the copy constructor of [tgui::Button];
    - [new], which picks the address of the button it allocates, and the
      address at which a window object is created. *)
Variable Bases_copy : Bases -> Bases.
Variable Bases_assign : Bases -> Bases -> Bases.
Variable Sprite_new : Sprite.
Variable Sprite_setTexture : Texture -> Sprite -> Sprite.
Variable copyTexture : option Texture -> Manager -> bool * option Texture * Manager.
Variable removeTexture : Texture -> Manager -> Manager.
Variable Button_copy : ChildWindow.Button F -> ChildWindow.Button F.
Variable new_button : gmap positive (ChildWindow.Button F) -> positive.
Variable new_object : gmap positive Object -> positive.

(** One of the lines 65-67:
    [if (copyTexture(from, to)) sprite.setTexture( *to)].  [None] is the
    dereference of a null [to]. *)
Definition copyTitleBarTexture (from : option Texture) (m : Manager)
  : option (option Texture * Sprite * Manager) :=
  let '(ok, to, m') := copyTexture from m in
  if ok
  then texture ← to; Some (to, Sprite_setTexture texture Sprite_new, m')
  else Some (to, Sprite_new, m').

(** The copy constructor (lines 51-71) run at address [this].  [None] is
    undefined behaviour: a source that is no live window, or whose close
    button is no live button. *)
Definition copy_construct (this childWindowToCopy : positive) (st : Store)
  : option Store :=
  from ← objects st !! childWindowToCopy;
  let c := members from in
  '(tL, sL, m1) ← copyTitleBarTexture (m_TextureTitleBar_L c) (manager st);
  '(tM, sM, m2) ← copyTitleBarTexture (m_TextureTitleBar_M c) m1;
  '(tR, sR, m3) ← copyTitleBarTexture (m_TextureTitleBar_R c) m2;
  b ← buttons st !! m_CloseButton c;
  let p := new_button (buttons st) in
  Some (mkStore
          (<[this := mkObject (Bases_copy (bases from))
                       (mkMembers (layout c) (distanceToSide c) (borderColor c)
                          (title c) (m_TitleBarHeight c) (m_LoadedPathname c)
                          (m_SplitImage c) (m_DraggingPosition c) (m_Opacity c)
                          tL tM tR sL sM sR p)]> (objects st))
          (<[p := Button_copy b]> (buttons st))
          m3).

(** [if (texture != NULL) removeTexture(texture)] (lines 77-79). *)
Definition removeIfLoaded (t : option Texture) (m : Manager) : Manager :=
  match t with
  | Some texture => removeTexture texture m
  | None => m
  end.

(** The destructor (lines 75-82) of the window at address [this], which
    then ceases to exist.  [None] is undefined behaviour: no live window at
    [this], or the [delete] of a button that is not live. *)
Definition destroy (this : positive) (st : Store) : option Store :=
  o ← objects st !! this;
  let c := members o in
  let m := removeIfLoaded (m_TextureTitleBar_L c) (manager st) in
  let m := removeIfLoaded (m_TextureTitleBar_M c) m in
  let m := removeIfLoaded (m_TextureTitleBar_R c) m in
  _ ← buttons st !! m_CloseButton c;
  Some (mkStore (delete this (objects st))
                (delete (m_CloseButton c) (buttons st))
                m).

(** [clone] (lines 86-89): the address of the new window and the store. *)
Definition clone (this : positive) (st : Store) : option (positive * Store) :=
  let q := new_object (objects st) in
  st' ← copy_construct q this st;
  Some (q, st').

(** [operator=] (lines 93-124) of the window at [this].  [temp] lives at an
    address of its own until the block ends (line 121), where its
    destructor runs.  Lines 105-120 swap each member of [this] with the
    same member of [temp]. *)
Definition operator_assign (this right : positive) (st : Store)
  : option Store :=
  if decide (this = right) then Some st
  else
    let temp := new_object (objects st) in
    st ← copy_construct temp right st;
    o ← objects st !! this;
    r ← objects st !! right;
    let o := mkObject (Bases_assign (bases o) (bases r)) (members o) in
    _ ← buttons st !! m_CloseButton (members o);
    let bs := delete (m_CloseButton (members o)) (buttons st) in
    t ← objects st !! temp;
    let this' := mkObject (bases o) (members t) in
    let temp' := mkObject (bases t) (members o) in
    destroy temp
      (mkStore (<[temp := temp']> (<[this := this']> (objects st)))
               bs (manager st)).

(** Every live window holds a live close button, and no two windows hold
    the same one. *)
Definition owns_its_button (st : Store) : Prop :=
  (forall a o, objects st !! a = Some o ->
               is_Some (buttons st !! m_CloseButton (members o))) /\
  (forall a a' o o', a <> a' ->
                     objects st !! a = Some o -> objects st !! a' = Some o' ->
                     m_CloseButton (members o) <> m_CloseButton (members o')).

(** The members the copy constructor copies by value (lines 54-62). *)
Definition copied_by_value (c : Members) :=
  (layout c, distanceToSide c, borderColor c, title c, m_TitleBarHeight c,
   m_LoadedPathname c, m_SplitImage c, m_DraggingPosition c, m_Opacity c).
End WithScalar.
Arguments Members F Color Sprite Texture : clear implicits.
Arguments Object F Bases Color Sprite Texture : clear implicits.
Arguments Store F Bases Color Sprite Texture Manager : clear implicits.
End ChildWindowOwnership.

(** Concrete layouts. *)
Module LayoutExamples.
Import Layout.

Definition mixed_layout : HorizontalLayout Qc :=
  mkLayout (mkVector2 (Q2Qc 300) (Q2Qc 50))
           [mkWidget (mkVector2 0%Qc 0%Qc) (mkVector2 0%Qc 0%Qc);
            mkWidget (mkVector2 0%Qc 0%Qc) (mkVector2 0%Qc 0%Qc);
            mkWidget (mkVector2 0%Qc 0%Qc) (mkVector2 0%Qc 0%Qc)]
           [Q2Qc 1; Q2Qc 1; Q2Qc 2]
           [Q2Qc 0; Q2Qc 60; Q2Qc 0].

(** Two ratio-sized children whose ratios are both zero, in a 300 x 50 box. *)
Definition zero_ratio_layout : HorizontalLayout Binary32.float :=
  mkLayout (mkVector2 (Binary32.of_Z 300) (Binary32.of_Z 50))
           [mkWidget (mkVector2 fzero fzero) (mkVector2 fzero fzero);
            mkWidget (mkVector2 fzero fzero) (mkVector2 fzero fzero)]
           [Binary32.of_Z 0; Binary32.of_Z 0]
           [Binary32.of_Z 0; Binary32.of_Z 0].

(** The same three children in single precision. *)
Definition mixed_layout32 : HorizontalLayout Binary32.float :=
  mkLayout (mkVector2 (Binary32.of_Z 300) (Binary32.of_Z 50))
           [mkWidget (mkVector2 fzero fzero) (mkVector2 fzero fzero);
            mkWidget (mkVector2 fzero fzero) (mkVector2 fzero fzero);
            mkWidget (mkVector2 fzero fzero) (mkVector2 fzero fzero)]
           [Binary32.of_Z 1; Binary32.of_Z 1; Binary32.of_Z 2]
           [Binary32.of_Z 0; Binary32.of_Z 60; Binary32.of_Z 0].

(** The scenario of the specification: extent 300, ratios 1 and 2, no fixed
    sizes. *)
Definition scenario_layout {F : Type} `{Scalar F} : HorizontalLayout F :=
  mkLayout (mkVector2 (of_uint 300) (of_uint 50))
           [mkWidget (mkVector2 fzero fzero) (mkVector2 fzero fzero);
            mkWidget (mkVector2 fzero fzero) (mkVector2 fzero fzero)]
           [of_uint 1; of_uint 2]
           [fzero; fzero].

(** Three ratio-sized children with equal ratios in a box 100 wide. *)
Definition thirds_layout32 : HorizontalLayout Binary32.float :=
  mkLayout (mkVector2 (Binary32.of_Z 100) (Binary32.of_Z 50))
           [mkWidget (mkVector2 fzero fzero) (mkVector2 fzero fzero);
            mkWidget (mkVector2 fzero fzero) (mkVector2 fzero fzero);
            mkWidget (mkVector2 fzero fzero) (mkVector2 fzero fzero)]
           [Binary32.of_Z 1; Binary32.of_Z 1; Binary32.of_Z 1]
           [Binary32.of_Z 0; Binary32.of_Z 0; Binary32.of_Z 0].

(** Two ratio-sized children, ratios 3 and 1, in a box [2^127] wide. *)
Definition huge_layout32 : HorizontalLayout Binary32.float :=
  mkLayout (mkVector2 (Binary32.of_Z (2 ^ 127)) (Binary32.of_Z 50))
           [mkWidget (mkVector2 fzero fzero) (mkVector2 fzero fzero);
            mkWidget (mkVector2 fzero fzero) (mkVector2 fzero fzero)]
           [Binary32.of_Z 3; Binary32.of_Z 1]
           [Binary32.of_Z 0; Binary32.of_Z 0].

(** Two ratio-sized children whose ratios [2^24] and [-(2^24 - 1)] add up
    to 1, in a box 300 wide. *)
Definition cancelling_layout32 : HorizontalLayout Binary32.float :=
  mkLayout (mkVector2 (Binary32.of_Z 300) (Binary32.of_Z 50))
           [mkWidget (mkVector2 fzero fzero) (mkVector2 fzero fzero);
            mkWidget (mkVector2 fzero fzero) (mkVector2 fzero fzero)]
           [Binary32.of_Z (2 ^ 24); Binary32.of_Z (- (2 ^ 24 - 1))]
           [Binary32.of_Z 0; Binary32.of_Z 0].

End LayoutExamples.

(** Concrete groups and a concrete allocator. *)
Module GroupExamples.
Import Group.

(** One child, added with the default (empty) name. *)
Definition unnamed_group : Group :=
  {| m_ObjName := [""%string]; m_Objects := [7%positive] |}.

Definition three_children : Group :=
  {| m_ObjName := ["ok"%string; ""%string; "ok"%string];
     m_Objects := [3%positive; 5%positive; 8%positive] |}.

(** An allocator that hands out the least address not in use. *)
Definition first_free {St : Type} (h : gmap positive (OBJECT St)) : positive :=
  fresh (dom h).

(** A widget class whose state is a label, and whose [initialize] records
    the parent it sees. *)
Definition label_new : OBJECT string := mkOBJECT None "new"%string.
Definition label_initialize (o : OBJECT string) : OBJECT string :=
  mkOBJECT (m_Parent o)
           (match m_Parent o with
            | Some _ => "initialized with a parent"%string
            | None => "initialized without parent"%string
            end).

(** A copy constructor that copies the back-reference and marks the state
    as a copy. *)
Definition label_copy (o : OBJECT string) : OBJECT string :=
  mkOBJECT (m_Parent o) (String.append "copy of " (state o)).

(** A widget that lives in the group at address 2. *)
Definition foreign_heap : gmap positive (OBJECT string) :=
  {[ 4%positive := mkOBJECT (Some 2%positive) "picture"%string ]}.
End GroupExamples.

(** Concrete child windows. *)
Module ChildWindowExamples.
Import ChildWindow.
Section WithScalar.
Context {F : Type} `{Scalar F}.

Definition zero2 : Vector2 F := mkVector2 fzero fzero.
Definition one2 : Vector2 F := mkVector2 (of_uint 1) (of_uint 1).

(** A panel without children, and hooks that leave it alone. *)
Definition empty_panel : Panel unit := mkPanel (Group.mkGroup [] []) tt.
Definition idle_handleEvent (e : EventType) (x y : F)
    (w : ChildWindow F unit) : Panel unit := panel w.
Definition idle_mouseOnObject (x y : F) (w : ChildWindow F unit)
  : bool * Panel unit := (false, panel w).

(** A window that is not loaded: the fields are as the constructor leaves
    them (lines 36-47: opacity 255, close button on the right, 5 pixels from
    the side), and the loaded flag is false, as [load] leaves it when it
    fails (lines 131-135). *)
Definition new_window : ChildWindow F unit :=
  mkChildWindow false false 0 None zero2 (0%N, 0%N) LayoutRight 5 0 zero2
                255 255 None (0%N, 0%N, 0%N, 0%N)
                (mkButton zero2 zero2 one2 false false 255)
                empty_panel.

(** A loaded 200 x 100 window at (10, 10) with a title bar of height 20 and
    a 12 x 12 close button; it is the child at address 2 of the group at
    address 1 and asks for callbacks when [callbackID] is not 0. *)
Definition demo_window (callbackID : N) : ChildWindow F unit :=
  mkChildWindow true false callbackID (Some 1%positive)
                (mkVector2 (of_uint 10) (of_uint 10)) (200%N, 100%N)
                LayoutRight 5 20 zero2
                255 255 (Some (200%N, 20%N)) (0%N, 0%N, 0%N, 0%N)
                (mkButton zero2 (mkVector2 (of_uint 12) (of_uint 12)) one2
                          false false 255)
                (mkPanel (Group.mkGroup ["inner"%string] [9%positive]) tt).

Definition demo_parent : ParentGroup :=
  mkParentGroup
    (Group.mkGroup ["first"%string; "window"%string; "last"%string]
                   [4%positive; 2%positive; 6%positive])
    [].

Definition demo_world (callbackID : N) : World F unit :=
  mkWorld (Some (demo_window callbackID)) {[ 1%positive := demo_parent ]} [].
End WithScalar.

(** The window of [demo_window] far from the origin, at (2^25, 10), where
    single precision numbers are 4 apart. *)
Definition far_window : ChildWindow Binary32.float unit :=
  setPosition (Binary32.of_Z (2 ^ 25)) (Binary32.of_Z 10) (demo_window 0).
End ChildWindowExamples.

(** More concrete inputs. *)
Module MoreExamples.
Import Stdlib.Strings.Ascii.

(** The three children of [GroupExamples.three_children], alive. *)
Definition three_heap : gmap positive (Group.OBJECT string) :=
  {[ 3%positive := Group.mkOBJECT (Some 1%positive) "first"%string;
     5%positive := Group.mkOBJECT (Some 1%positive) "second"%string;
     8%positive := Group.mkOBJECT (Some 1%positive) "third"%string ]}.

(** The layout of [LayoutExamples.mixed_layout32] after its widgets were
    moved about by hand. *)
Definition moved_layout32 : Layout.HorizontalLayout Binary32.float :=
  Layout.mkLayout
    (mkVector2 (Binary32.of_Z 300) (Binary32.of_Z 50))
    [Layout.mkWidget (mkVector2 (Binary32.of_Z 7) (Binary32.of_Z 7))
                     (mkVector2 (Binary32.of_Z 1) (Binary32.of_Z 1));
     Layout.mkWidget (mkVector2 (Binary32.of_Z 9) (Binary32.of_Z 9))
                     (mkVector2 (Binary32.of_Z 2) (Binary32.of_Z 2));
     Layout.mkWidget (mkVector2 fzero fzero) (mkVector2 fzero fzero)]
    [Binary32.of_Z 1; Binary32.of_Z 1; Binary32.of_Z 2]
    [Binary32.of_Z 0; Binary32.of_Z 60; Binary32.of_Z 0].

(** A box 100 wide with a fixed child of 160 and a ratio-sized child. *)
Definition overfull_layout : Layout.HorizontalLayout Qc :=
  Layout.mkLayout
    (mkVector2 (Q2Qc 100) (Q2Qc 50))
    [Layout.mkWidget (mkVector2 0%Qc 0%Qc) (mkVector2 0%Qc 0%Qc);
     Layout.mkWidget (mkVector2 0%Qc 0%Qc) (mkVector2 0%Qc 0%Qc)]
    [Q2Qc 1; Q2Qc 1]
    [Q2Qc 0; Q2Qc 160].

(** Two widgets and two ratios, but one fixed size only. *)
Definition short_layout : Layout.HorizontalLayout Binary32.float :=
  Layout.mkLayout
    (mkVector2 (Binary32.of_Z 300) (Binary32.of_Z 50))
    [Layout.mkWidget (mkVector2 fzero fzero) (mkVector2 fzero fzero);
     Layout.mkWidget (mkVector2 fzero fzero) (mkVector2 fzero fzero)]
    [Binary32.of_Z 1; Binary32.of_Z 1]
    [Binary32.of_Z 0].

(** A loaded window 200 wide without a title bar. *)
Definition bare_window : ChildWindow.ChildWindow Qc unit :=
  ChildWindow.mkChildWindow true false 0 (Some 1%positive)
    (mkVector2 (of_uint 10) (of_uint 10)) (200%N, 100%N)
    ChildWindow.LayoutRight 5 0 ChildWindowExamples.zero2
    255 255 (Some (200%N, 20%N)) (0%N, 0%N, 0%N, 0%N)
    (ChildWindow.mkButton ChildWindowExamples.zero2
       (mkVector2 (of_uint 12) (of_uint 12)) ChildWindowExamples.one2
       false false 255)
    ChildWindowExamples.empty_panel.

(** A skin directory "Black" whose info file names the image extension,
    the side of the close button and its distance to the side, and whose
    title bar image is 64 x 25. *)
Definition black_openFile (filename : string)
  : option (list (string * string)) :=
  if String.eqb filename "Black/info.txt"
  then Some [("extension", "jpg"); ("splitimage", "false");
             ("distancetoside", "8")]%string
  else None.
Definition black_getTexture (filename : string) (texture : option (N * N))
  : bool * option (N * N) :=
  if String.eqb filename "Black/TitleBar.jpg"
  then (true, Some (64%N, 25%N))
  else (false, texture).
Definition black_removeTexture (texture : option (N * N)) : option (N * N) :=
  None.
Definition black_extractVector4u (s : string) : option (N * N * N * N) :=
  None.
(** Enough of [atoi] for one decimal digit. *)
Definition digit_atoi (s : string) : Z :=
  match s with
  | String c EmptyString => Z.of_N (N_of_ascii c) - 48
  | _ => 0
  end.
Definition black_Button_load {F : Type} (filename : string)
    (b : ChildWindow.Button F) : bool * ChildWindow.Button F :=
  (String.eqb filename "Black//Close", b).

(** The other members of a window that was never loaded; a colour is its
    red, green and blue. *)
Definition plain_skin {F : Type} `{Scalar F}
  : ChildWindowLoad.Skin F (N * N * N) :=
  ChildWindowLoad.mkSkin ""%string ""%string false (0%N, 0%N, 0%N) None
                         ChildWindowExamples.zero2 None None.

(** A store with one window, at address 1, whose close button is at
    address 2; the subobjects, sprites, textures and the texture manager
    carry no information. *)
Definition lone_members : ChildWindowOwnership.Members Qc unit unit unit :=
  ChildWindowOwnership.mkMembers ChildWindow.LayoutRight 5 tt "title"%string
    20 "Black/"%string false ChildWindowExamples.zero2 255
    (Some tt) (Some tt) None tt tt tt 2%positive.
Definition lone_store : ChildWindowOwnership.Store Qc unit unit unit unit unit :=
  ChildWindowOwnership.mkStore
    {[ 1%positive := ChildWindowOwnership.mkObject tt lone_members ]}
    {[ 2%positive :=
         ChildWindow.mkButton ChildWindowExamples.zero2
           (mkVector2 (of_uint 12) (of_uint 12)) ChildWindowExamples.one2
           false false 255 ]}
    tt.
Definition unit_copyTexture (from : option unit) (m : unit)
  : bool * option unit * unit :=
  (match from with Some _ => true | None => false end, from, m).
Definition unit_removeTexture (texture : unit) (m : unit) : unit := m.
Definition next_button {F : Type} (bs : gmap positive (ChildWindow.Button F))
  : positive := fresh (dom bs).
Definition next_object {F : Type}
    (os : gmap positive (ChildWindowOwnership.Object F unit unit unit unit))
  : positive := fresh (dom os).
End MoreExamples.

(** * Facts about the layout *)

Module LayoutFacts.
Import Layout.
Section WithScalar.
Context {F : Type} `{Scalar F}.

Lemma sumRatio_loop (hl : HorizontalLayout F) n : forall k acc,
  k + n = length (m_widgetsRatio hl) ->
  length (m_widgetsFixedSizes hl) = length (m_widgetsRatio hl) ->
  foldl (sumRatio_step hl) (Some acc) (seq k n) =
  Some (foldl (fun acc rf => if feqb rf.2 fzero then fadd acc rf.1 else acc)
              acc (zip (drop k (m_widgetsRatio hl))
                       (drop k (m_widgetsFixedSizes hl)))).
Proof.
  induction n as [|n IH]; intros k acc Hk Hlen; simpl.
  - rewrite (drop_ge (m_widgetsRatio hl)) by lia. reflexivity.
  - destruct (lookup_lt_is_Some_2 (m_widgetsRatio hl) k) as [r Hr]; [lia|].
    destruct (lookup_lt_is_Some_2 (m_widgetsFixedSizes hl) k) as [f Hf]; [lia|].
    rewrite (drop_S _ _ _ Hr), (drop_S _ _ _ Hf). simpl.
    rewrite Hf. simpl. rewrite Hr. simpl.
    destruct (feqb f fzero); simpl; apply IH; lia.
Qed.

Lemma sumRatio_zipped (hl : HorizontalLayout F) :
  well_formed hl ->
  sumRatio hl = Some (ratio_sum (m_widgetsRatio hl) (m_widgetsFixedSizes hl)).
Proof.
  intros [Hr Hf]. unfold sumRatio, ratio_sum.
  rewrite sumRatio_loop by lia. reflexivity.
Qed.

Lemma place_loop (hl : HorizontalLayout F) sR sF n : forall k ws cR cO,
  k + n = length ws ->
  length (m_widgetsRatio hl) = length ws ->
  length (m_widgetsFixedSizes hl) = length ws ->
  exists cR' cO',
    foldl (place_step hl sR sF)
          (Some {| widgets := ws; currentRatio := cR; currentOffset := cO |})
          (seq k n) =
    Some {| widgets :=
              take k ws ++
              place (vx (m_size hl)) (vy (m_size hl)) sF sR cR cO
                    (drop k ws) (drop k (m_widgetsRatio hl))
                    (drop k (m_widgetsFixedSizes hl));
            currentRatio := cR'; currentOffset := cO' |}.
Proof.
  induction n as [|n IH]; intros k ws cR cO Hk Hr Hf; simpl.
  - exists cR, cO. rewrite (drop_ge ws) by lia. simpl.
    rewrite take_ge by lia. rewrite app_nil_r. reflexivity.
  - destruct (lookup_lt_is_Some_2 ws k) as [w Hw]; [lia|].
    destruct (lookup_lt_is_Some_2 (m_widgetsRatio hl) k) as [r Hr']; [lia|].
    destruct (lookup_lt_is_Some_2 (m_widgetsFixedSizes hl) k) as [f Hf']; [lia|].
    rewrite (drop_S _ _ _ Hw), (drop_S _ _ _ Hr'), (drop_S _ _ _ Hf').
    simpl. rewrite Hw. simpl. rewrite Hf'. simpl.
    destruct (truthy f) eqn:Ht; simpl.
    + edestruct (IH (S k)) as (cR' & cO' & ->);
        [ rewrite length_insert; lia | rewrite length_insert; lia
        | rewrite length_insert; lia |].
      exists cR', cO'. f_equal. f_equal.
      rewrite drop_insert_lt by lia.
      erewrite take_S_r by (apply list_lookup_insert_eq; lia).
      rewrite take_insert_ge by lia. rewrite <- app_assoc. reflexivity.
    + rewrite Hr'. simpl.
      edestruct (IH (S k)) as (cR' & cO' & ->);
        [ rewrite length_insert; lia | rewrite length_insert; lia
        | rewrite length_insert; lia |].
      exists cR', cO'. f_equal. f_equal.
      rewrite drop_insert_lt by lia.
      erewrite take_S_r by (apply list_lookup_insert_eq; lia).
      rewrite take_insert_ge by lia. rewrite <- app_assoc. reflexivity.
Qed.

(** On a well-formed layout no index is out of range, and the result is
    the structural walk. *)
Lemma updateWidgetPositions_zipped (hl : HorizontalLayout F) :
  well_formed hl ->
  updateWidgetPositions hl =
  Some {| m_size := m_size hl;
          m_layoutWidgets :=
            place (vx (m_size hl)) (vy (m_size hl)) (sumFixedSize hl)
                  (ratio_sum (m_widgetsRatio hl) (m_widgetsFixedSizes hl))
                  fzero fzero
                  (m_layoutWidgets hl) (m_widgetsRatio hl)
                  (m_widgetsFixedSizes hl);
          m_widgetsRatio := m_widgetsRatio hl;
          m_widgetsFixedSizes := m_widgetsFixedSizes hl |}.
Proof.
  intros Hwf. unfold updateWidgetPositions.
  rewrite (sumRatio_zipped hl Hwf). simpl.
  destruct Hwf as [Hr Hf].
  edestruct (place_loop hl
               (ratio_sum (m_widgetsRatio hl) (m_widgetsFixedSizes hl))
               (sumFixedSize hl) (length (m_layoutWidgets hl)) 0
               (m_layoutWidgets hl) fzero fzero) as (cR' & cO' & ->);
    [lia | exact Hr | exact Hf |].
  reflexivity.
Qed.

Lemma place_length E Ey sF sR ws : forall rs fs cR cO,
  length rs = length ws -> length fs = length ws ->
  length (place E Ey sF sR cR cO ws rs fs) = length ws.
Proof.
  induction ws as [|w ws IH]; intros [|r rs] [|f fs] cR cO Hr Hf;
    simpl in *; try lia.
  destruct (truthy f); simpl; rewrite IH; lia.
Qed.

(** Size given to child [i]: its fixed size when that is nonzero, the ratio
    formula otherwise; the cross size is the container's. *)
Lemma place_lookup_size E Ey sF sR ws : forall rs fs cR cO i r f,
  length rs = length ws -> length fs = length ws ->
  rs !! i = Some r -> fs !! i = Some f ->
  exists w', place E Ey sF sR cR cO ws rs fs !! i = Some w' /\
    vx (size w') = (if feqb f fzero then fdiv (fmul (fsub E sF) r) sR else f) /\
    vy (size w') = Ey.
Proof.
  induction ws as [|w ws IH]; intros [|r0 rs] [|f0 fs] cR cO i r f Hr Hf Hri Hfi;
    simpl in *; try lia; try discriminate.
  destruct i as [|i]; simpl in *.
  - injection Hri as ->. injection Hfi as ->.
    unfold truthy. destruct (feqb f fzero); simpl; eexists; eauto.
  - destruct (truthy f0); simpl; eapply IH; eauto; lia.
Qed.

(** The size along the axis of every child after the update. *)
Lemma updateWidgetPositions_sizes (hl : HorizontalLayout F) :
  well_formed hl ->
  exists hl',
    updateWidgetPositions hl = Some hl' /\
    forall i r f sR,
      m_widgetsRatio hl !! i = Some r ->
      m_widgetsFixedSizes hl !! i = Some f ->
      sumRatio hl = Some sR ->
      exists w',
        m_layoutWidgets hl' !! i = Some w' /\
        vx (size w') =
          if feqb f fzero
          then fdiv (fmul (fsub (vx (m_size hl)) (sumFixedSize hl)) r) sR
          else f.
Proof.
  intros Hwf. eexists. split; [apply updateWidgetPositions_zipped, Hwf|].
  intros i r f sR Hr Hf HsR. rewrite (sumRatio_zipped hl Hwf) in HsR.
  injection HsR as <-. destruct Hwf as [Hlr Hlf]. simpl.
  edestruct (place_lookup_size (vx (m_size hl)) (vy (m_size hl))
               (sumFixedSize hl)
               (ratio_sum (m_widgetsRatio hl) (m_widgetsFixedSizes hl))
               (m_layoutWidgets hl) (m_widgetsRatio hl)
               (m_widgetsFixedSizes hl) fzero fzero i r f)
    as (w' & Hw' & Hx & _); eauto.
Qed.

(** The geometry the second loop hands out is the walk with two running
    sums, in whatever arithmetic the scalars have. *)
Lemma place_two_sum_walk (E Ey sF sR : F) ws : forall rs fs cR cO,
  length rs = length ws -> length fs = length ws ->
  map LayoutSpec.geometry_of (place E Ey sF sR cR cO ws rs fs)
  = LayoutSpec.two_sum_walk (fsub E sF) sR Ey cR cO rs fs.
Proof.
  induction ws as [|w ws IH]; intros [|r rs] [|f fs] cR cO Hr Hf;
    simpl in *; try lia; try reflexivity.
  change (LayoutSpec.is_fixed f) with (truthy f).
  destruct (truthy f); simpl; f_equal; apply IH; lia.
Qed.

End WithScalar.
End LayoutFacts.

Module LayoutClaims.
Import Layout LayoutFacts LayoutExamples.

Section Classification.
Context {F : Type} `{Scalar F}.

(** C10.  A child whose stored fixed size compares equal to zero is
    ratio-sized: the ratio sum adds up exactly the ratios of those children,
    and such a child is sized by the ratio formula; a child takes the
    fixed-size branch (and receives its fixed size) only when that size is
    nonzero.  A fixed size of zero is therefore not expressible. *)
Theorem zero_fixed_size_is_ratio_sized (hl : HorizontalLayout F) :
  well_formed hl ->
  exists hl',
    updateWidgetPositions hl = Some hl' /\
    sumRatio hl =
      Some (foldl (fun acc rf => if feqb rf.2 fzero then fadd acc rf.1 else acc)
                  fzero (zip (m_widgetsRatio hl) (m_widgetsFixedSizes hl))) /\
    forall i r f sR,
      m_widgetsRatio hl !! i = Some r ->
      m_widgetsFixedSizes hl !! i = Some f ->
      sumRatio hl = Some sR ->
      exists w',
        m_layoutWidgets hl' !! i = Some w' /\
        vx (size w') =
          if feqb f fzero
          then fdiv (fmul (fsub (vx (m_size hl)) (sumFixedSize hl)) r) sR
          else f.
Proof.
  intros Hwf.
  destruct (updateWidgetPositions_sizes hl Hwf) as (hl' & Hup & Hsz).
  exists hl'. split; [exact Hup|].
  split; [apply sumRatio_zipped, Hwf | exact Hsz].
Qed.
End Classification.


Lemma zero_fixed_size_is_ratio_sized_witness :
  exists hl',
    updateWidgetPositions mixed_layout32 = Some hl' /\
    sumRatio mixed_layout32 = Some (Binary32.of_Z 3) /\
    map (fun w => vx (size w)) (m_layoutWidgets hl')
    = [Binary32.of_Z 80; Binary32.of_Z 60; Binary32.of_Z 160].
Proof.
  destruct (zero_fixed_size_is_ratio_sized mixed_layout32) as (hl' & Hup & HsR & _).
  - split; reflexivity.
  - exists hl'. split; [exact Hup|]. split; [rewrite HsR; vm_compute; reflexivity|].
    vm_compute in Hup. injection Hup as <-. vm_compute. reflexivity.
Defined.

(** *** Division by a zero ratio sum, in binary32 *)

Lemma SFeqb_zero_inv (x : Binary32.float) :
  SFeqb x (S754_zero false) = true -> exists s, x = S754_zero s.
Proof.
  destruct x as [s|s| |s m e]; simpl; try discriminate; eauto;
    unfold SFeqb; simpl; destruct s; discriminate.
Qed.

Lemma SFdiv_zero_not_finite (x : Binary32.float) s :
  Binary32.is_finite (SFdiv Binary32.prec Binary32.emax x (S754_zero s)) = false.
Proof. destruct x; reflexivity. Qed.


(** C2, as stated, fails: with a zero ratio sum the widths are NaN, not zero. *)
Lemma zero_ratio_sum_yields_nan :
  sumRatio zero_ratio_layout = Some (S754_zero false) /\
  (map (fun w => vx (size w)) <$>
     (m_layoutWidgets <$> updateWidgetPositions zero_ratio_layout))
  = Some [S754_nan; S754_nan] /\
  ~ (forall hl' w, updateWidgetPositions zero_ratio_layout = Some hl' ->
       m_layoutWidgets hl' !! 0%nat = Some w ->
       Binary32.is_zero (vx (size w)) = true).
Proof.
  split; [vm_compute; reflexivity|].
  split; [vm_compute; reflexivity|].
  intros Hclaim.
  specialize (Hclaim _ _ eq_refl eq_refl). vm_compute in Hclaim. discriminate.
Qed.

(** C2, amended.  The division by the ratio sum is not guarded: when the
    ratio sum compares equal to zero, every ratio-sized child receives a width
    that is an infinity or a NaN (never a finite width, so never zero). *)
Theorem zero_ratio_sum_width_not_finite
    (hl : HorizontalLayout Binary32.float) (sR : Binary32.float) :
  well_formed hl ->
  sumRatio hl = Some sR ->
  feqb sR fzero = true ->
  exists hl',
    updateWidgetPositions hl = Some hl' /\
    forall i f,
      m_widgetsFixedSizes hl !! i = Some f ->
      feqb f fzero = true ->
      exists w',
        m_layoutWidgets hl' !! i = Some w' /\
        Binary32.is_finite (vx (size w')) = false.
Proof.
  intros Hwf HsR Hz.
  destruct (updateWidgetPositions_sizes hl Hwf) as (hl' & Hup & Hsz).
  exists hl'. split; [exact Hup|].
  intros i f Hf Hfz.
  destruct (lookup_lt_is_Some_2 (m_widgetsRatio hl) i) as [r Hr].
  { destruct Hwf as [-> Hlf]. rewrite <- Hlf. eapply lookup_lt_Some, Hf. }
  destruct (Hsz i r f sR Hr Hf HsR) as (w' & Hw' & Hx).
  exists w'. split; [exact Hw'|].
  rewrite Hx, Hfz. apply SFeqb_zero_inv in Hz as [s ->].
  apply SFdiv_zero_not_finite.
Qed.

Lemma zero_ratio_sum_width_not_finite_witness :
  exists hl',
    updateWidgetPositions zero_ratio_layout = Some hl' /\
    forall i f,
      m_widgetsFixedSizes zero_ratio_layout !! i = Some f ->
      feqb f fzero = true ->
      exists w',
        m_layoutWidgets hl' !! i = Some w' /\
        Binary32.is_finite (vx (size w')) = false.
Proof.
  apply (zero_ratio_sum_width_not_finite zero_ratio_layout (S754_zero false)).
  - split; reflexivity.
  - vm_compute. reflexivity.
  - reflexivity.
Defined.

(** *** Exact arithmetic *)

Section Exact.
Import LayoutSpec.
Local Open Scope Qc_scope.

Lemma truthy_is_fixed (f : Qc) : truthy f = is_fixed f.
Proof. reflexivity. Qed.

Lemma is_fixed_false (f : Qc) : is_fixed f = false -> f = 0.
Proof.
  unfold is_fixed. simpl. intros Hf. apply negb_false_iff in Hf.
  exact (bool_decide_eq_true_1 _ Hf).
Qed.

Lemma foldl_plus_total (l : list Qc) : forall acc,
  foldl Qcplus acc l = acc + total l.
Proof.
  induction l as [|x l IH]; intros acc; simpl.
  - ring.
  - rewrite IH. ring.
Qed.

Lemma sumFixed_total (fs : list Qc) : sumFixed fs = total fs.
Proof.
  unfold sumFixed. induction fs as [|f fs IH]; simpl; [reflexivity|].
  rewrite filter_cons. destruct (decide (is_fixed f = true)) as [Hf|Hf]; simpl.
  - rewrite IH. reflexivity.
  - rewrite IH. apply not_true_is_false, is_fixed_false in Hf. subst f. ring.
Qed.

Lemma sumFixedSize_sumFixed (hl : HorizontalLayout Qc) :
  sumFixedSize hl = sumFixed (m_widgetsFixedSizes hl).
Proof.
  unfold sumFixedSize. simpl. rewrite foldl_plus_total, sumFixed_total. ring.
Qed.

Lemma ratio_sum_acc (rs : list Qc) : forall fs acc,
  foldl (fun a (rf : Qc * Qc) => if feqb rf.2 fzero then fadd a rf.1 else a)
        acc (zip rs fs)
  = acc + LayoutSpec.sumRatio rs fs.
Proof.
  induction rs as [|r rs IH]; intros [|f fs] acc; simpl; try ring.
  rewrite IH. unfold is_fixed. simpl.
  destruct (bool_decide (f = 0)); simpl; ring.
Qed.

Lemma ratio_sum_sumRatio (rs fs : list Qc) :
  ratio_sum rs fs = LayoutSpec.sumRatio rs fs.
Proof. unfold ratio_sum. rewrite ratio_sum_acc. simpl. ring. Qed.

(** The code's position, [(E - sF) * currentRatio + currentOffset], is the
    running sum of the sizes handed out so far. *)
Lemma place_walk (E Ey sF sR : Qc) ws : forall rs fs cR cO off,
  length rs = length ws -> length fs = length ws ->
  (E - sF) * cR + cO = off ->
  map geometry_of (place E Ey sF sR cR cO ws rs fs)
  = walk (E - sF) sR Ey off rs fs.
Proof.
  induction ws as [|w ws IH]; intros [|r rs] [|f fs] cR cO off Hr Hf Hoff;
    simpl in *; try lia; try reflexivity.
  rewrite truthy_is_fixed. destruct (is_fixed f); simpl.
  - unfold geometry_of at 1. simpl. rewrite Hoff. f_equal.
    apply IH; [lia | lia |]. rewrite <- Hoff. ring.
  - unfold geometry_of at 1. simpl. rewrite Hoff. f_equal.
    + f_equal. unfold Qcdiv. ring.
    + apply IH; [lia | lia |]. rewrite <- Hoff. unfold Qcdiv. ring.
Qed.

Lemma ratio_extent_place (E Ey sF sR : Qc) ws : forall rs fs cR cO,
  length rs = length ws -> length fs = length ws ->
  ratio_children_extent (place E Ey sF sR cR cO ws rs fs) fs
  = (E - sF) * LayoutSpec.sumRatio rs fs / sR.
Proof.
  induction ws as [|w ws IH]; intros [|r rs] [|f fs] cR cO Hr Hf;
    simpl in *; try lia; try (unfold Qcdiv; ring).
  rewrite truthy_is_fixed. destruct (is_fixed f) eqn:Hfix; simpl;
    rewrite Hfix, IH by lia; unfold Qcdiv; ring.
Qed.

(** C6, amended.  Over exact arithmetic, when the ratio sum of the non-fixed
    children is strictly positive, the sizes computed for the ratio
    children and the fixed sizes add up to the extent [E] of the container,
    exactly. *)
Theorem ratio_and_fixed_sizes_fill_extent (hl : HorizontalLayout Qc) :
  well_formed hl ->
  0 < LayoutSpec.sumRatio (m_widgetsRatio hl) (m_widgetsFixedSizes hl) ->
  exists hl',
    updateWidgetPositions hl = Some hl' /\
    ratio_children_extent (m_layoutWidgets hl') (m_widgetsFixedSizes hl)
    + sumFixed (m_widgetsFixedSizes hl)
    = vx (m_size hl).
Proof.
  intros Hwf Hpos. eexists. split; [apply updateWidgetPositions_zipped, Hwf|].
  simpl. destruct Hwf as [Hr Hf].
  rewrite ratio_extent_place by assumption.
  rewrite ratio_sum_sumRatio, sumFixedSize_sumFixed.
  assert (Hne : LayoutSpec.sumRatio (m_widgetsRatio hl) (m_widgetsFixedSizes hl) <> 0).
  { intros Hz. rewrite Hz in Hpos. exact (Qclt_not_eq _ _ Hpos eq_refl). }
  field. exact Hne.
Qed.

End Exact.

(** C1, as stated, fails in the arithmetic of the code: in a box 100 wide
    with three equal ratios, single precision gives every child the width
    [100 * 1 / 3], which is not [100 * (1 / 3)], and the second child starts
    at [100 * (1 / 3)], which is not where the first one ends. *)
Lemma thirds_layout32_is_not_the_accumulated_walk :
  (map LayoutSpec.geometry_of
     <$> (m_layoutWidgets <$> updateWidgetPositions thirds_layout32))
  <> Some (LayoutSpec.layout (Binary32.of_Z 100) (Binary32.of_Z 50)
             (m_widgetsRatio thirds_layout32)
             (m_widgetsFixedSizes thirds_layout32)) /\
  (map (fun w => (vx (position w), vx (size w)))
     <$> (m_layoutWidgets <$> updateWidgetPositions thirds_layout32))
  = Some [(S754_zero false, S754_finite false 8738133 (-18));
          (S754_finite false 8738134 (-18), S754_finite false 8738133 (-18));
          (S754_finite false 8738134 (-17), S754_finite false 8738133 (-18))] /\
  fmul (Binary32.of_Z 100) (fdiv (Binary32.of_Z 1) (Binary32.of_Z 3))
  = S754_finite false 8738134 (-18).
Proof.
  split; [|split]; [|vm_compute; reflexivity|vm_compute; reflexivity].
  intros Heq. vm_compute in Heq. discriminate.
Qed.

(** C1, amended.  In the arithmetic of the code, whatever it is, the update
    of a layout with one ratio and one fixed size per widget walks the
    children in order with two running sums, starting at zero: the sum of
    [ratio / sumRatio] over the ratio-sized children met so far and the sum
    of the fixed sizes met so far, [sumRatio] being the sum of the ratios of
    the ratio-sized children.  A child is placed at
    [(E - sumFixed) * ratioSoFar + fixedSoFar]; a child with a fixed size
    receives that size and a ratio-sized child
    [(E - sumFixed) * ratio / sumRatio]; every child's cross size is the
    container's cross extent.  Over exact arithmetic, provided the ratio sum
    is not zero when there is a ratio-sized child, this is the walk of the
    specification: one accumulated offset and the size
    [(E - sumFixed) * (ratio / sumRatio)]. *)
Theorem updateWidgetPositions_walks_children :
  (forall (F : Type) (SF : Scalar F) (hl : HorizontalLayout F),
     well_formed hl ->
     exists hl' sR,
       updateWidgetPositions hl = Some hl' /\
       sumRatio hl = Some sR /\
       sR = ratio_sum (m_widgetsRatio hl) (m_widgetsFixedSizes hl) /\
       map LayoutSpec.geometry_of (m_layoutWidgets hl')
       = LayoutSpec.two_sum_walk
           (fsub (vx (m_size hl)) (sumFixedSize hl)) sR (vy (m_size hl))
           fzero fzero (m_widgetsRatio hl) (m_widgetsFixedSizes hl) /\
       m_size hl' = m_size hl /\
       m_widgetsRatio hl' = m_widgetsRatio hl /\
       m_widgetsFixedSizes hl' = m_widgetsFixedSizes hl) /\
  (forall hl : HorizontalLayout Qc,
     well_formed hl ->
     (0%Qc ∈ m_widgetsFixedSizes hl ->
      LayoutSpec.sumRatio (m_widgetsRatio hl) (m_widgetsFixedSizes hl) <> 0%Qc) ->
     exists hl',
       updateWidgetPositions hl = Some hl' /\
       map LayoutSpec.geometry_of (m_layoutWidgets hl')
       = LayoutSpec.layout (vx (m_size hl)) (vy (m_size hl))
                           (m_widgetsRatio hl) (m_widgetsFixedSizes hl)).
Proof.
  split.
  - intros F SF hl Hwf. eexists _, _.
    split; [apply updateWidgetPositions_zipped, Hwf|].
    split; [apply sumRatio_zipped, Hwf|].
    split; [reflexivity|].
    simpl. repeat split. destruct Hwf as [Hr Hf].
    apply place_two_sum_walk; assumption.
  - intros hl Hwf _. eexists.
    split; [apply updateWidgetPositions_zipped, Hwf|].
    simpl. destruct Hwf as [Hr Hf]. unfold LayoutSpec.layout.
    rewrite <- sumFixedSize_sumFixed, <- ratio_sum_sumRatio.
    apply place_walk; [exact Hr | exact Hf |]. simpl. ring.
Qed.

Lemma updateWidgetPositions_walks_children_witness :
  (exists hl' sR,
     updateWidgetPositions thirds_layout32 = Some hl' /\
     sumRatio thirds_layout32 = Some sR /\
     map LayoutSpec.geometry_of (m_layoutWidgets hl')
     = LayoutSpec.two_sum_walk
         (fsub (Binary32.of_Z 100) (sumFixedSize thirds_layout32)) sR
         (Binary32.of_Z 50) fzero fzero
         (m_widgetsRatio thirds_layout32)
         (m_widgetsFixedSizes thirds_layout32)) /\
  (exists hl',
     updateWidgetPositions mixed_layout = Some hl' /\
     map LayoutSpec.geometry_of (m_layoutWidgets hl')
     = LayoutSpec.layout (Q2Qc 300) (Q2Qc 50)
                         [Q2Qc 1; Q2Qc 1; Q2Qc 2] [Q2Qc 0; Q2Qc 60; Q2Qc 0]).
Proof.
  split.
  - destruct (proj1 updateWidgetPositions_walks_children _ _ thirds_layout32)
      as (hl' & sR & Hup & HsR & _ & Hgeo & _); [split; reflexivity|].
    exists hl', sR. split; [exact Hup|]. split; [exact HsR | exact Hgeo].
  - apply (proj2 updateWidgetPositions_walks_children mixed_layout).
    + split; reflexivity.
    + intros _ Hz. apply (f_equal this) in Hz. vm_compute in Hz. discriminate.
Defined.

(** C6, as stated, fails in the arithmetic of the code: in single precision
    the sum is not within any tolerance of the extent.  With ratios 3 and 1
    in a box [2^127] wide the first size overflows and the sum is infinite;
    with the ratios [2^24] and [-(2^24 - 1)], whose sum is 1, in a box 300
    wide the sizes add up to 512. *)
Lemma float_sizes_do_not_fill_extent :
  sumRatio huge_layout32 = Some (Binary32.of_Z 4) /\
  fltb fzero (Binary32.of_Z 4) = true /\
  ((fun hl' =>
      fadd (LayoutSpec.ratio_children_extent
              (m_layoutWidgets hl') (m_widgetsFixedSizes huge_layout32))
           (LayoutSpec.sumFixed (m_widgetsFixedSizes huge_layout32)))
     <$> updateWidgetPositions huge_layout32)
  = Some (S754_infinity false) /\
  sumRatio cancelling_layout32 = Some (Binary32.of_Z 1) /\
  fltb fzero (Binary32.of_Z 1) = true /\
  ((fun hl' =>
      fadd (LayoutSpec.ratio_children_extent
              (m_layoutWidgets hl') (m_widgetsFixedSizes cancelling_layout32))
           (LayoutSpec.sumFixed (m_widgetsFixedSizes cancelling_layout32)))
     <$> updateWidgetPositions cancelling_layout32)
  = Some (Binary32.of_Z 512) /\
  vx (m_size cancelling_layout32) = Binary32.of_Z 300.
Proof. repeat split; vm_compute; reflexivity. Qed.

(** What the walk of the specification gives on that layout: offsets 0, 80
    and 140, sizes 80, 60 and 160, all 50 high. *)
Lemma mixed_layout_walk :
  map (fun g => (this (LayoutSpec.offset g), this (LayoutSpec.extent g),
                 this (LayoutSpec.cross g)))
      (LayoutSpec.layout (Q2Qc 300) (Q2Qc 50)
                         [Q2Qc 1; Q2Qc 1; Q2Qc 2] [Q2Qc 0; Q2Qc 60; Q2Qc 0])
  = [(0%Q, 80%Q, 50%Q); (80%Q, 60%Q, 50%Q); (140%Q, 160%Q, 50%Q)].
Proof. vm_compute. reflexivity. Qed.

Lemma ratio_and_fixed_sizes_fill_extent_witness :
  exists hl',
    updateWidgetPositions mixed_layout = Some hl' /\
    (LayoutSpec.ratio_children_extent (m_layoutWidgets hl')
                                      (m_widgetsFixedSizes mixed_layout)
     + LayoutSpec.sumFixed (m_widgetsFixedSizes mixed_layout))%Qc
    = Q2Qc 300.
Proof.
  apply (ratio_and_fixed_sizes_fill_extent mixed_layout).
  - split; reflexivity.
  - reflexivity.
Defined.

(** The layout scenario of the specification, in exact arithmetic and in
    single precision: sizes 100 and 200 at offsets 0 and 100. *)
Lemma layout_scenario_exact :
  (map (fun w => (this (vx (position w)), this (vx (size w))))
     <$> (m_layoutWidgets <$> updateWidgetPositions (scenario_layout (F := Qc))))
  = Some [(0%Q, 100%Q); (100%Q, 200%Q)].
Proof. vm_compute. reflexivity. Qed.

Lemma layout_scenario_binary32 :
  (map (fun w => (vx (position w), vx (size w)))
     <$> (m_layoutWidgets
            <$> updateWidgetPositions (scenario_layout (F := Binary32.float))))
  = Some [(S754_zero false, Binary32.of_Z 100);
          (Binary32.of_Z 100, Binary32.of_Z 200)].
Proof. vm_compute. reflexivity. Qed.

End LayoutClaims.

(** * Facts about groups *)

Module GroupFacts.
Import Group.

Lemma get_loop_no_match objs objectName names : forall i,
  objectName ∉ names ->
  get_loop objs objectName i names = Some None.
Proof.
  induction names as [|n names IH]; intros i Hnot; simpl; [reflexivity|].
  destruct (String.eqb n objectName) eqn:E.
  - apply String.eqb_eq in E. subst n. exfalso. apply Hnot. left.
  - apply IH. intros Hin. apply Hnot. right. exact Hin.
Qed.

Lemma get_loop_first_match objs objectName names : forall i k p,
  names !! k = Some objectName ->
  (forall j, j < k -> names !! j <> Some objectName) ->
  objs !! (i + k) = Some p ->
  get_loop objs objectName i names = Some (Some p).
Proof.
  induction names as [|n names IH]; intros i k p Hk Hfirst Hp; simpl.
  - discriminate.
  - destruct k as [|k]; simpl in Hk.
    + injection Hk as ->. rewrite String.eqb_refl.
      rewrite Nat.add_0_r in Hp. rewrite Hp. reflexivity.
    + destruct (String.eqb n objectName) eqn:E.
      * apply String.eqb_eq in E. subst n.
        exfalso. apply (Hfirst 0); [lia | reflexivity].
      * apply (IH (S i) k p Hk).
        -- intros j Hj. apply (Hfirst (S j)). lia.
        -- rewrite <- Hp. f_equal. lia.
Qed.


Lemma remove_loop_absent object names : forall objs,
  object ∉ objs -> remove_loop object names objs = (names, objs).
Proof.
  induction names as [|n names IH]; intros [|o objs] Hnot; simpl; try reflexivity.
  destruct (Pos.eqb o object) eqn:E.
  - apply Pos.eqb_eq in E. subst o. exfalso. apply Hnot. left.
  - rewrite IH; [reflexivity|]. intros Hin. apply Hnot. right. exact Hin.
Qed.

End GroupFacts.

Module GroupClaims.
Import Group GroupFacts GroupExamples.

(** C3, as stated, fails: asked for the empty name, [get] returns the child
    that was added without a name. *)
Lemma get_empty_name_finds_unnamed_child :
  get "" unnamed_group = Some (Some 7%positive) /\
  get "" unnamed_group <> Some None.
Proof. split; [reflexivity | discriminate]. Qed.

(** C3, amended.  [get] returns [NULL] when no child's name matches; when a
    match exists it returns the first child, in insertion order, whose name
    matches.  The empty name is no exception: it is compared like any
    other, so [get ""] returns the first child whose name is empty. *)
Theorem get_returns_first_match (g : Group) (objectName : string) :
  well_formed g ->
  (objectName ∉ m_ObjName g -> get objectName g = Some None) /\
  (forall i,
      m_ObjName g !! i = Some objectName ->
      (forall j, j < i -> m_ObjName g !! j <> Some objectName) ->
      exists p, m_Objects g !! i = Some p /\
                get objectName g = Some (Some p)).
Proof.
  intros Hwf. split.
  - intros Hnot. apply get_loop_no_match, Hnot.
  - intros i Hi Hfirst.
    destruct (lookup_lt_is_Some_2 (m_Objects g) i) as [p Hp].
    { rewrite Hwf. eapply lookup_lt_Some, Hi. }
    exists p. split; [exact Hp|].
    eapply get_loop_first_match; eauto.
Qed.

Lemma get_returns_first_match_witness :
  get "missing" three_children = Some None /\
  get "ok" three_children = Some (Some 3%positive) /\
  get "" three_children = Some (Some 5%positive).
Proof.
  assert (Hwf : well_formed three_children) by reflexivity.
  split; [|split].
  - apply (get_returns_first_match three_children "missing" Hwf).
    apply (bool_decide_unpack _). vm_compute. exact I.
  - destruct (proj2 (get_returns_first_match three_children "ok" Hwf) 0%nat)
      as (p & Hp & Hget); [reflexivity | intros j Hj; lia |].
    injection Hp as <-. exact Hget.
  - destruct (proj2 (get_returns_first_match three_children "" Hwf) 1%nat)
      as (p & Hp & Hget); [reflexivity | |].
    + intros j Hj. destruct j; [discriminate | lia].
    + injection Hp as <-. exact Hget.
Defined.

Lemma first_free_fresh {St : Type} (h : gmap positive (OBJECT St)) :
  h !! first_free h = None.
Proof. apply not_elem_of_dom. apply is_fresh. Qed.

Section WithWidget.
Context {St : Type}.
Variable alloc : gmap positive (OBJECT St) -> positive.
Variable T_new : OBJECT St.
Variable T_initialize : OBJECT St -> OBJECT St.

(** [operator new] returns the address of no live object. *)
Hypothesis alloc_fresh : forall h, h !! alloc h = None.

Lemma add_unfold this objectName g h :
  add alloc T_new T_initialize this objectName g h =
  (alloc h,
   {| m_ObjName := m_ObjName g ++ [objectName];
      m_Objects := m_Objects g ++ [alloc h] |},
   <[alloc h := T_initialize (set_Parent (Some this) T_new)]> h).
Proof using Type.
  unfold add, push_back. rewrite !alter_insert_eq. reflexivity.
Qed.

Lemma add_all_fresh this names : forall g h,
  let '(ps, g', h') := add_all alloc T_new T_initialize this names g h in
  NoDup ps /\
  (forall q, q ∈ ps -> h !! q = None) /\
  (forall q, q ∈ ps ->
     h' !! q = Some (T_initialize (set_Parent (Some this) T_new))) /\
  (forall q, q ∉ ps -> h' !! q = h !! q) /\
  m_Objects g' = m_Objects g ++ ps /\
  m_ObjName g' = m_ObjName g ++ names.
Proof using alloc_fresh.
  induction names as [|n names IH]; intros g h; cbn [add_all].
  - repeat split; try (rewrite app_nil_r; reflexivity).
    + constructor.
    + intros q Hq. inversion Hq.
    + intros q Hq. inversion Hq.
  - rewrite add_unfold.
    specialize (IH {| m_ObjName := m_ObjName g ++ [n];
                      m_Objects := m_Objects g ++ [alloc h] |}
                   (<[alloc h := T_initialize (set_Parent (Some this) T_new)]> h)).
    destruct (add_all alloc T_new T_initialize this names _ _) as [[ps g2] h2].
    destruct IH as (Hnd & Hfresh & Hinit & Hrest & Hobjs & Hnames).
    simpl in *.
    assert (Hp : alloc h ∉ ps).
    { intros Hin. specialize (Hfresh _ Hin).
      rewrite lookup_insert_eq in Hfresh. discriminate. }
    split; [apply NoDup_cons; split; assumption|].
    split; [|split; [|split; [|split]]].
    + intros q Hq. apply elem_of_cons in Hq as [-> | Hq]; [apply alloc_fresh|].
      assert (Hne : alloc h <> q) by (intros Heq; apply Hp; rewrite Heq; exact Hq).
      specialize (Hfresh q Hq).
      rewrite lookup_insert_ne in Hfresh by exact Hne. exact Hfresh.
    + intros q Hq. apply elem_of_cons in Hq as [-> | Hq]; [|apply Hinit, Hq].
      rewrite (Hrest _ Hp). apply lookup_insert_eq.
    + intros q Hq. apply not_elem_of_cons in Hq as [Hne Hq].
      rewrite (Hrest _ Hq). apply lookup_insert_ne. congruence.
    + rewrite Hobjs, <- app_assoc. reflexivity.
    + rewrite Hnames, <- app_assoc. reflexivity.
Qed.

(** C8.  [add] constructs a new widget at a fresh address, appends the
    widget and the name at the end of the two child vectors, and runs the
    [initialize] hook on a widget whose parent back-reference is already
    the group; in a run of [add] calls the handles returned are pairwise
    distinct and new, whatever the names, each widget ends up initialized
    with its parent set, and the children are appended in call order. *)
Theorem add_appends_initialized_widget this objectName g h names :
  add alloc T_new T_initialize this objectName g h =
    (alloc h,
     {| m_ObjName := m_ObjName g ++ [objectName];
        m_Objects := m_Objects g ++ [alloc h] |},
     <[alloc h := T_initialize (set_Parent (Some this) T_new)]> h) /\
  m_Parent (set_Parent (Some this) T_new) = Some this /\
  h !! alloc h = None /\
  (let '(ps, g', h') := add_all alloc T_new T_initialize this names g h in
   NoDup ps /\
   (forall q, q ∈ ps -> h !! q = None) /\
   (forall q, q ∈ ps ->
      h' !! q = Some (T_initialize (set_Parent (Some this) T_new))) /\
   (forall q, q ∉ ps -> h' !! q = h !! q) /\
   m_Objects g' = m_Objects g ++ ps /\
   m_ObjName g' = m_ObjName g ++ names).
Proof using alloc_fresh.
  split; [apply add_unfold|].
  split; [reflexivity|].
  split; [apply alloc_fresh|].
  apply add_all_fresh.
Qed.

(** [T(const T&)], the copy constructor of the widget class. *)
Variable T_copy : OBJECT St -> OBJECT St.

(** C9.  [copy] by handle appends a clone of the widget and the new name
    to the child vectors and returns the clone.  The clone is stored as
    the copy constructor left it: [copy] neither sets its parent
    back-reference nor runs an [initialize] hook on it, whichever group
    does the copy.  So when the copy constructor copies the
    back-reference, the clone has the parent of the source, and it is not
    a child of a group that was not the parent of the source. *)
Theorem copy_keeps_parent_of_source oldObject newObjectName g h old :
  h !! oldObject = Some old ->
  exists p g' h',
    copy alloc T_copy oldObject newObjectName g h = Some (p, g', h') /\
    m_ObjName g' = m_ObjName g ++ [newObjectName] /\
    m_Objects g' = m_Objects g ++ [p] /\
    h !! p = None /\
    h' !! p = Some (T_copy old) /\
    (m_Parent (T_copy old) = m_Parent old ->
     m_Parent <$> h' !! p = Some (m_Parent old) /\
     forall this, m_Parent old <> Some this ->
                  m_Parent <$> h' !! p <> Some (Some this)) /\
    (forall q, q <> p -> h' !! q = h !! q).
Proof using alloc_fresh.
  intros Hold. unfold copy. rewrite Hold. simpl.
  eexists _, _, _. split; [reflexivity|]. simpl.
  rewrite lookup_insert_eq. repeat split.
  - apply alloc_fresh.
  - simpl. f_equal. assumption.
  - intros this Hne Heq. simpl in Heq. injection Heq as Heq. congruence.
  - intros q Hq. apply lookup_insert_ne. congruence.
Qed.
End WithWidget.


Lemma add_appends_initialized_widget_witness :
  state (label_initialize (set_Parent (Some 1%positive) label_new))
    = "initialized with a parent"%string /\
  add first_free label_new label_initialize 1 "ok" (mkGroup [] []) ∅
    = (first_free (∅ : gmap positive (OBJECT string)),
       mkGroup ["ok"%string] [first_free (∅ : gmap positive (OBJECT string))],
       <[first_free (∅ : gmap positive (OBJECT string))
           := label_initialize (set_Parent (Some 1%positive) label_new)]> ∅) /\
  (let '(ps, g', h') :=
     add_all first_free label_new label_initialize 1
             ["ok"%string; "ok"%string; ""%string] (mkGroup [] []) ∅ in
   NoDup ps /\ m_Objects g' = ps /\
   m_ObjName g' = ["ok"%string; "ok"%string; ""%string]).
Proof.
  split; [reflexivity|].
  destruct (add_appends_initialized_widget first_free label_new
              label_initialize first_free_fresh 1%positive "ok"%string
              (mkGroup [] []) ∅ ["ok"%string; "ok"%string; ""%string])
    as (Hadd & _ & _ & Hall).
  split; [exact Hadd|].
  destruct (add_all first_free label_new label_initialize 1
              ["ok"%string; "ok"%string; ""%string] (mkGroup [] []) ∅)
    as [[ps g'] h'].
  destruct Hall as (Hnd & _ & _ & _ & Hobjs & Hnames).
  split; [exact Hnd|]. split; [exact Hobjs | exact Hnames].
Defined.

Lemma copy_keeps_parent_of_source_witness :
  exists p g' h',
    copy first_free label_copy 4 "clone" (mkGroup [] []) foreign_heap
    = Some (p, g', h') /\
    m_Objects g' = [p] /\
    h' !! p = Some (mkOBJECT (Some 2%positive) "copy of picture"%string) /\
    m_Parent <$> h' !! p = Some (Some 2%positive) /\
    m_Parent <$> h' !! p <> Some (Some 1%positive).
Proof.
  destruct (copy_keeps_parent_of_source first_free first_free_fresh label_copy
              4%positive "clone"%string (mkGroup [] []) foreign_heap
              (mkOBJECT (Some 2%positive) "picture"%string))
    as (p & g' & h' & Hcopy & _ & Hobjs & _ & Hstored & Hparent & _).
  - apply lookup_singleton_eq.
  - exists p, g', h'. split; [exact Hcopy|]. split; [exact Hobjs|].
    split; [exact Hstored|].
    destruct (Hparent eq_refl) as [Hsame Hnot].
    split; [exact Hsame|]. apply Hnot. discriminate.
Defined.

End GroupClaims.

(** * Facts about child windows *)

Module ChildWindowFacts.
Import ChildWindow.

Section WithScalar.
Context {F : Type} `{Scalar F} {EM : Type}.
Variable Panel_handleEvent :
  EventType -> F -> F -> ChildWindow F EM -> Panel EM.
Variable Panel_mouseOnObject : F -> F -> ChildWindow F EM -> bool * Panel EM.
Variable EventManager_mouseNotOnObject : EM -> EM.

Lemma onTitleBar_same_geometry (w w' : ChildWindow F EM) x y :
  same_geometry w w' -> onTitleBar w' x y = onTitleBar w x y.
Proof.
  intros (Hp & Hs & _ & _ & Ht & _). unfold onTitleBar.
  rewrite Hp, Hs, Ht. reflexivity.
Qed.

Lemma closeButton_hit_same_geometry (w w' : ChildWindow F EM) x y :
  same_geometry w w' ->
  Button_mouseOnObject x y (m_CloseButton (placeCloseButton w'))
  = Button_mouseOnObject x y (m_CloseButton (placeCloseButton w)).
Proof.
  intros (Hp & Hs & Hl & Hd & Ht & Hbs & Hbc).
  unfold placeCloseButton, Button_mouseOnObject, Button_getScaledSize.
  rewrite Hl. destruct (layout w); simpl;
    rewrite ?Hp, ?Hs, ?Hd, ?Ht, ?Hbs, ?Hbc; reflexivity.
Qed.

Lemma placeCloseButton_MouseDown (w : ChildWindow F EM) :
  b_MouseDown (m_CloseButton (placeCloseButton w)) = b_MouseDown (m_CloseButton w).
Proof. unfold placeCloseButton. destruct (layout w); reflexivity. Qed.



End WithScalar.
End ChildWindowFacts.

Module ChildWindowClaims.
Import ChildWindow ChildWindowFacts ChildWindowExamples.

Section WithScalar.
Context {F : Type} `{Scalar F} {EM : Type}.
Variable Panel_handleEvent :
  EventType -> F -> F -> ChildWindow F EM -> Panel EM.
Variable Panel_mouseOnObject : F -> F -> ChildWindow F EM -> bool * Panel EM.
Variable EventManager_mouseNotOnObject : EM -> EM.

(** C7, amended.  On a window whose loaded flag is false, [handleEvent] and
    [setTitlebarHeight] return at once and change nothing, and
    [mouseOnObject] answers false without touching the window.
    [setTransparency] and [setBorders] do not look at the flag: they store
    the new opacity (in the window, its title bar sprites and its close
    button) and the new borders in an unloaded window too, and leave it
    unloaded. *)
Theorem unloaded_window_guards (w : ChildWindow F EM)
    (this : positive) (e : EventType) (x y : F) (height : N)
    (gs : gmap positive ParentGroup) (cs : list Call) :
  m_Loaded w = false ->
  handleEvent Panel_handleEvent this e x y (mkWorld (Some w) gs cs)
    = Some (mkWorld (Some w) gs cs) /\
  setTitlebarHeight height w = Some w /\
  mouseOnObject Panel_mouseOnObject EventManager_mouseNotOnObject x y w
    = (false, w) /\
  (forall t,
      m_Opacity (setTransparency t w) = t /\
      m_SpriteTitleBar_alpha (setTransparency t w) = t /\
      b_alpha (m_CloseButton (setTransparency t w)) = t /\
      m_Loaded (setTransparency t w) = false) /\
  (forall l t r b,
      m_Borders (setBorders l t r b w) = (l, t, r, b) /\
      m_Loaded (setBorders l t r b w) = false).
Proof using Type.
  intros Hl. repeat split.
  - unfold handleEvent. simpl. rewrite Hl. reflexivity.
  - unfold setTitlebarHeight. rewrite Hl. reflexivity.
  - unfold mouseOnObject. rewrite Hl. reflexivity.
  - exact Hl.
  - exact Hl.
Qed.


(** A press on the title bar outside the close button, in whatever
    arithmetic the scalars have (lines 399-407). *)
Lemma press_records_offset (w : ChildWindow F EM) this px py gs cs :
  m_Loaded w = true ->
  onTitleBar w px py = true ->
  Button_mouseOnObject px py (m_CloseButton (placeCloseButton w)) = false ->
  exists w1,
    handleEvent Panel_handleEvent this MouseButtonPressed px py
                (mkWorld (Some w) gs cs)
      = Some (mkWorld (Some w1) gs cs) /\
    m_Loaded w1 = true /\ m_MouseDown w1 = true /\
    position w1 = position w /\
    m_DraggingPosition w1
      = mkVector2 (fsub px (vx (position w))) (fsub py (vy (position w))).
Proof using Type.
  intros Hl Ht Hb. eexists. split.
  - unfold handleEvent. simpl. rewrite Hl. simpl. rewrite Ht, Hb. reflexivity.
  - unfold placeCloseButton. destruct (layout w); repeat split; simpl; assumption.
Qed.

(** A move with the mouse down, in whatever arithmetic the scalars have
    (lines 353-358). *)
Lemma move_as_coded (w : ChildWindow F EM) this mx my gs cs :
  m_Loaded w = true -> m_MouseDown w = true ->
  exists w',
    handleEvent Panel_handleEvent this MouseMoved mx my (mkWorld (Some w) gs cs)
      = Some (mkWorld (Some w') gs (cs ++ [CallPanelHandleEvent this MouseMoved])) /\
    position w'
      = mkVector2
          (fadd (vx (position w))
                (fsub (fsub mx (vx (position w))) (vx (m_DraggingPosition w))))
          (fadd (vy (position w))
                (fsub (fsub my (vy (position w))) (vy (m_DraggingPosition w)))) /\
    m_Loaded w' = true /\ m_MouseDown w' = true /\
    m_DraggingPosition w' = m_DraggingPosition w.
Proof using Type.
  intros Hl Hd. eexists. split.
  - unfold handleEvent. simpl. rewrite Hl, Hd. simpl. unfold fall_through.
    reflexivity.
  - simpl. repeat split; assumption.
Qed.

End WithScalar.

(** *** Dragging, over exact arithmetic *)

Section Exact.
Context {EM : Type}.
Variable Panel_handleEvent :
  EventType -> Qc -> Qc -> ChildWindow Qc EM -> Panel EM.
Local Open Scope Qc_scope.

Lemma move_while_dragging (w : ChildWindow Qc EM) this mx my gs cs :
  m_Loaded w = true -> m_MouseDown w = true ->
  exists w',
    handleEvent Panel_handleEvent this MouseMoved mx my (mkWorld (Some w) gs cs)
      = Some (mkWorld (Some w') gs (cs ++ [CallPanelHandleEvent this MouseMoved])) /\
    position w' = mkVector2 (mx - vx (m_DraggingPosition w))
                            (my - vy (m_DraggingPosition w)) /\
    m_Loaded w' = true /\ m_MouseDown w' = true /\
    m_DraggingPosition w' = m_DraggingPosition w.
Proof using Type.
  intros Hl Hd. eexists. split.
  - unfold handleEvent. simpl. rewrite Hl, Hd. simpl. unfold fall_through.
    reflexivity.
  - simpl. repeat split; try assumption. f_equal; ring.
Qed.

Lemma moves_while_dragging (moves : list (Qc * Qc)) :
  forall (w : ChildWindow Qc EM) this gs cs,
  m_Loaded w = true -> m_MouseDown w = true ->
  exists w' cs',
    handleMoves Panel_handleEvent this moves (mkWorld (Some w) gs cs)
      = Some (mkWorld (Some w') gs cs') /\
    m_Loaded w' = true /\ m_MouseDown w' = true /\
    m_DraggingPosition w' = m_DraggingPosition w /\
    (forall mx my, last moves = Some (mx, my) ->
       position w' = mkVector2 (mx - vx (m_DraggingPosition w))
                               (my - vy (m_DraggingPosition w))).
Proof using Type.
  induction moves as [|[mx my] moves IH]; intros w this gs cs Hl Hd.
  - exists w, cs. repeat split; try assumption. intros mx my Hlast. discriminate.
  - destruct (move_while_dragging w this mx my gs cs Hl Hd)
      as (w1 & Hstep & Hpos & Hl1 & Hd1 & Hdrag1).
    destruct (IH w1 this gs (cs ++ [CallPanelHandleEvent this MouseMoved]) Hl1 Hd1)
      as (w' & cs' & Hrun & Hl' & Hd' & Hdrag' & Hlast').
    exists w', cs'. cbn [handleMoves]. rewrite Hstep. cbn [mbind option_bind].
    rewrite Hrun. repeat split; try assumption.
    + rewrite Hdrag'. exact Hdrag1.
    + intros mx' my' Hlast. destruct moves as [|m moves'].
      * simpl in Hlast. injection Hlast as <- <-.
        simpl in Hrun. injection Hrun as <- _. exact Hpos.
      * rewrite <- Hdrag1. apply Hlast'. exact Hlast.
Qed.

Lemma last_move_decides (w : ChildWindow Qc EM)
    (this : positive) (ox oy mx my : Qc) (moves : list (Qc * Qc))
    (gs : gmap positive ParentGroup) (cs : list Call) :
  m_Loaded w = true ->
  m_MouseDown w = true ->
  m_DraggingPosition w = mkVector2 ox oy ->
  exists w' cs',
    handleMoves Panel_handleEvent this (moves ++ [(mx, my)])
                (mkWorld (Some w) gs cs)
      = Some (mkWorld (Some w') gs cs') /\
    position w' = mkVector2 (mx - ox) (my - oy) /\
    m_MouseDown w' = true /\
    m_DraggingPosition w' = mkVector2 ox oy.
Proof using Type.
  intros Hl Hd Hdrag.
  destruct (moves_while_dragging (moves ++ [(mx, my)]) w this gs cs Hl Hd)
    as (w' & cs' & Hrun & _ & Hd' & Hdrag' & Hlast).
  exists w', cs'. split; [exact Hrun|]. split; [|split].
  - rewrite (Hlast mx my) by apply last_snoc. rewrite Hdrag. reflexivity.
  - exact Hd'.
  - rewrite Hdrag'. exact Hdrag.
Qed.

End Exact.

(** C5, as stated, fails in the arithmetic of the code: in single precision
    the window of [far_window], at [2^25], pressed 4 to the right of its
    position records the offset 4, and a move to 7 puts it at 4, not at
    [7 - 4]: the code adds [(mouse - position) - offset] to the position,
    and [7 - 2^25] is rounded. *)
Lemma drag_far_from_origin_is_inexact :
  (w1 ← window <$> handleEvent idle_handleEvent 2 MouseButtonPressed
                     (Binary32.of_Z (2 ^ 25 + 4)) (Binary32.of_Z 15)
                     (mkWorld (Some far_window) ∅ []);
   w2 ← window <$> handleEvent idle_handleEvent 2 MouseMoved
                     (Binary32.of_Z 7) (Binary32.of_Z 20)
                     (mkWorld w1 ∅ []);
   (fun w2 => (m_MouseDown <$> w1, m_DraggingPosition <$> w1, position w2)) <$> w2)
  = Some (Some true,
          Some (mkVector2 (Binary32.of_Z 4) (Binary32.of_Z 5)),
          mkVector2 (Binary32.of_Z 4) (Binary32.of_Z 15)) /\
  fsub (Binary32.of_Z 7) (Binary32.of_Z 4) = Binary32.of_Z 3 /\
  Binary32.of_Z 4 <> Binary32.of_Z 3.
Proof.
  split; [vm_compute; reflexivity|]. split; [vm_compute; reflexivity|].
  intros Heq. vm_compute in Heq. discriminate.
Qed.

(** C5, amended.  On a loaded window, in whatever arithmetic the code
    computes, a press on the title bar outside the close button holds the
    mouse down and records the offset [press - position]; with the mouse held
    down, a mouse move puts the window at
    [position + ((mouse - position) - offset)], computed in that order, and
    keeps the mouse down and the offset recorded.  Over exact arithmetic that
    position is exactly [(mx - ox, my - oy)] for the recorded offset
    [(ox, oy)], for every later mouse move to [(mx, my)], whatever moves came
    before it. *)
Theorem dragging_keeps_offset_under_cursor :
  (forall (F : Type) (SF : Scalar F) (EM : Type)
          (Panel_handleEvent : EventType -> F -> F -> ChildWindow F EM -> Panel EM)
          (w : ChildWindow F EM) (this : positive) (px py mx my : F)
          (gs : gmap positive ParentGroup) (cs : list Call),
     m_Loaded w = true ->
     (onTitleBar w px py = true ->
      Button_mouseOnObject px py (m_CloseButton (placeCloseButton w)) = false ->
      exists w1,
        handleEvent Panel_handleEvent this MouseButtonPressed px py
                    (mkWorld (Some w) gs cs)
          = Some (mkWorld (Some w1) gs cs) /\
        m_Loaded w1 = true /\ m_MouseDown w1 = true /\
        position w1 = position w /\
        m_DraggingPosition w1
          = mkVector2 (fsub px (vx (position w))) (fsub py (vy (position w)))) /\
     (m_MouseDown w = true ->
      exists w',
        handleEvent Panel_handleEvent this MouseMoved mx my
                    (mkWorld (Some w) gs cs)
          = Some (mkWorld (Some w') gs
                    (cs ++ [CallPanelHandleEvent this MouseMoved])) /\
        position w'
          = mkVector2
              (fadd (vx (position w))
                    (fsub (fsub mx (vx (position w)))
                          (vx (m_DraggingPosition w))))
              (fadd (vy (position w))
                    (fsub (fsub my (vy (position w)))
                          (vy (m_DraggingPosition w)))) /\
        m_Loaded w' = true /\ m_MouseDown w' = true /\
        m_DraggingPosition w' = m_DraggingPosition w)) /\
  (forall (EM : Type)
          (Panel_handleEvent : EventType -> Qc -> Qc -> ChildWindow Qc EM -> Panel EM)
          (w : ChildWindow Qc EM) (this : positive) (ox oy mx my : Qc)
          (moves : list (Qc * Qc))
          (gs : gmap positive ParentGroup) (cs : list Call),
     m_Loaded w = true ->
     m_MouseDown w = true ->
     m_DraggingPosition w = mkVector2 ox oy ->
     exists w' cs',
       handleMoves Panel_handleEvent this (moves ++ [(mx, my)])
                   (mkWorld (Some w) gs cs)
         = Some (mkWorld (Some w') gs cs') /\
       position w' = mkVector2 (mx - ox)%Qc (my - oy)%Qc /\
       m_MouseDown w' = true /\
       m_DraggingPosition w' = mkVector2 ox oy).
Proof.
  split.
  - intros F SF EM Panel_handleEvent w this px py mx my gs cs Hl. split.
    + intros Ht Hb. apply press_records_offset; assumption.
    + intros Hd. apply move_as_coded; assumption.
  - intros EM Panel_handleEvent w this ox oy mx my moves gs cs Hl Hd Hdrag.
    apply last_move_decides; assumption.
Qed.

(** *** The claims at concrete windows *)

Lemma demo_window_hit_regions :
  onTitleBar (demo_window (F := Binary32.float) 3)
             (Binary32.of_Z 15) (Binary32.of_Z 15) = true /\
  onCloseButton (demo_window (F := Binary32.float) 3)
                (Binary32.of_Z 15) (Binary32.of_Z 15) = false /\
  onCloseButton (demo_window (F := Binary32.float) 3)
                (Binary32.of_Z 195) (Binary32.of_Z 16) = true /\
  onCloseButton (demo_window (F := Binary32.float) 3)
                (Binary32.of_Z 203) (Binary32.of_Z 24) = true.
Proof. repeat split; vm_compute; reflexivity. Qed.

(** C7, as stated, fails: [setTransparency] changes a window that was never
    loaded. *)
Lemma setTransparency_changes_unloaded_window :
  m_Loaded (new_window (F := Binary32.float)) = false /\
  m_Opacity (new_window (F := Binary32.float)) = 255%N /\
  m_Opacity (setTransparency 0 (new_window (F := Binary32.float))) = 0%N /\
  setTransparency 0 (new_window (F := Binary32.float)) <> new_window.
Proof.
  repeat split. intros Heq. apply (f_equal m_Opacity) in Heq. discriminate.
Qed.

Lemma unloaded_window_guards_witness :
  handleEvent idle_handleEvent 2 MouseButtonPressed
              (Binary32.of_Z 15) (Binary32.of_Z 15)
              (mkWorld (Some new_window) ∅ [])
    = Some (mkWorld (Some new_window) ∅ []) /\
  setTitlebarHeight 30 (new_window (F := Binary32.float)) = Some new_window /\
  mouseOnObject idle_mouseOnObject id (Binary32.of_Z 15) (Binary32.of_Z 15)
                new_window = (false, new_window) /\
  m_Opacity (setTransparency 128 (new_window (F := Binary32.float))) = 128%N /\
  m_Borders (setBorders 1 2 3 4 (new_window (F := Binary32.float)))
    = (1%N, 2%N, 3%N, 4%N).
Proof.
  destruct (unloaded_window_guards idle_handleEvent idle_mouseOnObject id
              (new_window (F := Binary32.float)) 2%positive MouseButtonPressed
              (Binary32.of_Z 15) (Binary32.of_Z 15) 30%N ∅ [] eq_refl)
    as (He & Hh & Hm & Ht & Hb).
  split; [exact He|]. split; [exact Hh|]. split; [exact Hm|].
  split; [exact (proj1 (Ht 128%N)) | exact (proj1 (Hb 1%N 2%N 3%N 4%N))].
Defined.


Lemma dragging_keeps_offset_under_cursor_witness :
  (exists w1 w2 : ChildWindow Binary32.float unit,
     handleEvent idle_handleEvent 2 MouseButtonPressed
                 (Binary32.of_Z 15) (Binary32.of_Z 15) (demo_world 0)
       = Some (mkWorld (Some w1) {[ 1%positive := demo_parent ]} []) /\
     handleEvent idle_handleEvent 2 MouseMoved
                 (Binary32.of_Z 40) (Binary32.of_Z 48)
                 (mkWorld (Some w1) {[ 1%positive := demo_parent ]} [])
       = Some (mkWorld (Some w2) {[ 1%positive := demo_parent ]}
                 ([] ++ [CallPanelHandleEvent 2 MouseMoved])) /\
     position w2 = mkVector2 (Binary32.of_Z 35) (Binary32.of_Z 43)) /\
  (exists w1 w2 cs,
     handleEvent idle_handleEvent 2 MouseButtonPressed
                 (of_uint 15 : Qc) (of_uint 15 : Qc) (demo_world 0)
       = Some (mkWorld (Some w1) {[ 1%positive := demo_parent ]} []) /\
     position w1 = mkVector2 (of_uint 10) (of_uint 10) /\
     handleMoves idle_handleEvent 2 [(of_uint 40 : Qc, of_uint 48 : Qc)]
                 (mkWorld (Some w1) {[ 1%positive := demo_parent ]} [])
       = Some (mkWorld (Some w2) {[ 1%positive := demo_parent ]} cs) /\
     position w2 = mkVector2 (of_uint 35) (of_uint 43)).
Proof.
  split.
  - destruct (proj1 (proj1 dragging_keeps_offset_under_cursor
                       Binary32.float _ unit idle_handleEvent
                       (demo_window 0) 2%positive
                       (Binary32.of_Z 15) (Binary32.of_Z 15)
                       (Binary32.of_Z 15) (Binary32.of_Z 15)
                       {[ 1%positive := demo_parent ]} [] eq_refl))
      as (w1 & Hpress & Hl1 & Hd1 & Hpos1 & Hdrag1);
      [vm_compute; reflexivity | vm_compute; reflexivity |].
    destruct (proj2 (proj1 dragging_keeps_offset_under_cursor
                       Binary32.float _ unit idle_handleEvent
                       w1 2%positive
                       (Binary32.of_Z 15) (Binary32.of_Z 15)
                       (Binary32.of_Z 40) (Binary32.of_Z 48)
                       {[ 1%positive := demo_parent ]} [] Hl1) Hd1)
      as (w2 & Hmove & Hpos2 & _).
    exists w1, w2. split; [exact Hpress|]. split; [exact Hmove|].
    rewrite Hpos2, Hpos1, Hdrag1. vm_compute. reflexivity.
  - destruct (proj1 (proj1 dragging_keeps_offset_under_cursor
                       Qc _ unit idle_handleEvent
                       (demo_window 0) 2%positive
                       (of_uint 15) (of_uint 15) (of_uint 15) (of_uint 15)
                       {[ 1%positive := demo_parent ]} [] eq_refl))
      as (w1 & Hpress & Hl1 & Hd1 & Hpos1 & Hdrag1);
      [vm_compute; reflexivity | vm_compute; reflexivity |].
    destruct (proj2 dragging_keeps_offset_under_cursor
                unit idle_handleEvent w1 2%positive
                (of_uint 15 - of_uint 10)%Qc (of_uint 15 - of_uint 10)%Qc
                (of_uint 40) (of_uint 48) []
                {[ 1%positive := demo_parent ]} [] Hl1 Hd1 Hdrag1)
      as (w2 & cs & Hmoves & Hpos2 & _).
    exists w1, w2, cs. split; [exact Hpress|]. split; [exact Hpos1|].
    split; [exact Hmoves|]. rewrite Hpos2.
    f_equal; apply Qc_is_canon; reflexivity.
Defined.

(** The drag scenario computed in single precision: a window at (10, 10)
    pressed at (15, 15) and moved to (40, 48) ends at (35, 43). *)
Lemma drag_scenario_binary32 :
  (w1 ← window <$> handleEvent idle_handleEvent 2 MouseButtonPressed
                     (Binary32.of_Z 15) (Binary32.of_Z 15) (demo_world 0);
   w2 ← window <$> handleEvent idle_handleEvent 2 MouseMoved
                     (Binary32.of_Z 40) (Binary32.of_Z 48)
                     (mkWorld w1 {[ 1%positive := demo_parent ]} []);
   position <$> w2)
  = Some (mkVector2 (Binary32.of_Z 35) (Binary32.of_Z 43)).
Proof. vm_compute. reflexivity. Qed.

End ChildWindowClaims.

(** * More about groups: lookups after insertions, the two copies, invariants *)

Module GroupMore.
Import Group GroupFacts GroupInvariant GroupExamples MoreExamples.

Lemma get_loop_app_found objs objectName names : forall i extra r,
  get_loop objs objectName i names = Some (Some r) ->
  forall objs', get_loop (objs ++ objs') objectName i (names ++ extra)
                = Some (Some r).
Proof.
  induction names as [|n names IH]; intros i extra r Hget objs'; simpl in *.
  - discriminate.
  - destruct (String.eqb n objectName).
    + destruct (objs !! i) as [p|] eqn:Hp; simpl in Hget; [|discriminate].
      rewrite (lookup_app_l_Some _ _ _ _ Hp). exact Hget.
    + apply IH. exact Hget.
Qed.

Lemma get_loop_app_null objs objectName names : forall i p name,
  get_loop objs objectName i names = Some None ->
  length objs = i + length names ->
  get_loop (objs ++ [p]) objectName i (names ++ [name])
  = if String.eqb name objectName then Some (Some p) else Some None.
Proof.
  induction names as [|n names IH]; intros i p name Hget Hlen; simpl in *.
  - rewrite lookup_app_r by lia.
    replace (i - length objs) with 0 by lia. simpl.
    destruct (String.eqb name objectName); reflexivity.
  - destruct (String.eqb n objectName).
    + destruct (objs !! i); simpl in Hget; discriminate.
    + apply IH; [exact Hget | lia].
Qed.

Lemma get_loop_defined objs objectName names : forall i,
  length objs = i + length names ->
  get_loop objs objectName i names <> None.
Proof.
  induction names as [|n names IH]; intros i Hlen; simpl in *.
  - discriminate.
  - destruct (String.eqb n objectName).
    + destruct (lookup_lt_is_Some_2 objs i) as [p ->]; [lia|]. discriminate.
    + apply IH. lia.
Qed.

Lemma get_push_back (g : Group) p name objectName :
  well_formed g ->
  get objectName (push_back p name g)
  = get_after_push_back (get objectName g) p name objectName.
Proof.
  intros Hwf. unfold get, push_back. simpl.
  destruct (get_loop (m_Objects g) objectName 0 (m_ObjName g))
    as [[r|]|] eqn:Hget; simpl.
  - apply get_loop_app_found. exact Hget.
  - apply get_loop_app_null; [exact Hget | exact Hwf].
  - exfalso. apply (get_loop_defined (m_Objects g) objectName (m_ObjName g) 0);
      [exact Hwf | exact Hget].
Qed.

Lemma get_loop_sound objs objectName names : forall i p,
  get_loop objs objectName i names = Some (Some p) ->
  exists k, names !! k = Some objectName /\
            (forall j, j < k -> names !! j <> Some objectName) /\
            objs !! (i + k) = Some p.
Proof.
  induction names as [|n names IH]; intros i p Hget; simpl in *.
  - discriminate.
  - destruct (String.eqb n objectName) eqn:E.
    + apply String.eqb_eq in E. subst n.
      destruct (objs !! i) as [q|] eqn:Hq; simpl in Hget; [|discriminate].
      injection Hget as ->. exists 0. rewrite Nat.add_0_r.
      split; [reflexivity|]. split; [intros j Hj; lia | exact Hq].
    + apply String.eqb_neq in E.
      destruct (IH (S i) p Hget) as (k & Hk & Hfirst & Hp).
      exists (S k). split; [exact Hk|]. split.
      * intros [|j] Hj; simpl; [congruence | apply Hfirst; lia].
      * rewrite <- Hp. f_equal. lia.
Qed.

Lemma get_loop_null_absent objs objectName names : forall i,
  get_loop objs objectName i names = Some None -> objectName ∉ names.
Proof.
  induction names as [|n names IH]; intros i Hget Hin; simpl in *.
  - inversion Hin.
  - destruct (String.eqb n objectName) eqn:E.
    + destruct (objs !! i); simpl in Hget; discriminate.
    + apply String.eqb_neq in E.
      apply elem_of_cons in Hin as [-> | Hin]; [congruence|].
      exact (IH (S i) Hget Hin).
Qed.

Lemma get_sound_and_complete_aux (g : Group) (objectName : string) :
  well_formed g ->
  get objectName g <> None /\
  (forall p, get objectName g = Some (Some p) ->
     exists k, m_ObjName g !! k = Some objectName /\
               (forall j, j < k -> m_ObjName g !! j <> Some objectName) /\
               m_Objects g !! k = Some p).
Proof.
  intros Hwf. split.
  - apply get_loop_defined. exact Hwf.
  - intros p Hget. apply get_loop_sound in Hget. exact Hget.
Qed.

(** X5.  On a group whose vectors are equally long [get] never reads out of
    range; it answers [NULL] exactly when no child carries the name; and a
    widget it returns is the child stored beside the first occurrence of
    the name. *)
Theorem get_sound_and_complete (g : Group) (objectName : string) :
  well_formed g ->
  get objectName g <> None /\
  (get objectName g = Some None <-> objectName ∉ m_ObjName g) /\
  (forall p, get objectName g = Some (Some p) ->
     exists k, m_ObjName g !! k = Some objectName /\
               (forall j, j < k -> m_ObjName g !! j <> Some objectName) /\
               m_Objects g !! k = Some p).
Proof.
  intros Hwf. split; [|split].
  - apply get_loop_defined. exact Hwf.
  - split; [apply get_loop_null_absent | apply get_loop_no_match].
  - intros p Hget. apply get_loop_sound in Hget. exact Hget.
Qed.

Lemma get_sound_and_complete_witness :
  get "ok" three_children <> None /\
  (get "gone" three_children = Some None <-> "gone"%string ∉ m_ObjName three_children) /\
  exists k, m_ObjName three_children !! k = Some "ok"%string /\
            m_Objects three_children !! k = Some 3%positive.
Proof.
  destruct (get_sound_and_complete three_children "ok" eq_refl) as (Hdef & _ & Hs).
  split; [exact Hdef|].
  split; [exact (proj1 (proj2 (get_sound_and_complete three_children "gone" eq_refl)))|].
  destruct (Hs 3%positive eq_refl) as (k & Hk & _ & Hp).
  exists k. split; assumption.
Defined.

(** A widget that [get] finds is listed in the group. *)
Lemma get_found_listed (g : Group) objectName q :
  get objectName g = Some (Some q) -> q ∈ m_Objects g.
Proof.
  intros Hget. apply get_loop_sound in Hget as (k & _ & _ & Hq).
  apply list_elem_of_lookup. exists k. exact Hq.
Qed.

(** Lookups in a group to which a widget at an address that was not in use
    has been pushed. *)
Lemma get_push_back_new {St : Type} (g : Group) (h : gmap positive (OBJECT St))
    p name queried :
  well_formed g ->
  (forall q, q ∈ m_Objects g -> is_Some (h !! q)) ->
  h !! p = None ->
  (forall q, get queried g = Some (Some q) -> q <> p) /\
  (get queried (push_back p name g) = Some (Some p)
   <-> queried = name /\ name ∉ m_ObjName g).
Proof.
  intros Hwf Hlive Hfresh.
  assert (Hold : forall q, get queried g = Some (Some q) -> q <> p).
  { intros q Hget ->. destruct (Hlive p (get_found_listed _ _ _ Hget)) as [o Ho].
    rewrite Hfresh in Ho. discriminate. }
  split; [exact Hold|]. rewrite get_push_back by exact Hwf. split.
  - destruct (get queried g) as [[r|]|] eqn:Hget; simpl.
    + intros Hr. injection Hr as ->. exfalso. exact (Hold p eq_refl eq_refl).
    + destruct (String.eqb name queried) eqn:E; [|discriminate].
      apply String.eqb_eq in E. subst queried. intros _.
      split; [reflexivity|]. apply (get_loop_null_absent _ _ _ _ Hget).
    + discriminate.
  - intros [-> Hnot]. unfold get. rewrite get_loop_no_match by exact Hnot.
    simpl. rewrite String.eqb_refl. reflexivity.
Qed.

Section WithWidget.
Context {St : Type}.
Variable alloc : gmap positive (OBJECT St) -> positive.
Variable T_new : OBJECT St.
Variable T_initialize : OBJECT St -> OBJECT St.
Variable T_copy : OBJECT St -> OBJECT St.
Hypothesis alloc_fresh : forall h, h !! alloc h = None.

(** X1.  After [add] on a group whose listed widgets are live, [get]
    returns the new widget exactly for the name it was added under, and
    only when that name was not in use: a name that was in use keeps
    leading to the older widget, which is not the new one (the new one
    cannot be reached by name), and every other name is answered as
    before. *)
Theorem add_then_get this objectName g h (queried : string) :
  well_formed g ->
  (forall q, q ∈ m_Objects g -> is_Some (h !! q)) ->
  let '(p, g', h') := add alloc T_new T_initialize this objectName g h in
  (objectName ∉ m_ObjName g -> get objectName g' = Some (Some p)) /\
  (forall q, get objectName g = Some (Some q) ->
             get objectName g' = Some (Some q) /\ q <> p) /\
  (get queried g' = Some (Some p)
   <-> queried = objectName /\ objectName ∉ m_ObjName g) /\
  (queried <> objectName -> get queried g' = get queried g) /\
  well_formed g'.
Proof using alloc_fresh.
  intros Hwf Hlive. unfold add. cbn zeta.
  destruct (get_push_back_new g h (alloc h) objectName objectName
              Hwf Hlive (alloc_fresh h)) as [Hold _].
  destruct (get_push_back_new g h (alloc h) objectName queried
              Hwf Hlive (alloc_fresh h)) as [_ Hiff].
  split; [|split; [|split; [|split]]].
  - intros Hnot. rewrite get_push_back by exact Hwf.
    unfold get. rewrite get_loop_no_match by exact Hnot. simpl.
    rewrite String.eqb_refl. reflexivity.
  - intros q Hq. split; [|exact (Hold q Hq)].
    rewrite get_push_back by exact Hwf. rewrite Hq. reflexivity.
  - exact Hiff.
  - intros Hne. rewrite get_push_back by exact Hwf.
    destruct (get queried g) as [[r|]|]; simpl; try reflexivity.
    destruct (String.eqb objectName queried) eqn:E; [|reflexivity].
    apply String.eqb_eq in E. congruence.
  - unfold well_formed, push_back in *. simpl. rewrite !length_app. simpl. lia.
Qed.

(** X2.  [copy] by handle, on a group whose listed widgets are live,
    changes lookups like [add] does: [get] returns the clone exactly for
    the new name and only when that name was not in use; a lookup that
    found a widget before the copy finds the same widget after it, and
    that widget is not the clone; every name but the new one is answered
    as before. *)
Theorem copy_then_get oldObject newObjectName g h (queried : string) p g' h' :
  well_formed g ->
  (forall q, q ∈ m_Objects g -> is_Some (h !! q)) ->
  copy alloc T_copy oldObject newObjectName g h = Some (p, g', h') ->
  (newObjectName ∉ m_ObjName g -> get newObjectName g' = Some (Some p)) /\
  (forall q, get queried g = Some (Some q) ->
             get queried g' = Some (Some q) /\ q <> p) /\
  (get queried g' = Some (Some p)
   <-> queried = newObjectName /\ newObjectName ∉ m_ObjName g) /\
  (queried <> newObjectName -> get queried g' = get queried g) /\
  well_formed g'.
Proof using alloc_fresh.
  intros Hwf Hlive Hcopy. unfold copy in Hcopy.
  destruct (h !! oldObject) as [old|]; simpl in Hcopy; [|discriminate].
  injection Hcopy as <- <- <-.
  destruct (get_push_back_new g h (alloc h) newObjectName queried
              Hwf Hlive (alloc_fresh h)) as [Hold Hiff].
  split; [|split; [|split; [|split]]].
  - intros Hnot. rewrite get_push_back by exact Hwf.
    unfold get. rewrite get_loop_no_match by exact Hnot. simpl.
    rewrite String.eqb_refl. reflexivity.
  - intros q Hq. split; [|exact (Hold q Hq)].
    rewrite get_push_back by exact Hwf. rewrite Hq. reflexivity.
  - exact Hiff.
  - intros Hne. rewrite get_push_back by exact Hwf.
    destruct (get queried g) as [[r|]|]; simpl; try reflexivity.
    destruct (String.eqb newObjectName queried) eqn:E; [|reflexivity].
    apply String.eqb_eq in E. congruence.
  - unfold well_formed, push_back in *. simpl. rewrite !length_app. simpl. lia.
Qed.

Lemma copy_loop_get oldObjectName newObjectName g h names : forall i,
  copy_loop alloc T_copy oldObjectName newObjectName g h i names
  = copy_found alloc T_copy (get_loop (m_Objects g) oldObjectName i names)
               newObjectName g h.
Proof using Type.
  induction names as [|n names IH]; intros i; simpl.
  - reflexivity.
  - destruct (String.eqb n oldObjectName); [|apply IH].
    destruct (m_Objects g !! i) as [p|]; reflexivity.
Qed.

(** X3.  The by-name [copy] is the by-handle [copy] of what [get] finds
    under the old name: it returns [NULL] and changes nothing when no
    child carries that name, and otherwise clones the first child that
    does. *)
Theorem copy_by_name_is_get_then_copy oldObjectName newObjectName g h :
  copy_by_name alloc T_copy oldObjectName newObjectName g h
  = match get oldObjectName g with
    | None => None
    | Some None => Some (None, g, h)
    | Some (Some p) =>
        '(newObject, g', h') ← copy alloc T_copy p newObjectName g h;
        Some (Some newObject, g', h')
    end.
Proof using Type.
  unfold copy_by_name. rewrite copy_loop_get. reflexivity.
Qed.

Lemma group_ok_push_fresh (g : Group) (h : gmap positive (OBJECT St))
    (o : OBJECT St) name :
  group_ok g h ->
  group_ok (push_back (alloc h) name g) (<[alloc h := o]> h).
Proof using alloc_fresh.
  intros (Hwf & Hnd & Hlive). split; [|split].
  - unfold well_formed, push_back in *. simpl. rewrite !length_app. simpl. lia.
  - simpl. apply NoDup_app. split; [exact Hnd|]. split.
    + intros x Hx Hx'. apply list_elem_of_singleton in Hx'. subst x.
      destruct (Hlive _ Hx) as [o' Ho']. rewrite alloc_fresh in Ho'. discriminate.
    + apply NoDup_singleton.
  - intros q Hq. simpl in Hq. apply elem_of_app in Hq as [Hq | Hq].
    + destruct (decide (q = alloc h)) as [->|Hne].
      * rewrite lookup_insert_eq. eauto.
      * rewrite lookup_insert_ne by congruence. apply Hlive, Hq.
    + apply list_elem_of_singleton in Hq. subst q. rewrite lookup_insert_eq. eauto.
Qed.

(** X4.  [add] and both [copy] functions keep a group in order: the two
    vectors stay equally long, no widget is listed twice, and every
    listed widget is live; the by-name [copy] of a group in order never
    reads out of range nor through a dead pointer. *)
Theorem add_and_copy_keep_group_ok this name oldObject g h :
  group_ok g h ->
  (let '(p, g', h') := add alloc T_new T_initialize this name g h in
   group_ok g' h') /\
  (forall p g' h',
     copy alloc T_copy oldObject name g h = Some (p, g', h') -> group_ok g' h') /\
  (forall oldObjectName,
     exists r g' h',
       copy_by_name alloc T_copy oldObjectName name g h = Some (r, g', h') /\
       group_ok g' h').
Proof using alloc_fresh.
  intros Hok. split; [|split].
  - unfold add. cbn zeta. rewrite !alter_insert_eq.
    apply group_ok_push_fresh. exact Hok.
  - intros p g' h' Hcopy. unfold copy in Hcopy.
    destruct (h !! oldObject) as [old|]; simpl in Hcopy; [|discriminate].
    injection Hcopy as <- <- <-. apply group_ok_push_fresh. exact Hok.
  - intros oldObjectName. unfold copy_by_name.
    rewrite copy_loop_get. unfold copy_found.
    change (get_loop (m_Objects g) oldObjectName 0 (m_ObjName g))
      with (get oldObjectName g).
    destruct Hok as (Hwf & Hnd & Hlive).
    destruct (get_sound_and_complete_aux g oldObjectName Hwf) as [Hdef Hsound].
    destruct (get oldObjectName g) as [[p|]|] eqn:Hget.
    + destruct (Hsound p eq_refl) as (k & _ & _ & Hp).
      destruct (Hlive p) as [old Hold].
      { apply list_elem_of_lookup. eauto. }
      unfold copy. rewrite Hold. simpl.
      eexists _, _, _. split; [reflexivity|].
      apply group_ok_push_fresh. split; [|split]; assumption.
    + eexists _, _, _. split; [reflexivity|]. split; [|split]; assumption.
    + contradiction.
Qed.
End WithWidget.

Lemma first_free_is_free {St : Type} (h : gmap positive (OBJECT St)) :
  h !! first_free h = None.
Proof. apply not_elem_of_dom. apply is_fresh. Qed.

Lemma three_heap_ok : group_ok three_children three_heap.
Proof.
  split; [reflexivity|]. split.
  - apply (bool_decide_unpack _). vm_compute. exact I.
  - intros p Hp. simpl in Hp.
    repeat (apply elem_of_cons in Hp as [-> | Hp]; [vm_compute; eauto|]).
    apply elem_of_nil in Hp. contradiction.
Qed.

Lemma add_then_get_witness :
  (let '(p, g', h') :=
     add first_free label_new label_initialize 1 "new" three_children
         three_heap in
   get "new" g' = Some (Some p) /\
   get "missing" g' = Some None) /\
  (let '(p, g', h') :=
     add first_free label_new label_initialize 1 "ok" three_children
         three_heap in
   get "ok" g' = Some (Some 3%positive) /\
   3%positive <> p /\
   get "ok" g' <> Some (Some p)).
Proof.
  destruct three_heap_ok as (Hwf & _ & Hlive).
  split.
  - pose proof (add_then_get first_free label_new label_initialize
                  first_free_is_free 1%positive "new"%string three_children
                  three_heap "missing"%string Hwf Hlive) as Hadd.
    destruct (add first_free label_new label_initialize 1 "new" three_children
                  three_heap) as [[p g'] h'].
    destruct Hadd as (Hnew & _ & _ & Hother & _).
    split.
    + apply Hnew. apply (bool_decide_unpack _). vm_compute. exact I.
    + rewrite Hother by discriminate. reflexivity.
  - pose proof (add_then_get first_free label_new label_initialize
                  first_free_is_free 1%positive "ok"%string three_children
                  three_heap "ok"%string Hwf Hlive) as Hadd.
    destruct (add first_free label_new label_initialize 1 "ok" three_children
                  three_heap) as [[p g'] h'].
    destruct Hadd as (_ & Hkept & Hiff & _).
    destruct (Hkept 3%positive eq_refl) as [Hget Hne].
    split; [exact Hget|]. split; [exact Hne|].
    intros Hp. apply Hiff in Hp as [_ Hnot]. apply Hnot.
    apply (bool_decide_unpack _). vm_compute. exact I.
Defined.

Lemma copy_then_get_witness :
  exists p g' h',
    copy first_free label_copy 5 "ok" three_children three_heap
    = Some (p, g', h') /\
    m_Objects g' = [3%positive; 5%positive; 8%positive; p] /\
    get "ok" g' = Some (Some 3%positive) /\
    3%positive <> p /\
    get "" g' = Some (Some 5%positive).
Proof.
  destruct three_heap_ok as (Hwf & _ & Hlive).
  destruct (copy first_free label_copy 5 "ok" three_children three_heap)
    as [[[p g'] h']|] eqn:Hcopy; [|vm_compute in Hcopy; discriminate].
  exists p, g', h'. split; [reflexivity|].
  destruct (copy_then_get first_free label_copy first_free_is_free
              5%positive "ok"%string three_children
              three_heap "ok"%string p g' h' Hwf Hlive Hcopy)
    as (_ & Hkept & _ & _).
  destruct (copy_then_get first_free label_copy first_free_is_free
              5%positive "ok"%string three_children
              three_heap ""%string p g' h' Hwf Hlive Hcopy)
    as (_ & _ & _ & Hother & _).
  destruct (Hkept 3%positive eq_refl) as [Hget Hne].
  split; [|split; [|split]].
  - unfold copy in Hcopy. destruct (three_heap !! 5%positive); simpl in Hcopy;
      [|discriminate].
    injection Hcopy as <- <- _. reflexivity.
  - exact Hget.
  - exact Hne.
  - rewrite Hother by discriminate. reflexivity.
Defined.

Lemma add_and_copy_keep_group_ok_witness :
  (let '(p, g', h') :=
     add first_free label_new label_initialize 1 "new" three_children
         three_heap in
   group_ok g' h') /\
  exists r g' h',
    copy_by_name first_free label_copy "ok" "new" three_children three_heap
    = Some (r, g', h') /\
    group_ok g' h'.
Proof.
  destruct (add_and_copy_keep_group_ok first_free label_new label_initialize
              label_copy first_free_is_free 1%positive "new"%string 3%positive
              three_children three_heap three_heap_ok)
    as (Hadd & _ & Hname).
  split; [exact Hadd | exact (Hname "ok"%string)].
Defined.

End GroupMore.

(** * More about the layout: idempotence, relative ratios, overfull boxes,
      vectors of unequal length *)

Module LayoutMore.
Import Layout LayoutFacts LayoutVariations LayoutExamples MoreExamples.

Section WithScalar.
Context {F : Type} `{Scalar F}.

Lemma place_forgets_widgets E Ey sF sR (ws1 : list (Widget F)) :
  forall ws2 rs fs cR cO,
  length ws1 = length ws2 ->
  place E Ey sF sR cR cO ws1 rs fs = place E Ey sF sR cR cO ws2 rs fs.
Proof.
  induction ws1 as [|w1 ws1 IH]; intros [|w2 ws2] rs fs cR cO Hlen;
    simpl in *; try lia; try reflexivity.
  destruct rs as [|r rs]; [reflexivity|]. destruct fs as [|f fs]; [reflexivity|].
  destruct (truthy f); unfold setSize, setPosition; simpl;
    f_equal; apply IH; lia.
Qed.

(** X6.  The update reads nothing of the widgets it places: two layouts with
    the same size, ratios, fixed sizes and number of widgets are laid out
    alike, and updating a layout that was just updated changes nothing. *)
Theorem updateWidgetPositions_idempotent (hl1 hl2 : HorizontalLayout F) :
  well_formed hl1 ->
  same_policy hl1 hl2 ->
  exists hl',
    updateWidgetPositions hl1 = Some hl' /\
    updateWidgetPositions hl2 = Some hl' /\
    updateWidgetPositions hl' = Some hl'.
Proof.
  intros Hwf1 (Hsize & Hlen & Hrs & Hfs).
  assert (Hwf2 : well_formed hl2).
  { destruct Hwf1 as [Hr Hf]. split; rewrite <- ?Hrs, <- ?Hfs, <- Hlen; assumption. }
  pose proof (updateWidgetPositions_zipped hl1 Hwf1) as H1.
  pose proof (updateWidgetPositions_zipped hl2 Hwf2) as H2.
  eexists. split; [exact H1|].
  assert (Hsame :
    place (vx (m_size hl2)) (vy (m_size hl2)) (sumFixedSize hl2)
          (ratio_sum (m_widgetsRatio hl2) (m_widgetsFixedSizes hl2))
          fzero fzero (m_layoutWidgets hl2) (m_widgetsRatio hl2)
          (m_widgetsFixedSizes hl2)
    = place (vx (m_size hl1)) (vy (m_size hl1)) (sumFixedSize hl1)
          (ratio_sum (m_widgetsRatio hl1) (m_widgetsFixedSizes hl1))
          fzero fzero (m_layoutWidgets hl1) (m_widgetsRatio hl1)
          (m_widgetsFixedSizes hl1)).
  { unfold sumFixedSize. rewrite <- Hsize, <- Hrs, <- Hfs.
    apply place_forgets_widgets. symmetry. exact Hlen. }
  split.
  - rewrite H2, Hsame, <- Hsize, <- Hrs, <- Hfs. reflexivity.
  - rewrite updateWidgetPositions_zipped.
    + simpl. unfold sumFixedSize. simpl. f_equal. f_equal.
      apply place_forgets_widgets.
      destruct Hwf1 as [Hr Hf]. apply place_length; assumption.
    + destruct Hwf1 as [Hr Hf]. split; simpl; rewrite place_length; assumption.
Qed.

Lemma foldl_sumRatio_step_None (hl : HorizontalLayout F) l :
  foldl (sumRatio_step hl) None l = None.
Proof. induction l as [|i l IH]; simpl; [reflexivity | exact IH]. Qed.

Lemma foldl_place_step_None (hl : HorizontalLayout F) sR sF l :
  foldl (place_step hl sR sF) None l = None.
Proof. induction l as [|i l IH]; simpl; [reflexivity | exact IH]. Qed.

Lemma sumRatio_out_of_range (hl : HorizontalLayout F) :
  length (m_widgetsFixedSizes hl) < length (m_widgetsRatio hl) ->
  sumRatio hl = None.
Proof.
  intros Hlt. unfold sumRatio.
  set (k := length (m_widgetsFixedSizes hl)).
  replace (length (m_widgetsRatio hl))
    with (k + S (length (m_widgetsRatio hl) - S k)) by lia.
  rewrite seq_app, foldl_app. simpl.
  destruct (foldl (sumRatio_step hl) (Some fzero) (seq 0 k)) as [acc|]; simpl.
  - rewrite (lookup_ge_None_2 (m_widgetsFixedSizes hl) k) by (unfold k; lia).
    simpl. apply foldl_sumRatio_step_None.
  - apply foldl_sumRatio_step_None.
Qed.

Lemma place_out_of_range (hl : HorizontalLayout F) sR sF st :
  length (m_widgetsFixedSizes hl) < length (m_layoutWidgets hl) ->
  foldl (place_step hl sR sF) (Some st) (seq 0 (length (m_layoutWidgets hl)))
  = None.
Proof.
  intros Hlt.
  set (k := length (m_widgetsFixedSizes hl)).
  replace (length (m_layoutWidgets hl))
    with (k + S (length (m_layoutWidgets hl) - S k)) by lia.
  rewrite seq_app, foldl_app. simpl.
  destruct (foldl (place_step hl sR sF) (Some st) (seq 0 k)) as [acc|]; simpl.
  - destruct (widgets acc !! k); simpl.
    + rewrite (lookup_ge_None_2 (m_widgetsFixedSizes hl) k) by (unfold k; lia).
      simpl. apply foldl_place_step_None.
    + apply foldl_place_step_None.
  - apply foldl_place_step_None.
Qed.

(** X9.  The update reads a fixed size for every ratio and for every
    widget: with fewer fixed sizes than ratios, or fewer than widgets, it
    reads [m_widgetsFixedSizes] out of range. *)
Theorem updateWidgetPositions_needs_fixed_sizes (hl : HorizontalLayout F) :
  length (m_widgetsFixedSizes hl) < length (m_widgetsRatio hl) \/
  length (m_widgetsFixedSizes hl) < length (m_layoutWidgets hl) ->
  updateWidgetPositions hl = None.
Proof.
  intros [Hlt | Hlt]; unfold updateWidgetPositions.
  - rewrite sumRatio_out_of_range by exact Hlt. reflexivity.
  - destruct (sumRatio hl) as [sR|]; simpl; [|reflexivity].
    rewrite place_out_of_range by exact Hlt. reflexivity.
Qed.
End WithScalar.

Section Exact.
Local Open Scope Qc_scope.

Lemma scaled_quotient (k r sR : Qc) :
  k <> 0 -> sR <> 0 -> (k * r) / (k * sR) = r / sR.
Proof. intros Hk HsR. field. split; assumption. Qed.

Lemma scaled_size (k x r sR : Qc) :
  k <> 0 -> sR <> 0 -> x * (k * r) / (k * sR) = x * r / sR.
Proof. intros Hk HsR. field. split; assumption. Qed.

Lemma ratio_sum_scale_acc (k : Qc) (rs : list Qc) : forall fs acc,
  foldl (fun a (rf : Qc * Qc) => if feqb rf.2 fzero then fadd a rf.1 else a)
        (k * acc) (zip (map (Qcmult k) rs) fs)
  = k * foldl (fun a (rf : Qc * Qc) => if feqb rf.2 fzero then fadd a rf.1 else a)
              acc (zip rs fs).
Proof.
  induction rs as [|r rs IH]; intros [|f fs] acc; simpl; try reflexivity.
  destruct (bool_decide (f = 0)); [|apply IH].
  rewrite <- IH. f_equal. ring.
Qed.

Lemma ratio_sum_scale (k : Qc) rs fs :
  ratio_sum (map (Qcmult k) rs) fs = k * ratio_sum rs fs.
Proof.
  unfold ratio_sum. rewrite <- ratio_sum_scale_acc. f_equal.
  simpl. ring.
Qed.

Lemma place_scale (k E Ey sF sR : Qc) ws : forall rs fs cR cO,
  k <> 0 -> sR <> 0 ->
  place E Ey sF (k * sR) cR cO ws (map (Qcmult k) rs) fs
  = place E Ey sF sR cR cO ws rs fs.
Proof.
  induction ws as [|w ws IH]; intros [|r rs] [|f fs] cR cO Hk HsR;
    simpl; try reflexivity.
  destruct (truthy f).
  - f_equal. apply IH; assumption.
  - rewrite scaled_size, scaled_quotient by assumption.
    f_equal. apply IH; assumption.
Qed.

(** X7.  Ratios are relative: over exact arithmetic, multiplying every
    ratio by the same nonzero factor places and sizes every widget as
    before, provided the ratio sum is not zero. *)
Theorem ratios_are_relative (k : Qc) (hl : HorizontalLayout Qc) (sR : Qc) :
  well_formed hl ->
  k <> 0 ->
  sumRatio hl = Some sR -> sR <> 0 ->
  exists hl' hl'',
    updateWidgetPositions hl = Some hl' /\
    updateWidgetPositions (scale_ratios k hl) = Some hl'' /\
    m_layoutWidgets hl'' = m_layoutWidgets hl'.
Proof.
  intros Hwf Hk HsR Hne.
  rewrite (sumRatio_zipped hl Hwf) in HsR. injection HsR as HsR.
  assert (Hwf' : well_formed (scale_ratios k hl)).
  { destruct Hwf as [Hr Hf]. split; simpl; [rewrite length_map|]; assumption. }
  eexists _, _. split; [apply updateWidgetPositions_zipped, Hwf|].
  split; [apply updateWidgetPositions_zipped, Hwf'|].
  simpl. unfold sumFixedSize. simpl.
  rewrite ratio_sum_scale. apply place_scale; [exact Hk|].
  rewrite HsR. exact Hne.
Qed.

(** X8.  Nothing is clamped: over exact arithmetic, when the fixed sizes add
    up to more than the extent of the box, a ratio-sized child with a
    positive ratio (the ratio sum being positive) is given a negative
    size. *)
Theorem overfull_box_gives_negative_size (hl : HorizontalLayout Qc)
    (sR r : Qc) (i : nat) :
  well_formed hl ->
  vx (m_size hl) < sumFixedSize hl ->
  sumRatio hl = Some sR -> 0 < sR ->
  m_widgetsFixedSizes hl !! i = Some 0 ->
  m_widgetsRatio hl !! i = Some r -> 0 < r ->
  exists hl' w',
    updateWidgetPositions hl = Some hl' /\
    m_layoutWidgets hl' !! i = Some w' /\
    vx (size w') < 0.
Proof.
  intros Hwf Hover HsR HsRpos Hf Hr Hrpos.
  destruct (updateWidgetPositions_sizes hl Hwf) as (hl' & Hup & Hsz).
  destruct (Hsz i r 0 sR Hr Hf HsR) as (w' & Hw' & Hx).
  exists hl', w'. split; [exact Hup|]. split; [exact Hw'|].
  assert (Hz : feqb (0 : Qc) fzero = true)
    by (apply bool_decide_eq_true_2; reflexivity).
  rewrite Hx, Hz. cbn [fdiv fmul fsub Qc_scalar].
  apply Qclt_minus_iff.
  replace (0 + - ((vx (m_size hl) - sumFixedSize hl) * r / sR))
    with ((sumFixedSize hl + - vx (m_size hl)) * r * / sR)
    by (unfold Qcdiv; ring).
  apply Qcmult_pos_pos; [apply Qcmult_pos_pos|].
  - apply Qclt_minus_iff in Hover. exact Hover.
  - exact Hrpos.
  - apply Qcinv_pos. exact HsRpos.
Qed.
End Exact.

Lemma updateWidgetPositions_idempotent_witness :
  exists hl',
    updateWidgetPositions mixed_layout32 = Some hl' /\
    updateWidgetPositions moved_layout32 = Some hl' /\
    updateWidgetPositions hl' = Some hl'.
Proof.
  apply (updateWidgetPositions_idempotent mixed_layout32 moved_layout32).
  - split; reflexivity.
  - repeat split.
Defined.

Lemma updateWidgetPositions_needs_fixed_sizes_witness :
  updateWidgetPositions short_layout = None.
Proof.
  apply (updateWidgetPositions_needs_fixed_sizes short_layout).
  left. simpl. lia.
Defined.

Lemma ratios_are_relative_witness :
  exists hl' hl'',
    updateWidgetPositions mixed_layout = Some hl' /\
    updateWidgetPositions (scale_ratios (Q2Qc 5) mixed_layout) = Some hl'' /\
    m_layoutWidgets hl'' = m_layoutWidgets hl'.
Proof.
  destruct (sumRatio mixed_layout) as [sR|] eqn:HsR;
    [|vm_compute in HsR; discriminate].
  apply (ratios_are_relative (Q2Qc 5) mixed_layout sR).
  - split; reflexivity.
  - intros E. apply (f_equal this) in E. vm_compute in E. discriminate.
  - exact HsR.
  - intros ->. vm_compute in HsR. discriminate.
Defined.

Lemma overfull_box_gives_negative_size_witness :
  exists hl' w',
    updateWidgetPositions overfull_layout = Some hl' /\
    m_layoutWidgets hl' !! 0%nat = Some w' /\
    (vx (size w') < 0)%Qc.
Proof.
  destruct (sumRatio overfull_layout) as [sR|] eqn:HsR;
    [|vm_compute in HsR; discriminate].
  apply (overfull_box_gives_negative_size overfull_layout sR (Q2Qc 1) 0).
  - split; reflexivity.
  - vm_compute. reflexivity.
  - exact HsR.
  - vm_compute in HsR. injection HsR as <-. vm_compute. reflexivity.
  - reflexivity.
  - reflexivity.
  - vm_compute. reflexivity.
Defined.

End LayoutMore.

(** * More about child windows: what events change, where they go *)

Module ChildWindowMore.
Import ChildWindow ChildWindowFacts ChildWindowFrame ChildWindowExamples
       MoreExamples.

Ltac split_branches H :=
  repeat match type of H with
         | context [if ?b then _ else _] => destruct b eqn:?
         | context [match ?o with Some _ => _ | None => _ end] =>
             destruct o eqn:?
         end.

Section WithScalar.
Context {F : Type} `{Scalar F} {EM : Type}.
Variable Panel_handleEvent :
  EventType -> F -> F -> ChildWindow F EM -> Panel EM.

Lemma placeCloseButton_configuration (w : ChildWindow F EM) :
  same_configuration w (placeCloseButton w) /\
  position (placeCloseButton w) = position w /\
  m_MouseDown (placeCloseButton w) = m_MouseDown w /\
  m_DraggingPosition (placeCloseButton w) = m_DraggingPosition w /\
  panel (placeCloseButton w) = panel w.
Proof.
  unfold same_configuration, placeCloseButton.
  destruct (layout w) eqn:E; simpl; rewrite ?E; repeat split.
Qed.

(** X10.  No event changes the configuration of a window that survives it:
    the loaded flag, the callback id, the parent, the size, the layout
    side, the distance to the side, the title bar height, the opacity, the
    texture, the borders, and the size, scale and opacity of the close
    button are after [handleEvent] what they were before. *)
Theorem handleEvent_keeps_configuration (w w' : ChildWindow F EM)
    (this : positive) (e : EventType) (x y : F)
    (gs : gmap positive ParentGroup) (cs : list Call) (wld' : World F EM) :
  handleEvent Panel_handleEvent this e x y (mkWorld (Some w) gs cs) = Some wld' ->
  window wld' = Some w' ->
  same_configuration w w'.
Proof using Type.
  intros Hh Hw'. unfold handleEvent in Hh. cbn [window mbind option_bind] in Hh.
  destruct (placeCloseButton_configuration w) as (Hc & _).
  destruct (placeCloseButton_configuration (set_MouseDown false w)) as (Hc0 & _).
  destruct (m_Loaded w) eqn:Hl; cbn [negb] in Hh.
  2:{ injection Hh as <-. simpl in Hw'. injection Hw' as <-.
      unfold same_configuration. repeat split. }
  destruct e.
  - split_branches Hh; unfold fall_through, finish in Hh;
      injection Hh as <-; simpl in Hw'; injection Hw' as <-;
      unfold same_configuration in *; simpl in *; intuition congruence.
  - split_branches Hh; unfold fall_through, finish in Hh;
      injection Hh as <-; simpl in Hw'; injection Hw' as <-;
      unfold same_configuration in *; simpl in *; intuition congruence.
  - destruct (onTitleBar (set_MouseDown false w) x y);
      [|unfold fall_through in Hh; injection Hh as <-; simpl in Hw';
        injection Hw' as <-; unfold same_configuration; simpl;
        repeat split].
    destruct (Button_mouseOnObject x y
                (m_CloseButton (placeCloseButton (set_MouseDown false w)))
              && b_MouseDown (m_CloseButton (placeCloseButton (set_MouseDown false w)))).
    + unfold finish, addCallback, removeAllObjects, parent_remove in Hh.
      cbn [mbind option_bind window groups calls] in Hh.
      destruct (0 <? callbackID (placeCloseButton (set_MouseDown false w)))%N;
        destruct (m_Parent (placeCloseButton (set_MouseDown false w))) as [a|];
        cbn [mbind option_bind window groups calls] in Hh; try discriminate;
        destruct (gs !! a) as [pg|]; cbn [mbind option_bind window groups calls] in Hh;
        try discriminate;
        rewrite ?lookup_insert_eq in Hh;
        cbn [mbind option_bind window groups calls pg_group] in Hh;
        injection Hh as <-; cbn [window] in Hw';
        destruct (bool_decide (this ∈ Group.m_Objects (pg_group pg)));
        try discriminate; injection Hw' as <-;
        unfold same_configuration in *; simpl in *; intuition congruence.
    + unfold finish in Hh. injection Hh as <-. simpl in Hw'. injection Hw' as <-.
      unfold same_configuration in *; simpl in *; intuition congruence.
  - unfold fall_through in Hh. injection Hh as <-. simpl in Hw'.
    injection Hw' as <-. unfold same_configuration. simpl.
    repeat split.
Qed.

Lemma same_geometry_set_MouseDown (w : ChildWindow F EM) b :
  same_geometry w (set_MouseDown b w).
Proof. unfold same_geometry. repeat split. Qed.

Lemma closes_release (w : ChildWindow F EM) x y :
  closes w MouseButtonReleased x y = false ->
  onTitleBar (set_MouseDown false w) x y = true ->
  Button_mouseOnObject x y
    (m_CloseButton (placeCloseButton (set_MouseDown false w)))
  && b_MouseDown (m_CloseButton (placeCloseButton (set_MouseDown false w)))
  = false.
Proof.
  intros Hc Ht. unfold closes, onCloseButton in Hc.
  rewrite (onTitleBar_same_geometry _ _ _ _ (same_geometry_set_MouseDown w false)) in Ht.
  rewrite Ht in Hc. simpl in Hc.
  rewrite (closeButton_hit_same_geometry _ _ _ _ (same_geometry_set_MouseDown w false)).
  rewrite placeCloseButton_MouseDown. exact Hc.
Qed.

(** What [handleEvent] does to a loaded window on every path but the
    closing one. *)
Lemma handleEvent_shape (w : ChildWindow F EM) this e x y gs cs :
  m_Loaded w = true ->
  closes w e x y = false ->
  exists w',
    handleEvent Panel_handleEvent this e x y (mkWorld (Some w) gs cs)
    = Some (mkWorld (Some w') gs
              (if kept_by_title_bar w e x y then cs
               else cs ++ [CallPanelHandleEvent this e])) /\
    same_configuration w w' /\
    (if kept_by_title_bar w e x y
     then panel w' = panel w /\ position w' = position w /\
          b_position (m_CloseButton w') = mkVector2 fzero fzero /\
          (e <> MouseButtonPressed ->
             m_MouseDown w'
             = match e with
               | MouseButtonReleased => false
               | _ => m_MouseDown w
               end)
     else exists w0,
            w' = forwarded Panel_handleEvent e x y w0 /\
            same_configuration w w0 /\
            panel w0 = panel w /\
            m_CloseButton w0 = m_CloseButton w /\
            m_DraggingPosition w0 = m_DraggingPosition w /\
            (drags w e = false -> position w0 = position w) /\
            m_MouseDown w0
            = match e with
              | MouseButtonReleased => false
              | _ => m_MouseDown w
              end).
Proof using Type.
  intros Hl Hc.
  destruct (placeCloseButton_configuration w) as (Hpc & Hpp & Hpm & Hpd & Hppanel).
  destruct (placeCloseButton_configuration (set_MouseDown false w))
    as (Hpc0 & Hpp0 & Hpm0 & Hpd0 & Hppanel0).
  unfold handleEvent. cbn [window mbind option_bind]. rewrite Hl. cbn [negb].
  destruct e; cbn [kept_by_title_bar drags].
  - destruct (m_MouseDown w) eqn:Hd; cbn [negb andb].
    + eexists. split; [reflexivity|]. split.
      * unfold same_configuration. repeat split.
      * eexists. split; [reflexivity|].
        unfold same_configuration. simpl. repeat split; try assumption.
        intros Hfalse. discriminate.
    + destruct (onTitleBar w x y) eqn:Ht.
      * eexists. split; [reflexivity|].
        destruct (Button_mouseOnObject x y (m_CloseButton (placeCloseButton w)));
          unfold same_configuration in *; simpl in *; intuition congruence.
      * eexists. split; [reflexivity|]. split.
        -- unfold same_configuration. repeat split.
        -- exists w. unfold same_configuration. repeat split; assumption.
  - destruct (onTitleBar w x y) eqn:Ht.
    + eexists. split; [reflexivity|].
      destruct (Button_mouseOnObject x y (m_CloseButton (placeCloseButton w)));
        unfold same_configuration in *; simpl in *; intuition congruence.
    + eexists. split; [reflexivity|]. split.
      * unfold same_configuration. repeat split.
      * exists w. unfold same_configuration. repeat split; assumption.
  - rewrite <- (onTitleBar_same_geometry _ _ _ _ (same_geometry_set_MouseDown w false)).
    destruct (onTitleBar (set_MouseDown false w) x y) eqn:Ht.
    + rewrite (closes_release w x y Hc Ht).
      eexists. split; [reflexivity|].
      unfold same_configuration in *; simpl in *; intuition congruence.
    + eexists. split; [reflexivity|]. split.
      * unfold same_configuration. repeat split.
      * exists (set_MouseDown false w). unfold same_configuration.
        repeat split; assumption.
  - eexists. split; [reflexivity|]. split.
    + unfold same_configuration. repeat split.
    + exists w. unfold same_configuration. repeat split; assumption.
Qed.

(** X11.  The title bar keeps its events: a move that is not a drag, a press
    or a release over the title bar of a loaded window (the closing release
    apart) is not handed to the panel; the panel and the position of the
    window stay as they are and no call leaves the window. *)
Theorem title_bar_keeps_its_events (w : ChildWindow F EM)
    (this : positive) (e : EventType) (x y : F)
    (gs : gmap positive ParentGroup) (cs : list Call) :
  m_Loaded w = true ->
  kept_by_title_bar w e x y = true ->
  closes w e x y = false ->
  exists w',
    handleEvent Panel_handleEvent this e x y (mkWorld (Some w) gs cs)
    = Some (mkWorld (Some w') gs cs) /\
    panel w' = panel w /\
    position w' = position w.
Proof using Type.
  intros Hl Hk Hc.
  destruct (handleEvent_shape w this e x y gs cs Hl Hc) as (w' & Hh & _ & Hrest).
  rewrite Hk in Hh, Hrest. exists w'. split; [exact Hh|].
  destruct Hrest as (Hp & Hpos & _). split; assumption.
Qed.

(** X12.  Every other event on a loaded window goes to the panel, once,
    with the vertical coordinate lowered by the height of the title bar:
    drags (after the window was moved), events outside the title bar (after
    a release cleared the mouse-down flag) and events that are no mouse
    event.  The close button is not touched. *)
Theorem other_events_go_to_the_panel (w : ChildWindow F EM)
    (this : positive) (e : EventType) (x y : F)
    (gs : gmap positive ParentGroup) (cs : list Call) :
  m_Loaded w = true ->
  kept_by_title_bar w e x y = false ->
  exists w0,
    handleEvent Panel_handleEvent this e x y (mkWorld (Some w) gs cs)
    = Some (mkWorld
              (Some (set_panel
                       (Panel_handleEvent e x
                          (fsub y (of_uint (m_TitleBarHeight w))) w0) w0))
              gs (cs ++ [CallPanelHandleEvent this e])) /\
    panel w0 = panel w /\
    m_CloseButton w0 = m_CloseButton w /\
    (drags w e = false -> position w0 = position w).
Proof using Type.
  intros Hl Hk.
  assert (Hc : closes w e x y = false).
  { destruct e; try reflexivity. simpl in *. unfold onCloseButton.
    rewrite Hk. reflexivity. }
  destruct (handleEvent_shape w this e x y gs cs Hl Hc) as (w' & Hh & _ & Hrest).
  rewrite Hk in Hh, Hrest.
  destruct Hrest as (w0 & -> & Hcfg & Hp & Hb & _ & Hpos & _).
  exists w0. split; [|split; [exact Hp | split; [exact Hb | exact Hpos]]].
  rewrite Hh. unfold forwarded.
  destruct Hcfg as (_ & _ & _ & _ & _ & _ & -> & _). reflexivity.
Qed.

(** X14.  The close button is only placed for the time of a hit test: when
    it rests at the origin before an event, it rests there after it (the
    closing release apart). *)
Theorem close_button_is_put_back (w : ChildWindow F EM)
    (this : positive) (e : EventType) (x y : F)
    (gs : gmap positive ParentGroup) (cs : list Call) :
  closes w e x y = false ->
  b_position (m_CloseButton w) = mkVector2 fzero fzero ->
  exists w' cs',
    handleEvent Panel_handleEvent this e x y (mkWorld (Some w) gs cs)
    = Some (mkWorld (Some w') gs cs') /\
    b_position (m_CloseButton w') = mkVector2 fzero fzero.
Proof using Type.
  intros Hc Hz. destruct (m_Loaded w) eqn:Hl.
  - destruct (handleEvent_shape w this e x y gs cs Hl Hc) as (w' & Hh & _ & Hrest).
    eexists _, _. split; [exact Hh|].
    destruct (kept_by_title_bar w e x y).
    + destruct Hrest as (_ & _ & Hb & _). exact Hb.
    + destruct Hrest as (w0 & -> & _ & _ & Hb & _).
      unfold forwarded. simpl. rewrite Hb. exact Hz.
  - exists w, cs. split; [|exact Hz].
    unfold handleEvent. cbn [window mbind option_bind]. rewrite Hl. reflexivity.
Qed.

(** X15.  The dragging state of a window that survives an event: the
    position moves only in a drag (a move with the mouse down); the dragging
    offset is rewritten only by a press; the mouse-down flag is raised only
    by a press on the title bar outside the close button; and after a
    release on a loaded window the flag is down. *)
Theorem dragging_state_machine (w w' : ChildWindow F EM)
    (this : positive) (e : EventType) (x y : F)
    (gs : gmap positive ParentGroup) (cs : list Call) (wld' : World F EM) :
  handleEvent Panel_handleEvent this e x y (mkWorld (Some w) gs cs) = Some wld' ->
  window wld' = Some w' ->
  (drags w e = false -> position w' = position w) /\
  (e <> MouseButtonPressed -> m_DraggingPosition w' = m_DraggingPosition w) /\
  (m_MouseDown w' = true ->
     m_MouseDown w = true \/
     (e = MouseButtonPressed /\ onTitleBar w x y = true /\
      onCloseButton w x y = false)) /\
  (e = MouseButtonReleased -> m_Loaded w = true -> m_MouseDown w' = false).
Proof using Type.
  intros Hh Hw'. unfold handleEvent in Hh. cbn [window mbind option_bind] in Hh.
  destruct (placeCloseButton_configuration w) as (_ & Hpp & Hpm & Hpd & _).
  destruct (placeCloseButton_configuration (set_MouseDown false w))
    as (_ & Hpp0 & Hpm0 & Hpd0 & _).
  destruct (m_Loaded w) eqn:Hl; cbn [negb] in Hh.
  2:{ injection Hh as <-. simpl in Hw'. injection Hw' as <-.
      repeat split; try reflexivity; try (intros; discriminate).
      intros Hd. left. exact Hd. }
  destruct e; cbn [drags].
  - destruct (m_MouseDown w) eqn:Hd.
    + unfold fall_through in Hh. injection Hh as <-. simpl in Hw'.
      injection Hw' as <-. simpl.
      repeat split; try reflexivity; try (intros; discriminate).
      intros _. left. reflexivity.
    + split_branches Hh; unfold fall_through, finish in Hh;
        injection Hh as <-; simpl in Hw'; injection Hw' as <-; simpl in *;
        (repeat split; try congruence; try (intros; discriminate)).
  - destruct (onTitleBar w x y) eqn:Ht.
    + destruct (Button_mouseOnObject x y (m_CloseButton (placeCloseButton w)))
        eqn:Hb; unfold finish in Hh; injection Hh as <-; simpl in Hw';
        injection Hw' as <-; simpl in *.
      * repeat split; try congruence. intros Hd. left. congruence.
      * repeat split; try congruence. intros _. right.
        repeat split. unfold onCloseButton. rewrite Ht, Hb. reflexivity.
    + unfold fall_through in Hh. injection Hh as <-. simpl in Hw'.
      injection Hw' as <-. simpl.
      repeat split; try congruence. intros Hd. left. exact Hd.
  - destruct (onTitleBar (set_MouseDown false w) x y);
      [|unfold fall_through in Hh; injection Hh as <-; simpl in Hw';
        injection Hw' as <-; simpl;
        repeat split; try reflexivity; intros; discriminate].
    destruct (Button_mouseOnObject x y
                (m_CloseButton (placeCloseButton (set_MouseDown false w)))
              && b_MouseDown (m_CloseButton (placeCloseButton (set_MouseDown false w)))).
    + unfold finish, addCallback, removeAllObjects, parent_remove in Hh.
      cbn [mbind option_bind window groups calls] in Hh.
      destruct (0 <? callbackID (placeCloseButton (set_MouseDown false w)))%N;
        destruct (m_Parent (placeCloseButton (set_MouseDown false w))) as [a|];
        cbn [mbind option_bind window groups calls] in Hh; try discriminate;
        destruct (gs !! a) as [pg|]; cbn [mbind option_bind window groups calls] in Hh;
        try discriminate;
        rewrite ?lookup_insert_eq in Hh;
        cbn [mbind option_bind window groups calls pg_group] in Hh;
        injection Hh as <-; cbn [window] in Hw';
        destruct (bool_decide (this ∈ Group.m_Objects (pg_group pg)));
        try discriminate; injection Hw' as <-; simpl in *;
        (repeat split; try congruence; intros; discriminate).
    + unfold finish in Hh. injection Hh as <-. simpl in Hw'. injection Hw' as <-.
      simpl in *. repeat split; try congruence; intros; discriminate.
  - unfold fall_through in Hh. injection Hh as <-. simpl in Hw'.
    injection Hw' as <-. simpl.
    repeat split; try reflexivity; try (intros; discriminate).
    intros Hd. left. exact Hd.
Qed.

End WithScalar.

(** *** Gestures, over exact arithmetic *)

Section Exact.
Context {EM : Type}.
Variable Panel_handleEvent :
  EventType -> Qc -> Qc -> ChildWindow Qc EM -> Panel EM.
Local Open Scope Qc_scope.

Lemma press_starts_drag (w : ChildWindow Qc EM) this px py gs cs :
  m_Loaded w = true ->
  onTitleBar w px py = true ->
  onCloseButton w px py = false ->
  exists w1,
    handleEvent Panel_handleEvent this MouseButtonPressed px py
                (mkWorld (Some w) gs cs)
    = Some (mkWorld (Some w1) gs cs) /\
    m_Loaded w1 = true /\ m_MouseDown w1 = true /\
    position w1 = position w /\
    m_DraggingPosition w1
    = mkVector2 (px - vx (position w)) (py - vy (position w)) /\
    b_MouseDown (m_CloseButton w1) = b_MouseDown (m_CloseButton w) /\
    same_geometry w w1.
Proof using Type.
  intros Hl Ht Hb. unfold onCloseButton in Hb. rewrite Ht in Hb. simpl in Hb.
  eexists. split.
  - unfold handleEvent. simpl. rewrite Hl. simpl. rewrite Ht, Hb. reflexivity.
  - unfold same_geometry, placeCloseButton.
    destruct (layout w) eqn:E; simpl; rewrite ?E; repeat split; assumption.
Qed.

Lemma drag_moves (moves : list (Qc * Qc)) :
  forall (w : ChildWindow Qc EM) this gs cs,
  m_Loaded w = true -> m_MouseDown w = true ->
  exists w' cs',
    handleEvents Panel_handleEvent this
                 (map (fun m => (MouseMoved, m.1, m.2)) moves)
                 (mkWorld (Some w) gs cs)
    = Some (mkWorld (Some w') gs cs') /\
    m_Loaded w' = true /\ m_MouseDown w' = true /\
    m_DraggingPosition w' = m_DraggingPosition w /\
    m_CloseButton w' = m_CloseButton w /\
    same_geometry_but_position w w' /\
    (forall mx my, last moves = Some (mx, my) ->
       position w' = mkVector2 (mx - vx (m_DraggingPosition w))
                               (my - vy (m_DraggingPosition w))).
Proof using Type.
  induction moves as [|[mx my] moves IH]; intros w this gs cs Hl Hd.
  - exists w, cs. unfold same_geometry_but_position.
    repeat split; try assumption. intros mx my Hlast. discriminate.
  - set (w1 := forwarded Panel_handleEvent MouseMoved mx my
                 (setPosition
                    (vx (position w) + (mx - vx (position w) - vx (m_DraggingPosition w)))
                    (vy (position w) + (my - vy (position w) - vy (m_DraggingPosition w)))
                    w)).
    assert (Hstep :
      handleEvent Panel_handleEvent this MouseMoved mx my (mkWorld (Some w) gs cs)
      = Some (mkWorld (Some w1) gs (cs ++ [CallPanelHandleEvent this MouseMoved]))).
    { unfold handleEvent. simpl. rewrite Hl, Hd. reflexivity. }
    destruct (IH w1 this gs (cs ++ [CallPanelHandleEvent this MouseMoved]) Hl Hd)
      as (w' & cs' & Hrun & Hl' & Hd' & Hdrag' & Hbtn' & Hgeo' & Hlast').
    exists w', cs'. cbn [map handleEvents fst snd]. rewrite Hstep.
    cbn [mbind option_bind]. rewrite Hrun.
    unfold same_geometry_but_position in *.
    repeat split; try assumption; try (simpl in *; intuition congruence).
    intros mx' my' Hlast. destruct moves as [|m moves'].
    + simpl in Hlast. injection Hlast as <- <-.
      simpl in Hrun. injection Hrun as <- _. unfold w1. simpl. f_equal; ring.
    + apply (Hlast' mx' my'). exact Hlast.
Qed.

Lemma handleEvents_app this (l1 l2 : list (EventType * Qc * Qc))
    (wld : World Qc EM) :
  handleEvents Panel_handleEvent this (l1 ++ l2) wld
  = wld' ← handleEvents Panel_handleEvent this l1 wld;
    handleEvents Panel_handleEvent this l2 wld'.
Proof using Type.
  revert wld. induction l1 as [|[[e x] y] l1 IH]; intros wld; simpl.
  - reflexivity.
  - destruct (handleEvent Panel_handleEvent this e x y wld); simpl;
      [apply IH | reflexivity].
Qed.

(** X16.  A whole drag, over exact arithmetic: on a loaded window whose
    close button is not held, a press on the title bar outside the close
    button, any moves, and a release anywhere leave the window alive, moved
    by exactly the displacement of the cursor between the press and the
    last move, with the mouse up; moves after that do not move it. *)
Theorem drag_moves_window_by_cursor_displacement (w : ChildWindow Qc EM)
    (this : positive) (px py mx my rx ry : Qc) (moves : list (Qc * Qc))
    (gs : gmap positive ParentGroup) (cs : list Call) :
  m_Loaded w = true ->
  onTitleBar w px py = true ->
  onCloseButton w px py = false ->
  b_MouseDown (m_CloseButton w) = false ->
  exists w3 cs3,
    handleEvents Panel_handleEvent this
      ((MouseButtonPressed, px, py)
         :: map (fun m => (MouseMoved, m.1, m.2)) (moves ++ [(mx, my)])
         ++ [(MouseButtonReleased, rx, ry)])
      (mkWorld (Some w) gs cs)
    = Some (mkWorld (Some w3) gs cs3) /\
    position w3 = mkVector2 (vx (position w) + (mx - px))
                            (vy (position w) + (my - py)) /\
    m_MouseDown w3 = false /\
    forall ax ay, exists w4 cs4,
      handleEvent Panel_handleEvent this MouseMoved ax ay
                  (mkWorld (Some w3) gs cs3)
      = Some (mkWorld (Some w4) gs cs4) /\
      position w4 = position w3.
Proof using Type.
  intros Hl Ht Hb Hup.
  destruct (press_starts_drag w this px py gs cs Hl Ht Hb)
    as (w1 & Hpress & Hl1 & Hd1 & Hpos1 & Hdrag1 & Hb1 & _).
  destruct (drag_moves (moves ++ [(mx, my)]) w1 this gs cs Hl1 Hd1)
    as (w2 & cs2 & Hmoves & Hl2 & Hd2 & Hdrag2 & Hbtn2 & _ & Hlast2).
  specialize (Hlast2 mx my (last_snoc _ _)).
  assert (Hc2 : closes w2 MouseButtonReleased rx ry = false).
  { unfold closes. rewrite Hbtn2, Hb1, Hup. apply andb_false_r. }
  destruct (handleEvent_shape Panel_handleEvent w2 this MouseButtonReleased
              rx ry gs cs2 Hl2 Hc2) as (w3 & Hrel & Hcfg3 & Hrest3).
  assert (Hpos3 : position w3 = position w2 /\ m_MouseDown w3 = false).
  { destruct (kept_by_title_bar w2 MouseButtonReleased rx ry).
    - destruct Hrest3 as (_ & Hp & _ & Hm). split; [exact Hp|].
      apply Hm. discriminate.
    - destruct Hrest3 as (w0 & -> & _ & _ & _ & _ & Hp & Hm).
      unfold forwarded. simpl. split; [apply Hp; reflexivity | exact Hm]. }
  destruct Hpos3 as [Hpos3 Hd3].
  eexists w3, _. split; [|split; [|split]].
  - cbn [handleEvents]. rewrite Hpress. cbn [mbind option_bind].
    rewrite handleEvents_app, Hmoves. cbn [mbind option_bind handleEvents].
    rewrite Hrel. reflexivity.
  - rewrite Hpos3, Hlast2, Hdrag1. simpl. f_equal; ring.
  - exact Hd3.
  - intros ax ay.
    assert (Hl3 : m_Loaded w3 = true).
    { destruct Hcfg3 as (-> & _). exact Hl2. }
    destruct (handleEvent_shape Panel_handleEvent w3 this MouseMoved ax ay gs
                (if kept_by_title_bar w2 MouseButtonReleased rx ry then cs2
                 else cs2 ++ [CallPanelHandleEvent this MouseButtonReleased])
                Hl3 eq_refl) as (w4 & Hmove & _ & Hrest4).
    eexists w4, _. split; [exact Hmove|].
    destruct (kept_by_title_bar w3 MouseMoved ax ay).
    + destruct Hrest4 as (_ & Hp & _). exact Hp.
    + destruct Hrest4 as (w0 & -> & _ & _ & _ & _ & Hp & _).
      unfold forwarded. simpl. apply Hp. simpl. exact Hd3.
Qed.

Lemma onTitleBar_empty (w : ChildWindow Qc EM) x y :
  m_TitleBarHeight w = 0%N \/ (m_Size w).1 = 0%N ->
  onTitleBar w x y = false.
Proof using Type.
  intros Hempty. unfold onTitleBar, FloatRect_contains. simpl.
  destruct Hempty as [-> | ->]; simpl.
  - destruct (decide (vy (position w) <= y)) as [Hle|Hnle].
    + rewrite (bool_decide_eq_false_2 (y < vy (position w) + Q2Qc 0)).
      * rewrite andb_false_r. reflexivity.
      * intros Hlt. replace (vy (position w) + Q2Qc 0) with (vy (position w)) in Hlt by ring.
        exact (Qcle_not_lt _ _ Hle Hlt).
    + rewrite (bool_decide_eq_false_2 _ Hnle). rewrite andb_false_r. reflexivity.
  - destruct (decide (vx (position w) <= x)) as [Hle|Hnle].
    + rewrite (bool_decide_eq_false_2 (x < vx (position w) + Q2Qc 0)).
      * rewrite andb_false_r. reflexivity.
      * intros Hlt. replace (vx (position w) + Q2Qc 0) with (vx (position w)) in Hlt by ring.
        exact (Qcle_not_lt _ _ Hle Hlt).
    + rewrite (bool_decide_eq_false_2 _ Hnle). reflexivity.
Qed.

(** X17.  A title bar of height zero, or a window of width zero, cannot be
    hit: over exact arithmetic such a loaded window, with the mouse up,
    stays open, stays where it is and keeps the mouse up through any run of
    events, each of which goes to the panel. *)
Theorem empty_title_bar_cannot_be_grabbed
    (events : list (EventType * Qc * Qc)) :
  forall (w : ChildWindow Qc EM) (this : positive)
         (gs : gmap positive ParentGroup) (cs : list Call),
  m_Loaded w = true ->
  m_TitleBarHeight w = 0%N \/ (m_Size w).1 = 0%N ->
  m_MouseDown w = false ->
  exists w',
    handleEvents Panel_handleEvent this events (mkWorld (Some w) gs cs)
    = Some (mkWorld (Some w') gs
              (cs ++ map (fun ev => CallPanelHandleEvent this ev.1.1) events)) /\
    position w' = position w /\
    m_MouseDown w' = false.
Proof using Type.
  induction events as [|[[e x] y] events IH]; intros w this gs cs Hl Hempty Hd.
  - exists w. simpl. rewrite app_nil_r. repeat split; assumption.
  - assert (Hk : kept_by_title_bar w e x y = false).
    { destruct e; simpl; rewrite ?onTitleBar_empty by exact Hempty;
        rewrite ?andb_false_r; reflexivity. }
    assert (Hc : closes w e x y = false).
    { destruct e; try reflexivity. simpl. unfold onCloseButton.
      rewrite onTitleBar_empty by exact Hempty. reflexivity. }
    destruct (handleEvent_shape Panel_handleEvent w this e x y gs cs Hl Hc)
      as (w1 & Hstep & Hcfg & Hrest).
    rewrite Hk in Hstep, Hrest.
    destruct Hrest as (w0 & Hw1 & _ & _ & _ & _ & Hp & Hm).
    assert (Hd1 : m_MouseDown w1 = false).
    { rewrite Hw1. unfold forwarded. simpl. rewrite Hm.
      destruct e; try exact Hd. reflexivity. }
    assert (Hp1 : position w1 = position w).
    { rewrite Hw1. unfold forwarded. simpl. apply Hp.
      destruct e; try reflexivity. simpl. exact Hd. }
    assert (Hl1 : m_Loaded w1 = true).
    { destruct Hcfg as (-> & _). exact Hl. }
    assert (Hempty1 : m_TitleBarHeight w1 = 0%N \/ (m_Size w1).1 = 0%N).
    { destruct Hcfg as (_ & _ & _ & -> & _ & _ & -> & _). exact Hempty. }
    destruct (IH w1 this gs (cs ++ [CallPanelHandleEvent this e]) Hl1 Hempty1 Hd1)
      as (w' & Hrun & Hp' & Hd').
    exists w'. cbn [handleEvents]. rewrite Hstep. cbn [mbind option_bind].
    rewrite Hrun. split; [|split].
    + simpl. rewrite <- app_assoc. reflexivity.
    + rewrite Hp'. exact Hp1.
    + exact Hd'.
Qed.

End Exact.

(** *** The properties at concrete windows *)

Lemma handleEvent_keeps_configuration_witness :
  exists wld' w',
    handleEvent idle_handleEvent 2 MouseButtonPressed
                (Binary32.of_Z 195) (Binary32.of_Z 16) (demo_world 3)
      = Some wld' /\
    window wld' = Some w' /\
    same_configuration (demo_window 3) w'.
Proof.
  destruct (handleEvent idle_handleEvent 2 MouseButtonPressed
              (Binary32.of_Z 195) (Binary32.of_Z 16) (demo_world 3))
    as [wld'|] eqn:He; [|vm_compute in He; discriminate].
  destruct (window wld') as [w'|] eqn:Hw.
  - exists wld', w'. split; [reflexivity|]. split; [exact Hw|].
    exact (handleEvent_keeps_configuration idle_handleEvent
             (demo_window 3) w' 2%positive MouseButtonPressed
             (Binary32.of_Z 195) (Binary32.of_Z 16)
             {[ 1%positive := demo_parent ]} [] wld' He Hw).
  - vm_compute in He. injection He as <-. discriminate.
Defined.

Lemma title_bar_keeps_its_events_witness :
  exists w',
    handleEvent idle_handleEvent 2 MouseButtonPressed
                (Binary32.of_Z 15) (Binary32.of_Z 15)
                (mkWorld (Some (demo_window 3)) {[ 1%positive := demo_parent ]} [])
      = Some (mkWorld (Some w') {[ 1%positive := demo_parent ]} []) /\
    panel w' = panel (demo_window (F := Binary32.float) 3) /\
    position w' = position (demo_window (F := Binary32.float) 3).
Proof.
  apply (title_bar_keeps_its_events idle_handleEvent
           (demo_window (F := Binary32.float) 3) 2%positive MouseButtonPressed
           (Binary32.of_Z 15) (Binary32.of_Z 15)).
  - reflexivity.
  - vm_compute. reflexivity.
  - reflexivity.
Defined.

Lemma other_events_go_to_the_panel_witness :
  exists w0,
    handleEvent idle_handleEvent 2 MouseButtonPressed
                (Binary32.of_Z 15) (Binary32.of_Z 50)
                (mkWorld (Some (demo_window 3)) {[ 1%positive := demo_parent ]} [])
      = Some (mkWorld
                (Some (set_panel
                         (idle_handleEvent MouseButtonPressed (Binary32.of_Z 15)
                            (fsub (Binary32.of_Z 50)
                                  (of_uint (m_TitleBarHeight
                                              (demo_window (F := Binary32.float) 3))))
                            w0) w0))
                {[ 1%positive := demo_parent ]}
                ([] ++ [CallPanelHandleEvent 2 MouseButtonPressed])) /\
    panel w0 = panel (demo_window (F := Binary32.float) 3) /\
    m_CloseButton w0 = m_CloseButton (demo_window (F := Binary32.float) 3) /\
    (drags (demo_window (F := Binary32.float) 3) MouseButtonPressed = false ->
     position w0 = position (demo_window (F := Binary32.float) 3)).
Proof.
  apply (other_events_go_to_the_panel idle_handleEvent
           (demo_window (F := Binary32.float) 3) 2%positive MouseButtonPressed
           (Binary32.of_Z 15) (Binary32.of_Z 50)).
  - reflexivity.
  - vm_compute. reflexivity.
Defined.

Lemma close_button_is_put_back_witness :
  exists w' cs',
    handleEvent idle_handleEvent 2 MouseButtonPressed
                (Binary32.of_Z 195) (Binary32.of_Z 16)
                (mkWorld (Some (demo_window 3)) {[ 1%positive := demo_parent ]} [])
      = Some (mkWorld (Some w') {[ 1%positive := demo_parent ]} cs') /\
    b_MouseDown (m_CloseButton w') = true /\
    b_position (m_CloseButton w') = mkVector2 (fzero : Binary32.float) fzero.
Proof.
  destruct (close_button_is_put_back idle_handleEvent
              (demo_window (F := Binary32.float) 3) 2%positive MouseButtonPressed
              (Binary32.of_Z 195) (Binary32.of_Z 16)
              {[ 1%positive := demo_parent ]} [] eq_refl eq_refl)
    as (w' & cs' & He & Hb).
  exists w', cs'. split; [exact He|]. split; [|exact Hb].
  vm_compute in He. injection He as <- _. reflexivity.
Defined.

Lemma dragging_state_machine_witness :
  exists wld' w',
    handleEvent idle_handleEvent 2 MouseButtonReleased
                (Binary32.of_Z 15) (Binary32.of_Z 15)
                (mkWorld (Some (set_MouseDown true (demo_window 3)))
                         {[ 1%positive := demo_parent ]} [])
      = Some wld' /\
    window wld' = Some w' /\
    position w' = position (demo_window (F := Binary32.float) 3) /\
    m_DraggingPosition w'
      = m_DraggingPosition (demo_window (F := Binary32.float) 3) /\
    m_MouseDown w' = false.
Proof.
  destruct (handleEvent idle_handleEvent 2 MouseButtonReleased
              (Binary32.of_Z 15) (Binary32.of_Z 15)
              (mkWorld (Some (set_MouseDown true (demo_window 3)))
                       {[ 1%positive := demo_parent ]} []))
    as [wld'|] eqn:He; [|vm_compute in He; discriminate].
  destruct (window wld') as [w'|] eqn:Hw.
  - exists wld', w'. split; [reflexivity|]. split; [exact Hw|].
    destruct (dragging_state_machine idle_handleEvent
                (set_MouseDown true (demo_window 3)) w' 2%positive
                MouseButtonReleased (Binary32.of_Z 15) (Binary32.of_Z 15)
                {[ 1%positive := demo_parent ]} [] wld' He Hw)
      as (Hpos & Hdrag & _ & Hup).
    split; [exact (Hpos eq_refl)|]. split.
    + apply Hdrag. discriminate.
    + exact (Hup eq_refl eq_refl).
  - vm_compute in He. injection He as <-. discriminate.
Defined.

Lemma drag_moves_window_by_cursor_displacement_witness :
  exists w3 cs3,
    handleEvents idle_handleEvent 2
      ((MouseButtonPressed, of_uint 15, of_uint 15)
         :: map (fun m => (MouseMoved, m.1, m.2))
                ([(of_uint 20, of_uint 22)] ++ [(of_uint 40, of_uint 48)])
         ++ [(MouseButtonReleased, of_uint 300, of_uint 300)])
      (mkWorld (Some (demo_window 0)) {[ 1%positive := demo_parent ]} [])
    = Some (mkWorld (Some w3) {[ 1%positive := demo_parent ]} cs3) /\
    position w3
    = mkVector2 (vx (position (demo_window (F := Qc) 0))
                 + (of_uint 40 - of_uint 15))%Qc
                (vy (position (demo_window (F := Qc) 0))
                 + (of_uint 48 - of_uint 15))%Qc /\
    m_MouseDown w3 = false.
Proof.
  destruct (drag_moves_window_by_cursor_displacement idle_handleEvent
              (demo_window (F := Qc) 0) 2%positive
              (of_uint 15) (of_uint 15) (of_uint 40) (of_uint 48)
              (of_uint 300) (of_uint 300) [(of_uint 20, of_uint 22)]
              {[ 1%positive := demo_parent ]} [])
    as (w3 & cs3 & Hrun & Hpos & Hup & _).
  - reflexivity.
  - vm_compute. reflexivity.
  - vm_compute. reflexivity.
  - reflexivity.
  - exists w3, cs3. split; [exact Hrun|]. split; [exact Hpos | exact Hup].
Defined.

Lemma empty_title_bar_cannot_be_grabbed_witness :
  exists w',
    handleEvents idle_handleEvent 2
      [(MouseButtonPressed, of_uint 15, of_uint 10);
       (MouseMoved, of_uint 40, of_uint 48);
       (MouseButtonReleased, of_uint 40, of_uint 48)]
      (mkWorld (Some bare_window) {[ 1%positive := demo_parent ]} [])
    = Some (mkWorld (Some w') {[ 1%positive := demo_parent ]}
              ([] ++ map (fun ev : EventType * Qc * Qc =>
                            CallPanelHandleEvent 2 ev.1.1)
                         [(MouseButtonPressed, of_uint 15, of_uint 10);
                          (MouseMoved, of_uint 40, of_uint 48);
                          (MouseButtonReleased, of_uint 40, of_uint 48)])) /\
    position w' = position bare_window /\
    m_MouseDown w' = false.
Proof.
  apply (empty_title_bar_cannot_be_grabbed idle_handleEvent
           [(MouseButtonPressed, of_uint 15, of_uint 10);
            (MouseMoved, of_uint 40, of_uint 48);
            (MouseButtonReleased, of_uint 40, of_uint 48)]
           bare_window 2%positive {[ 1%positive := demo_parent ]} []).
  - reflexivity.
  - left. reflexivity.
  - reflexivity.
Defined.
End ChildWindowMore.

(** * Loading a child window *)

Module ChildWindowLoadFacts.
Import Stdlib.Strings.Ascii.
Import ChildWindow ChildWindowLoad ChildWindowExamples MoreExamples.

Lemma length_append (s t : string) :
  String.length (String.append s t) = String.length s + String.length t.
Proof. induction s as [|c s IH]; simpl; [reflexivity | rewrite IH; reflexivity]. Qed.

Lemma get_append_end (s : string) (c : ascii) :
  String.get (String.length s) (String.append s (String c EmptyString)) = Some c.
Proof. induction s as [|d s IH]; simpl; [reflexivity | exact IH]. Qed.

Lemma directory_ends_with_slash (pathname : string) :
  pathname <> ""%string ->
  String.get (String.length (directory pathname) - 1) (directory pathname)
  = Some "/"%char.
Proof.
  intros Hne. unfold directory.
  destruct (decide (String.get (String.length pathname - 1) pathname
                    <> Some "/"%char)) as [Hno | Hyes].
  - rewrite bool_decide_eq_true_2 by exact Hno.
    rewrite length_append. simpl.
    replace (String.length pathname + 1 - 1) with (String.length pathname) by lia.
    apply get_append_end.
  - rewrite bool_decide_eq_false_2 by exact Hyes.
    destruct (String.get (String.length pathname - 1) pathname) as [c|] eqn:E.
    + destruct (decide (c = "/"%char)) as [->|Hc]; [reflexivity|].
      exfalso. apply Hyes. congruence.
    + exfalso. apply Hyes. discriminate.
Qed.

Section WithScalar.
Context {F : Type} `{Scalar F} {EM : Type} {Color : Type}.
Variable openFile : string -> option (list (string * string)).
Variable getTexture : string -> option (N * N) -> bool * option (N * N).
Variable removeTexture : option (N * N) -> option (N * N).
Variable extractVector4u : string -> option (N * N * N * N).
Variable atoi : string -> Z.
Variable Button_load : string -> Button F -> bool * Button F.

Lemma backgroundimage_keeps width height value
    (st : Loading (F := F) (EM := EM) (Color := Color)) r :
  backgroundimage getTexture width height value st = Some r ->
  lwindow (exit_state r) = lwindow st /\
  imageExtension (exit_state r) = imageExtension st /\
  m_LoadedPathname (lskin (exit_state r)) = m_LoadedPathname (lskin st) /\
  m_SplitImage (lskin (exit_state r)) = m_SplitImage (lskin st) /\
  m_TextureTitleBar_L (lskin (exit_state r)) = m_TextureTitleBar_L (lskin st) /\
  m_TextureTitleBar_R (lskin (exit_state r)) = m_TextureTitleBar_R (lskin st) /\
  backgroundColor (lskin (exit_state r)) = backgroundColor (lskin st).
Proof using Type.
  unfold backgroundimage. intros Hr.
  repeat match type of Hr with
         | context [if ?b then _ else _] => destruct b
         | context [let '(_, _) := ?p in _] => destruct p as [ok t]
         end;
    try (destruct t as [size|]; simpl in Hr; [|discriminate]);
    injection Hr as <-; simpl; repeat split.
Qed.

Lemma readProperty_keeps width height property value
    (st : Loading (F := F) (EM := EM) (Color := Color)) r :
  readProperty getTexture extractVector4u atoi width height property value st
    = Some r ->
  outside_the_loop (lwindow (exit_state r)) = outside_the_loop (lwindow st) /\
  m_LoadedPathname (lskin (exit_state r)) = m_LoadedPathname (lskin st) /\
  m_TextureTitleBar_L (lskin (exit_state r)) = m_TextureTitleBar_L (lskin st) /\
  m_TextureTitleBar_R (lskin (exit_state r)) = m_TextureTitleBar_R (lskin st) /\
  backgroundColor (lskin (exit_state r)) = backgroundColor (lskin st) /\
  (property <> "layout"%string ->
     layout (lwindow (exit_state r)) = layout (lwindow st)) /\
  (property <> "distancetoside"%string ->
     distanceToSide (lwindow (exit_state r)) = distanceToSide (lwindow st)).
Proof using Type.
  unfold readProperty. intros Hr.
  destruct (String.eqb property "splitimage") eqn:E1.
  { destruct (String.eqb value "true"); [|destruct (String.eqb value "false")];
      injection Hr as <-; simpl; repeat split. }
  destruct (String.eqb property "phases") eqn:E2.
  { injection Hr as <-; simpl; repeat split. }
  destruct (String.eqb property "extension") eqn:E3.
  { injection Hr as <-; simpl; repeat split. }
  destruct (String.eqb property "borders") eqn:E4.
  { destruct (extractVector4u value) as [[[[x1 x2] x3] x4]|];
      injection Hr as <-; simpl; repeat split. }
  destruct (String.eqb property "backgroundimage") eqn:E5.
  { destruct (backgroundimage_keeps _ _ _ _ _ Hr)
      as (Hw & _ & Hp & _ & HL & HR & Hc).
    rewrite Hw. repeat split; assumption. }
  destruct (String.eqb property "layout") eqn:E6.
  { apply String.eqb_eq in E6.
    destruct (String.eqb value "left"); [|destruct (String.eqb value "right")];
      injection Hr as <-; simpl; repeat split; intros Hne; congruence. }
  destruct (String.eqb property "distancetoside") eqn:E7.
  { apply String.eqb_eq in E7.
    injection Hr as <-; simpl; repeat split; intros Hne; congruence. }
  injection Hr as <-; simpl; repeat split.
Qed.

Lemma readProperties_keeps width height properties :
  forall (st : Loading (F := F) (EM := EM) (Color := Color)) r,
  readProperties getTexture extractVector4u atoi width height properties st
    = Some r ->
  outside_the_loop (lwindow (exit_state r)) = outside_the_loop (lwindow st) /\
  m_LoadedPathname (lskin (exit_state r)) = m_LoadedPathname (lskin st) /\
  m_TextureTitleBar_L (lskin (exit_state r)) = m_TextureTitleBar_L (lskin st) /\
  m_TextureTitleBar_R (lskin (exit_state r)) = m_TextureTitleBar_R (lskin st) /\
  backgroundColor (lskin (exit_state r)) = backgroundColor (lskin st) /\
  ((forall v, ("layout"%string, v) ∉ properties) ->
     layout (lwindow (exit_state r)) = layout (lwindow st)) /\
  ((forall v, ("distancetoside"%string, v) ∉ properties) ->
     distanceToSide (lwindow (exit_state r)) = distanceToSide (lwindow st)).
Proof using Type.
  induction properties as [|[property value] properties IH]; intros st r Hr.
  - simpl in Hr. injection Hr as <-. simpl. repeat split.
  - cbn [readProperties] in Hr.
    destruct (readProperty getTexture extractVector4u atoi width height
                property value st) as [r1|] eqn:Hstep;
      cbn [mbind option_bind] in Hr; [|discriminate].
    destruct (readProperty_keeps _ _ _ _ _ _ Hstep)
      as (Hw1 & Hp1 & HL1 & HR1 & Hc1 & Hlay1 & Hdist1).
    assert (Hl : (forall v, ("layout"%string, v) ∉ (property, value) :: properties) ->
                 property <> "layout"%string /\
                 forall v, ("layout"%string, v) ∉ properties).
    { intros Hno. split.
      - intros ->. apply (Hno value). left.
      - intros v Hin. apply (Hno v). right. exact Hin. }
    assert (Hd : (forall v, ("distancetoside"%string, v) ∉ (property, value) :: properties) ->
                 property <> "distancetoside"%string /\
                 forall v, ("distancetoside"%string, v) ∉ properties).
    { intros Hno. split.
      - intros ->. apply (Hno value). left.
      - intros v Hin. apply (Hno v). right. exact Hin. }
    destruct r1 as [st1 | st1]; simpl in *.
    + destruct (IH st1 r Hr) as (Hw & Hp & HL & HR & Hc & Hlay & Hdist).
      repeat split; try congruence.
      * intros Hno. destruct (Hl Hno) as [Hne Hrest].
        rewrite (Hlay Hrest). apply Hlay1, Hne.
      * intros Hno. destruct (Hd Hno) as [Hne Hrest].
        rewrite (Hdist Hrest). apply Hdist1, Hne.
    + injection Hr as <-. simpl. repeat split; try assumption.
      * intros Hno. apply Hlay1, (Hl Hno).
      * intros Hno. apply Hdist1, (Hd Hno).
Qed.

Ltac load_done :=
  repeat split; try congruence; try contradiction;
  try (intros; discriminate);
  try (match goal with
       | H1 : Some _ = Some _ |- _ => injection H1 as <-; assumption
       end).

(** Everything the theorems below need about one call of [load]. *)
Lemma load_outcome width height (bkgColor : Color) pathname
    (w : ChildWindow F EM) (sk : Skin F Color) r w' sk' :
  load openFile getTexture removeTexture extractVector4u atoi Button_load
       width height bkgColor pathname w sk = Some (r, w', sk') ->
  m_Loaded w' = r /\
  outside_load w' = outside_load w /\
  (pathname = ""%string -> r = false /\ w' = set_Loaded false w /\ sk' = sk) /\
  (pathname <> ""%string ->
     m_Size w' = (width, height) /\
     m_LoadedPathname sk' = directory pathname /\
     backgroundColor sk' = bkgColor /\
     forall properties,
       openFile (String.append (directory pathname) "info.txt") = Some properties ->
       ((forall v, ("layout"%string, v) ∉ properties) -> layout w' = LayoutRight) /\
       ((forall v, ("distancetoside"%string, v) ∉ properties) ->
          distanceToSide w' = 5%N)) /\
  (r = true ->
     m_SplitImage sk' = false /\
     exists size, m_TextureTitleBar_M w' = Some size /\
                  m_TitleBarHeight w' = size.2).
Proof using Type.
  unfold load. intros Hload.
  destruct (String.eqb pathname "") eqn:Epath.
  { apply String.eqb_eq in Epath. injection Hload as <- <- <-.
    repeat split; try discriminate; intros; contradiction. }
  apply String.eqb_neq in Epath.
  set (sk0 := if bool_decide _ then _ else _) in Hload.
  assert (Hsk0 : m_LoadedPathname sk0 = directory pathname /\
                 backgroundColor sk0 = bkgColor /\
                 m_TextureTitleBar_L sk0 = m_TextureTitleBar_L sk /\
                 m_TextureTitleBar_R sk0 = m_TextureTitleBar_R sk).
  { unfold sk0, directory. simpl.
    destruct (bool_decide _); simpl; repeat split. }
  destruct Hsk0 as (Hdir & Hcol & _ & _).
  rewrite Hdir in Hload.
  destruct (openFile (String.append (directory pathname) "info.txt"))
    as [properties|] eqn:Hopen.
  2:{ injection Hload as <- <- <-. simpl.
      repeat split; try assumption; try discriminate; try contradiction.
      all: intros; discriminate. }
  destruct (readProperties getTexture extractVector4u atoi width height
              properties _) as [exit|] eqn:Hloop;
    cbn [mbind option_bind] in Hload; [|discriminate].
  destruct (readProperties_keeps _ _ _ _ _ Hloop)
    as (Hw & Hp & _ & _ & Hc & Hlay & Hdist).
  cbn [lwindow lskin] in Hw, Hp, Hc, Hlay, Hdist.
  unfold outside_the_loop in Hw. simpl in Hw, Hp, Hc, Hlay, Hdist.
  injection Hw as Hl Hmd Hid Hpar Hpos Hsz Htb Hdrag Hop Hal Htex Hbtn Hpan.
  destruct exit as [st | st]; cbn [exit_state] in *.
  2:{ injection Hload as <- <- <-. unfold outside_load. load_done. }
  destruct (m_SplitImage _) eqn:Hsplit in Hload.
  { injection Hload as <- <- <-. unfold outside_load. simpl. load_done. }
  destruct (getTexture _ _) as [ok t] in Hload.
  destruct ok.
  2:{ injection Hload as <- <- <-. unfold outside_load. simpl. load_done. }
  destruct t as [size|]; cbn [mbind option_bind] in Hload; [|discriminate].
  destruct (Button_load _ _) as [ok b] in Hload.
  destruct ok; injection Hload as <- <- <-; unfold outside_load; simpl.
  - load_done.
    + simpl in Hsplit. exact Hsplit.
    + exists size. split; reflexivity.
  - load_done.
Qed.

(** X18.  What [load] returns is what it leaves in the loaded flag: the
    window is marked loaded exactly when [load] returned [true], so a
    failed reload leaves a window that was loaded before unloaded. *)
Theorem load_returns_the_loaded_flag width height (bkgColor : Color) pathname
    (w : ChildWindow F EM) (sk : Skin F Color) r w' sk' :
  load openFile getTexture removeTexture extractVector4u atoi Button_load
       width height bkgColor pathname w sk = Some (r, w', sk') ->
  m_Loaded w' = r.
Proof using Type.
  intros Hload. exact (proj1 (load_outcome _ _ _ _ _ _ _ _ _ Hload)).
Qed.

(** X19.  A window that [load] reports as loaded has what the loaded-only
    operations rely on: the path name was not empty, the size is the one
    asked for, the title bar is not split, its texture is there and the
    title bar is as high as that texture, so that [setTitlebarHeight] does
    not dereference a null texture and stores the height it is given. *)
Theorem loaded_window_has_a_title_bar width height (bkgColor : Color)
    pathname (w : ChildWindow F EM) (sk : Skin F Color) w' sk' :
  load openFile getTexture removeTexture extractVector4u atoi Button_load
       width height bkgColor pathname w sk = Some (true, w', sk') ->
  pathname <> ""%string /\
  m_Size w' = (width, height) /\
  m_SplitImage sk' = false /\
  (exists size, m_TextureTitleBar_M w' = Some size /\
                m_TitleBarHeight w' = size.2) /\
  forall h, exists w'',
    setTitlebarHeight h w' = Some w'' /\ m_TitleBarHeight w'' = h.
Proof using Type.
  intros Hload.
  destruct (load_outcome _ _ _ _ _ _ _ _ _ Hload)
    as (Hflag & _ & Hempty & Hfull & Hok).
  destruct (Hok eq_refl) as (Hsplit & size & Htex & Hheight).
  assert (Hne : pathname <> ""%string).
  { intros Hp. destruct (Hempty Hp) as [Hr _]. discriminate. }
  destruct (Hfull Hne) as (Hsize & _).
  repeat split; try assumption.
  - exists size. split; assumption.
  - intros h. unfold setTitlebarHeight. rewrite Hflag, Htex. simpl.
    eexists. split; reflexivity.
Qed.

(** X20.  Whatever [load] returns for a path name that is not empty, it has
    stored the size, the background colour and the path name, and the
    stored path name ends with a slash: it is the path name itself when
    that ends with a slash, and the path name followed by one slash
    otherwise.  Nothing is rolled back when the load fails later. *)
Theorem load_stores_a_directory width height (bkgColor : Color) pathname
    (w : ChildWindow F EM) (sk : Skin F Color) r w' sk' :
  pathname <> ""%string ->
  load openFile getTexture removeTexture extractVector4u atoi Button_load
       width height bkgColor pathname w sk = Some (r, w', sk') ->
  m_Size w' = (width, height) /\
  backgroundColor sk' = bkgColor /\
  (String.get (String.length pathname - 1) pathname = Some "/"%char ->
   m_LoadedPathname sk' = pathname) /\
  (String.get (String.length pathname - 1) pathname <> Some "/"%char ->
   m_LoadedPathname sk' = String.append pathname "/") /\
  String.get (String.length (m_LoadedPathname sk') - 1) (m_LoadedPathname sk')
  = Some "/"%char.
Proof using Type.
  intros Hne Hload.
  destruct (load_outcome _ _ _ _ _ _ _ _ _ Hload) as (_ & _ & _ & Hfull & _).
  destruct (Hfull Hne) as (Hsize & Hdir & Hcol & _).
  repeat split; try assumption.
  - intros Hslash. rewrite Hdir. unfold directory.
    rewrite bool_decide_eq_false_2; [reflexivity|].
    intros Hno. exact (Hno Hslash).
  - intros Hno. rewrite Hdir. unfold directory.
    rewrite bool_decide_eq_true_2 by exact Hno. reflexivity.
  - rewrite Hdir. apply directory_ends_with_slash, Hne.
Qed.

(** X21.  [load] leaves the rest of the window alone: the mouse-down flag,
    the callback id, the parent, the position, the dragging offset, the
    opacity and the panel with its children are never written, and for an
    empty path name nothing but the loaded flag is: the call returns
    [false] with every other member as it was. *)
Theorem load_leaves_the_rest_alone width height (bkgColor : Color) pathname
    (w : ChildWindow F EM) (sk : Skin F Color) r w' sk' :
  load openFile getTexture removeTexture extractVector4u atoi Button_load
       width height bkgColor pathname w sk = Some (r, w', sk') ->
  outside_load w' = outside_load w /\
  (pathname = ""%string -> r = false /\ w' = set_Loaded false w /\ sk' = sk).
Proof using Type.
  intros Hload.
  destruct (load_outcome _ _ _ _ _ _ _ _ _ Hload) as (_ & Hout & Hempty & _).
  split; assumption.
Qed.

(** X22.  The layout side and the distance to the side do not survive a
    reload: once the info file was opened, a file without a "layout"
    property leaves the close button on the right and a file without a
    "distancetoside" property leaves it 5 pixels from the side, whatever
    the window had before and whether the load succeeds or not. *)
Theorem load_resets_the_layout width height (bkgColor : Color) pathname
    (w : ChildWindow F EM) (sk : Skin F Color) properties r w' sk' :
  pathname <> ""%string ->
  openFile (String.append (directory pathname) "info.txt") = Some properties ->
  load openFile getTexture removeTexture extractVector4u atoi Button_load
       width height bkgColor pathname w sk = Some (r, w', sk') ->
  ((forall v, ("layout"%string, v) ∉ properties) -> layout w' = LayoutRight) /\
  ((forall v, ("distancetoside"%string, v) ∉ properties) ->
     distanceToSide w' = 5%N).
Proof using Type.
  intros Hne Hopen Hload.
  destruct (load_outcome _ _ _ _ _ _ _ _ _ Hload) as (_ & _ & _ & Hfull & _).
  destruct (Hfull Hne) as (_ & _ & _ & Hprops).
  exact (Hprops properties Hopen).
Qed.
End WithScalar.

(** *** Loading the skin of [MoreExamples] *)

Local Abbreviation load_black :=
  (load (F := Binary32.float) (EM := unit)
        black_openFile black_getTexture black_removeTexture
        black_extractVector4u digit_atoi black_Button_load).

Lemma load_returns_the_loaded_flag_witness :
  exists w' sk',
    load_black 200 100 (1%N, 2%N, 3%N) "Missing" (demo_window 3) plain_skin
    = Some (false, w', sk') /\
    m_Loaded (demo_window (F := Binary32.float) 3) = true /\
    m_Loaded w' = false.
Proof.
  destruct (load_black 200 100 (1%N, 2%N, 3%N) "Missing" (demo_window 3)
                       plain_skin)
    as [[[r w'] sk']|] eqn:Hload; [|vm_compute in Hload; discriminate].
  assert (Hr : r = false).
  { pose proof Hload as E. vm_compute in E. injection E as <- _ _. reflexivity. }
  subst r. exists w', sk'. split; [reflexivity|]. split; [reflexivity|].
  exact (load_returns_the_loaded_flag _ _ _ _ _ _ _ _ _ _ _ _ _ _ _ Hload).
Defined.

Lemma loaded_window_has_a_title_bar_witness :
  exists w' sk',
    load_black 200 100 (1%N, 2%N, 3%N) "Black" new_window plain_skin
    = Some (true, w', sk') /\
    m_Size w' = (200%N, 100%N) /\
    m_TextureTitleBar_M w' = Some (64%N, 25%N) /\
    m_TitleBarHeight w' = 25%N /\
    exists w'', setTitlebarHeight 30 w' = Some w'' /\ m_TitleBarHeight w'' = 30%N.
Proof.
  destruct (load_black 200 100 (1%N, 2%N, 3%N) "Black" new_window plain_skin)
    as [[[r w'] sk']|] eqn:Hload; [|vm_compute in Hload; discriminate].
  assert (Hr : r = true).
  { pose proof Hload as E. vm_compute in E. injection E as <- _ _. reflexivity. }
  subst r. exists w', sk'. split; [reflexivity|].
  destruct (loaded_window_has_a_title_bar _ _ _ _ _ _ _ _ _ _ _ _ _ _ Hload)
    as (_ & Hsize & _ & (size & Htex & Hheight) & Hset).
  split; [exact Hsize|].
  assert (Hs : size = (64%N, 25%N)).
  { pose proof Hload as E. vm_compute in E. injection E as <- _.
    simpl in Htex. injection Htex as <-. reflexivity. }
  subst size. split; [exact Htex|]. split; [exact Hheight | exact (Hset 30%N)].
Defined.

Lemma load_stores_a_directory_witness :
  (exists r w' sk',
     load_black 200 100 (1%N, 2%N, 3%N) "Black" new_window plain_skin
     = Some (r, w', sk') /\
     m_Size w' = (200%N, 100%N) /\
     backgroundColor sk' = (1%N, 2%N, 3%N) /\
     m_LoadedPathname sk' = "Black/"%string) /\
  (exists r w' sk',
     load_black 200 100 (1%N, 2%N, 3%N) "Black/" new_window plain_skin
     = Some (r, w', sk') /\
     m_LoadedPathname sk' = "Black/"%string).
Proof.
  split.
  - destruct (load_black 200 100 (1%N, 2%N, 3%N) "Black" new_window plain_skin)
      as [[[r w'] sk']|] eqn:Hload; [|vm_compute in Hload; discriminate].
    exists r, w', sk'. split; [reflexivity|].
    assert (Hne : "Black"%string <> ""%string) by discriminate.
    destruct (load_stores_a_directory _ _ _ _ _ _ _ _ _ _ _ _ _ _ _ Hne Hload)
      as (Hsize & Hcol & _ & Hadd & _).
    split; [exact Hsize|]. split; [exact Hcol|].
    apply Hadd. discriminate.
  - destruct (load_black 200 100 (1%N, 2%N, 3%N) "Black/" new_window plain_skin)
      as [[[r w'] sk']|] eqn:Hload; [|vm_compute in Hload; discriminate].
    exists r, w', sk'. split; [reflexivity|].
    assert (Hne : "Black/"%string <> ""%string) by discriminate.
    destruct (load_stores_a_directory _ _ _ _ _ _ _ _ _ _ _ _ _ _ _ Hne Hload)
      as (_ & _ & Hsame & _).
    apply Hsame. reflexivity.
Defined.

Lemma load_leaves_the_rest_alone_witness :
  exists r w' sk',
    load_black 200 100 (1%N, 2%N, 3%N) "" (demo_window 3) plain_skin
    = Some (r, w', sk') /\
    outside_load w' = outside_load (demo_window (F := Binary32.float) 3) /\
    r = false /\ w' = set_Loaded false (demo_window 3) /\ sk' = plain_skin.
Proof.
  destruct (load_black 200 100 (1%N, 2%N, 3%N) "" (demo_window 3) plain_skin)
    as [[[r w'] sk']|] eqn:Hload; [|vm_compute in Hload; discriminate].
  exists r, w', sk'. split; [reflexivity|].
  destruct (load_leaves_the_rest_alone _ _ _ _ _ _ _ _ _ _ _ _ _ _ _ Hload)
    as [Hout Hempty].
  split; [exact Hout | exact (Hempty eq_refl)].
Defined.

Lemma load_resets_the_layout_witness :
  exists r w' sk',
    load_black 200 100 (1%N, 2%N, 3%N) "Black"
               (set_layout LayoutLeft (demo_window 3)) plain_skin
    = Some (r, w', sk') /\
    layout w' = LayoutRight.
Proof.
  destruct (load_black 200 100 (1%N, 2%N, 3%N) "Black"
                       (set_layout LayoutLeft (demo_window 3)) plain_skin)
    as [[[r w'] sk']|] eqn:Hload; [|vm_compute in Hload; discriminate].
  exists r, w', sk'. split; [reflexivity|].
  refine (proj1 (load_resets_the_layout _ _ _ _ _ _ _ _ _ _ _ _
                   [("extension", "jpg"); ("splitimage", "false");
                    ("distancetoside", "8")]%string _ _ _ _ _ Hload) _).
  - discriminate.
  - vm_compute. reflexivity.
  - intros v Hin.
    repeat (apply elem_of_cons in Hin as [Hin | Hin]; [discriminate|]).
    apply elem_of_nil in Hin. contradiction.
Defined.
End ChildWindowLoadFacts.

(** * Copies, assignments and destructors of child windows *)

Module ChildWindowOwnershipFacts.
Import ChildWindowOwnership MoreExamples.

Section WithScalar.
Context {F Bases Color Sprite Texture Manager : Type}.
Variable Bases_copy : Bases -> Bases.
Variable Bases_assign : Bases -> Bases -> Bases.
Variable Sprite_new : Sprite.
Variable Sprite_setTexture : Texture -> Sprite -> Sprite.
Variable copyTexture : option Texture -> Manager -> bool * option Texture * Manager.
Variable removeTexture : Texture -> Manager -> Manager.
Variable Button_copy : ChildWindow.Button F -> ChildWindow.Button F.
Variable new_button : gmap positive (ChildWindow.Button F) -> positive.
Variable new_object :
  gmap positive (Object F Bases Color Sprite Texture) -> positive.

Local Abbreviation Store := (Store F Bases Color Sprite Texture Manager).
Local Abbreviation copy_construct :=
  (copy_construct Bases_copy Sprite_new Sprite_setTexture copyTexture
                  Button_copy new_button).
Local Abbreviation destroy := (destroy removeTexture).
Local Abbreviation clone :=
  (clone Bases_copy Sprite_new Sprite_setTexture copyTexture Button_copy
         new_button new_object).
Local Abbreviation operator_assign :=
  (operator_assign Bases_copy Bases_assign Sprite_new Sprite_setTexture
                   copyTexture removeTexture Button_copy new_button
                   new_object).

(** What the copy constructor leaves, when it is defined. *)
Lemma copy_construct_inv this from (st st' : Store) :
  copy_construct this from st = Some st' ->
  exists o c b,
    objects st !! from = Some o /\
    buttons st !! m_CloseButton (members o) = Some b /\
    objects st' = <[this := mkObject (Bases_copy (bases o)) c]> (objects st) /\
    buttons st' = <[new_button (buttons st) := Button_copy b]> (buttons st) /\
    m_CloseButton c = new_button (buttons st) /\
    copied_by_value c = copied_by_value (members o).
Proof using Type.
  unfold copy_construct. intros Hc.
  destruct (objects st !! from) as [o|] eqn:Ho; simpl in Hc; [|discriminate].
  destruct (copyTitleBarTexture _ _ _ _ _) as [[[tL sL] m1]|];
    simpl in Hc; [|discriminate].
  destruct (copyTitleBarTexture _ _ _ _ _) as [[[tM sM] m2]|];
    simpl in Hc; [|discriminate].
  destruct (copyTitleBarTexture _ _ _ _ _) as [[[tR sR] m3]|];
    simpl in Hc; [|discriminate].
  destruct (buttons st !! m_CloseButton (members o)) as [b|] eqn:Hb;
    simpl in Hc; [|discriminate].
  injection Hc as <-. simpl.
  eexists o, _, b.
  split; [reflexivity|]. split; [exact Hb|]. repeat split; reflexivity.
Qed.

(** X23.  Assignment between two different windows is never defined: the
    old close button of the target is deleted at line 103, handed to [temp]
    by the swap of line 120, and deleted again by the destructor of [temp]
    when the block ends.  Only self-assignment, which does nothing,
    returns. *)
Theorem assignment_deletes_the_close_button_twice this right (st st' : Store) :
  operator_assign this right st = Some st' <-> this = right /\ st' = st.
Proof using Type.
  unfold operator_assign. split.
  - destruct (decide (this = right)) as [->|Hne].
    + intros Hs. injection Hs as <-. split; reflexivity.
    + intros Hs. exfalso.
      destruct (copy_construct _ right st) as [st1|]; simpl in Hs;
        [|discriminate].
      destruct (objects st1 !! this) as [o|]; simpl in Hs; [|discriminate].
      destruct (objects st1 !! right) as [r|]; simpl in Hs; [|discriminate].
      destruct (buttons st1 !! m_CloseButton (members o)) as [b|];
        simpl in Hs; [|discriminate].
      destruct (objects st1 !! new_object (objects st)) as [t|];
        simpl in Hs; [|discriminate].
      unfold ChildWindowOwnership.destroy in Hs. simpl in Hs.
      rewrite lookup_insert_eq in Hs. simpl in Hs.
      rewrite lookup_delete_eq in Hs. simpl in Hs. discriminate.
  - intros [-> ->]. rewrite decide_True by reflexivity. reflexivity.
Qed.

Section Fresh.
Hypothesis new_button_fresh : forall bs, bs !! new_button bs = None.

(** X24.  The copy constructor gives the copy a close button of its own:
    a new button, at an address that held no button, copied from the
    button of the source; every button that existed stays as it was, the
    source window is not changed, and the members of lines 54-62 are
    those of the source. *)
Theorem copy_has_a_close_button_of_its_own this from (st st' : Store) :
  this <> from ->
  copy_construct this from st = Some st' ->
  exists o o' b,
    objects st !! from = Some o /\
    objects st' !! from = Some o /\
    objects st' !! this = Some o' /\
    buttons st !! m_CloseButton (members o) = Some b /\
    buttons st !! m_CloseButton (members o') = None /\
    buttons st' !! m_CloseButton (members o') = Some (Button_copy b) /\
    m_CloseButton (members o') <> m_CloseButton (members o) /\
    (forall p x, buttons st !! p = Some x -> buttons st' !! p = Some x) /\
    copied_by_value (members o') = copied_by_value (members o).
Proof using new_button_fresh.
  intros Hne Hc.
  destruct (copy_construct_inv _ _ _ _ Hc)
    as (o & c & b & Ho & Hb & Hobjs & Hbtns & Hp & Hval).
  exists o, (mkObject (Bases_copy (bases o)) c), b.
  rewrite Hobjs, Hbtns. simpl. rewrite Hp.
  repeat split; try assumption.
  - rewrite lookup_insert_ne by exact Hne. exact Ho.
  - apply lookup_insert_eq.
  - apply new_button_fresh.
  - apply lookup_insert_eq.
  - intros Heq. rewrite <- Heq, new_button_fresh in Hb. discriminate.
  - intros p x Hx. rewrite lookup_insert_ne; [exact Hx|].
    intros <-. rewrite new_button_fresh in Hx. discriminate.
Qed.

(** X25.  Windows that each hold a live close button of their own keep
    doing so when one of them is cloned or destroyed, and the destructor
    of such a window never deletes a button that is not live. *)
Theorem clone_and_destroy_keep_ownership this (st : Store) :
  owns_its_button st ->
  (forall q st', clone this st = Some (q, st') -> owns_its_button st') /\
  (is_Some (objects st !! this) ->
   exists st', destroy this st = Some st' /\ owns_its_button st').
Proof using new_button_fresh.
  intros [Hlive Hown]. split.
  - intros q st' Hclone. unfold ChildWindowOwnership.clone in Hclone.
    destruct (copy_construct _ this st) as [st1|] eqn:Hc;
      simpl in Hclone; [|discriminate].
    injection Hclone as <- <-.
    destruct (copy_construct_inv _ _ _ _ Hc)
      as (o & c & b & Ho & Hb & Hobjs & Hbtns & Hp & _).
    set (q := new_object (objects st)) in *.
    set (p := new_button (buttons st)) in *.
    assert (Hold : forall a x, objects st !! a = Some x ->
                               m_CloseButton (members x) <> p).
    { intros a x Hx Heq. destruct (Hlive a x Hx) as [y Hy].
      rewrite Heq in Hy. unfold p in Hy.
      rewrite new_button_fresh in Hy. discriminate. }
    split.
    + intros a x. rewrite Hobjs, Hbtns.
      destruct (decide (a = q)) as [->|Ha].
      * rewrite lookup_insert_eq. intros Hx. injection Hx as <-. simpl.
        rewrite Hp, lookup_insert_eq. eauto.
      * rewrite lookup_insert_ne by congruence. intros Hx.
        rewrite lookup_insert_ne by (apply not_eq_sym, (Hold a x Hx)).
        apply (Hlive a x Hx).
    + intros a a' x x' Hne. rewrite Hobjs.
      destruct (decide (a = q)) as [->|Ha];
        destruct (decide (a' = q)) as [->|Ha'];
        rewrite ?lookup_insert_eq, ?lookup_insert_ne by congruence.
      * contradiction.
      * intros Hx Hx'. injection Hx as <-. simpl. rewrite Hp.
        apply not_eq_sym, (Hold a' x' Hx').
      * intros Hx Hx'. injection Hx' as <-. simpl. rewrite Hp.
        apply (Hold a x Hx).
      * apply Hown, Hne.
  - intros [o Ho]. unfold ChildWindowOwnership.destroy. rewrite Ho. simpl.
    destruct (Hlive this o Ho) as [b Hb]. rewrite Hb. simpl.
    eexists. split; [reflexivity|]. split; simpl.
    + intros a x Hx. apply lookup_delete_Some in Hx as [Hne Hx].
      rewrite lookup_delete_ne.
      * apply (Hlive a x Hx).
      * apply (Hown this a o x Hne Ho Hx).
    + intros a a' x x' Hne Hx Hx'.
      apply lookup_delete_Some in Hx as [_ Hx].
      apply lookup_delete_Some in Hx' as [_ Hx'].
      apply (Hown a a' x x' Hne Hx Hx').
Qed.

Hypothesis new_object_fresh : forall os, os !! new_object os = None.

(** X26.  Destroying a clone undoes the clone: the windows and the
    buttons are those from before [clone], and the destructor of the
    clone is defined. *)
Theorem destroying_a_clone_restores_the_store this q (st st' : Store) :
  clone this st = Some (q, st') ->
  exists st'',
    destroy q st' = Some st'' /\
    objects st'' = objects st /\
    buttons st'' = buttons st.
Proof using new_button_fresh new_object_fresh.
  intros Hclone. unfold ChildWindowOwnership.clone in Hclone.
  destruct (copy_construct _ this st) as [st1|] eqn:Hc;
    simpl in Hclone; [|discriminate].
  injection Hclone as <- <-.
  destruct (copy_construct_inv _ _ _ _ Hc)
    as (o & c & b & Ho & Hb & Hobjs & Hbtns & Hp & _).
  unfold ChildWindowOwnership.destroy.
  rewrite Hobjs, lookup_insert_eq. simpl.
  rewrite Hbtns, Hp, lookup_insert_eq. simpl.
  eexists. split; [reflexivity|]. simpl. split.
  - apply delete_insert_id, new_object_fresh.
  - apply delete_insert_id, new_button_fresh.
Qed.
End Fresh.
End WithScalar.

(** *** The properties at the store of [MoreExamples] *)

Lemma next_button_fresh {F : Type} (bs : gmap positive (ChildWindow.Button F)) :
  bs !! next_button bs = None.
Proof. apply not_elem_of_dom. apply is_fresh. Qed.

Lemma next_object_fresh {F : Type}
    (os : gmap positive (Object F unit unit unit unit)) :
  os !! next_object os = None.
Proof. apply not_elem_of_dom. apply is_fresh. Qed.

Lemma lone_store_owns_its_button : owns_its_button lone_store.
Proof.
  split.
  - intros a o Ha. cbv [lone_store objects] in Ha.
    apply lookup_singleton_Some in Ha as [<- <-].
    vm_compute. eauto.
  - intros a a' o o' Hne Ha Ha'. cbv [lone_store objects] in Ha, Ha'.
    apply lookup_singleton_Some in Ha as [<- _].
    apply lookup_singleton_Some in Ha' as [<- _]. contradiction.
Qed.

Local Abbreviation lone_copy_construct :=
  (copy_construct (F := Qc) (Manager := unit) (fun b : unit => b) tt
                  (fun (_ : unit) (s : unit) => s) unit_copyTexture
                  (fun b => b) next_button).
Local Abbreviation lone_clone :=
  (clone (F := Qc) (Manager := unit) (fun b : unit => b) tt
         (fun (_ : unit) (s : unit) => s) unit_copyTexture
         (fun b => b) next_button next_object).
Local Abbreviation lone_destroy :=
  (destroy (F := Qc) (Bases := unit) (Color := unit) (Sprite := unit)
           unit_removeTexture).

Lemma copy_has_a_close_button_of_its_own_witness :
  exists st' o' b,
    lone_copy_construct 7 1 lone_store = Some st' /\
    objects st' !! 7%positive = Some o' /\
    buttons lone_store !! 2%positive = Some b /\
    buttons st' !! 2%positive = Some b /\
    buttons st' !! m_CloseButton (members o') = Some b /\
    m_CloseButton (members o') <> 2%positive.
Proof.
  destruct (lone_copy_construct 7 1 lone_store) as [st'|] eqn:Hc;
    [|vm_compute in Hc; discriminate].
  destruct (copy_has_a_close_button_of_its_own
              (fun b : unit => b) tt (fun (_ : unit) (s : unit) => s)
              unit_copyTexture (fun b => b) next_button next_button_fresh
              7%positive 1%positive lone_store st')
    as (o & o' & b & Ho & _ & Ho' & Hb & _ & Hb' & Hne & Hkept & _);
    [discriminate | exact Hc |].
  cbv [lone_store objects] in Ho.
  apply lookup_singleton_Some in Ho as [_ <-]. simpl in Hb, Hne.
  exists st', o', b. split; [reflexivity|]. split; [exact Ho'|].
  split; [exact Hb|]. split; [exact (Hkept _ _ Hb)|].
  split; [exact Hb' | exact Hne].
Defined.

Lemma clone_and_destroy_keep_ownership_witness :
  exists q st',
    lone_clone 1 lone_store = Some (q, st') /\
    owns_its_button st' /\
    exists st'',
      lone_destroy 1 lone_store = Some st'' /\ owns_its_button st''.
Proof.
  destruct (clone_and_destroy_keep_ownership
              (fun b : unit => b) tt (fun (_ : unit) (s : unit) => s)
              unit_copyTexture unit_removeTexture (fun b => b)
              next_button next_object next_button_fresh
              1%positive lone_store lone_store_owns_its_button)
    as [Hclone Hdestroy].
  destruct (lone_clone 1 lone_store) as [[q st']|] eqn:Hc;
    [|vm_compute in Hc; discriminate].
  exists q, st'. split; [reflexivity|]. split; [exact (Hclone q st' eq_refl)|].
  apply Hdestroy. eexists. apply lookup_singleton_eq.
Defined.

Lemma destroying_a_clone_restores_the_store_witness :
  exists q st' st'',
    lone_clone 1 lone_store = Some (q, st') /\
    lone_destroy q st' = Some st'' /\
    objects st'' = objects lone_store /\
    buttons st'' = buttons lone_store.
Proof.
  destruct (lone_clone 1 lone_store) as [[q st']|] eqn:Hc;
    [|vm_compute in Hc; discriminate].
  destruct (destroying_a_clone_restores_the_store
              (fun b : unit => b) tt (fun (_ : unit) (s : unit) => s)
              unit_copyTexture unit_removeTexture (fun b => b)
              next_button next_object next_button_fresh next_object_fresh
              1%positive q lone_store st' Hc)
    as (st'' & Hd & Ho & Hb).
  exists q, st', st''. split; [reflexivity|]. split; [exact Hd|].
  split; [exact Ho | exact Hb].
Defined.
End ChildWindowOwnershipFacts.
